(** * Verification of the stream-phonefarm networking core

    A shallow embedding of the multiplexer framing ([adbStub.ts]), the
    scrcpy control-message encoder ([control.ts]), the action recorder
    ([ActionRecorder.ts]), the WebSocket proxy ([WebsocketProxy.ts]), the
    sync service ([SyncService.ts]) and the Wi-Fi mode switch of
    [HttpServer.ts], with the properties the specification states about
    them.

    Conventions.  A JavaScript integer number is a [Z]; [n >>> 0] and
    [n & 0xffff] are written out with [Z.land].  A [Uint8Array] (and an
    [ArrayBuffer]) is a [list Z] whose elements are bytes.  A JavaScript
    string is a [string] whose characters are its UTF-16 code units, for
    strings whose code units are all below 256.  Code that can throw
    returns a [result]. *)

From Stdlib Require Import ZArith QArith Qabs List String Ascii Bool Lia.
From stdpp Require Import base option list gmap strings pretty sorting.

Local Open Scope Z_scope.

(** ** Exceptions *)

Inductive result (A : Type) : Type :=
| Ok (a : A)
| Throw (msg : string).
Arguments Ok {A} a.
Arguments Throw {A} msg.

#[global] Instance result_ret : MRet result := fun A a => Ok a.
#[global] Instance result_bind : MBind result := fun A B k r =>
  match r with
  | Ok a => k a
  | Throw m => Throw m
  end.

(** ** Typed arrays and [DataView] *)

Module Bytes.

Abbreviation Uint8Array := (list Z).

Definition is_byte (b : Z) : Prop := 0 <= b < 256.

(** [new Uint8Array(n)] *)
Definition alloc (n : nat) : Uint8Array := repeat 0 n.

(** [n >>> 0] *)
Definition to_uint32 (n : Z) : Z := Z.land n 0xffffffff.

(** [u8[i] = v]: a store outside the array is ignored, the value is
    reduced modulo 256. *)
Definition store (u8 : Uint8Array) (i : nat) (v : Z) : Uint8Array :=
  <[i := Z.land v 0xff]> u8.

(** [out.set(p, o)]: throws a [RangeError] when [p] does not fit. *)
Fixpoint write_at (out : Uint8Array) (o : nat) (p : Uint8Array) : Uint8Array :=
  match p with
  | [] => out
  | b :: p' => write_at (<[o := b]> out) (S o) p'
  end.

Definition set (out : Uint8Array) (p : Uint8Array) (o : nat) : result Uint8Array :=
  if (o + length p <=? length out)%nat then Ok (write_at out o p)
  else Throw "RangeError: offset is out of bounds".

(** The [DataView] writers; each throws a [RangeError] when the field
    does not fit in the buffer. *)
Definition setUint8 (buf : Uint8Array) (o : nat) (v : Z) : result Uint8Array :=
  set buf [Z.land v 0xff] o.

Definition setUint16 (buf : Uint8Array) (o : nat) (v : Z) (littleEndian : bool)
  : result Uint8Array :=
  let b0 := Z.land v 0xff in
  let b1 := Z.land (Z.shiftr v 8) 0xff in
  set buf (if littleEndian then [b0; b1] else [b1; b0]) o.

Definition setUint32 (buf : Uint8Array) (o : nat) (v : Z) (littleEndian : bool)
  : result Uint8Array :=
  let b0 := Z.land v 0xff in
  let b1 := Z.land (Z.shiftr v 8) 0xff in
  let b2 := Z.land (Z.shiftr v 16) 0xff in
  let b3 := Z.land (Z.shiftr v 24) 0xff in
  set buf (if littleEndian then [b0; b1; b2; b3] else [b3; b2; b1; b0]) o.

(** [dv.getUint32(o, true)] *)
Definition getUint32le (buf : Uint8Array) (o : nat) : result Z :=
  match buf !! o, buf !! S o, buf !! S (S o), buf !! S (S (S o)) with
  | Some b0, Some b1, Some b2, Some b3 =>
      Ok (Z.lor b0 (Z.lor (Z.shiftl b1 8) (Z.lor (Z.shiftl b2 16) (Z.shiftl b3 24))))
  | _, _, _, _ => Throw "RangeError: offset is out of bounds"
  end.

(** [buffer.slice(from, to)] *)
Definition slice (buf : Uint8Array) (from to : nat) : Uint8Array :=
  take (to - from) (drop from buf).

(** [function concat(parts)]: a zeroed buffer of the total length, each
    part copied at the running offset. *)
Definition total_length (parts : list Uint8Array) : nat :=
  fold_left (fun total p => (total + length p)%nat) parts 0%nat.

Fixpoint copy_parts (out : Uint8Array) (o : nat) (parts : list Uint8Array)
  : result Uint8Array :=
  match parts with
  | [] => Ok out
  | p :: rest => out' ← set out p o; copy_parts out' (o + length p)%nat rest
  end.

Definition concat (parts : list Uint8Array) : result Uint8Array :=
  copy_parts (alloc (total_length parts)) 0 parts.

(** [function u32le(n)] *)
Definition u32le (n : Z) : result Uint8Array :=
  setUint32 (alloc 4) 0 (to_uint32 n) true.

(** [function u16le(n)] *)
Definition u16le (n : Z) : result Uint8Array :=
  setUint16 (alloc 2) 0 (Z.land n 0xffff) true.

End Bytes.

(** ** The multiplexer frame ([MuxMessage]) *)

Module MuxMessage.
Import Bytes.

Inductive MuxMessageType : Type :=
| CreateChannel
| CloseChannel
| RawBinaryData
| RawStringData
| Data.

Definition code (t : MuxMessageType) : Z :=
  match t with
  | CreateChannel => 4
  | CloseChannel => 8
  | RawBinaryData => 16
  | RawStringData => 32
  | Data => 64
  end.

(** The fields of a parsed message; [type] is the raw first byte, as
    [parse] only casts it. *)
Record t : Type := mk {
  type : Z;
  channelId : Z;
  payload : Uint8Array;
}.

(** [MuxMessage.parse] *)
Definition parse (buffer : Uint8Array) : result t :=
  let u8 := buffer in
  if (length u8 <? 5)%nat then Throw "Invalid mux message"
  else
    match u8 !! 0%nat with
    | None => Throw "Invalid mux message"
    | Some ty =>
        cid ← getUint32le u8 1;
        Ok (mk ty cid (slice buffer 5 (length u8)))
    end.

(** [MuxMessage.createBuffer] *)
Definition createBuffer (ty : Z) (channelId : Z) (payload : option Uint8Array)
  : result Uint8Array :=
  let header := alloc (1 + 4) in
  let header := store header 0 ty in
  le ← u32le channelId;
  header ← set header le 1;
  match payload with
  | None => Ok header
  | Some p =>
      if (length p =? 0)%nat then Ok header
      else concat [header; p]
  end.

End MuxMessage.

(** ** Multiplexer channels ([MuxChannel]) *)

Module MuxChannel.
Import Bytes MuxMessage.

Definition CONNECTING : Z := 0.
Definition OPEN : Z := 1.
Definition CLOSING : Z := 2.
Definition CLOSED : Z := 3.

(** What a channel sends: [string | Uint8Array]. *)
Inductive data : Type :=
| Text (s : string)
| Binary (u8 : Uint8Array).

(** [te.encode(s)]: UTF-8 of a string of code units below 256. *)
Definition utf8_unit (c : ascii) : list Z :=
  let n := Z.of_N (N_of_ascii c) in
  if n <? 0x80 then [n]
  else [Z.lor 0xc0 (Z.shiftr n 6); Z.lor 0x80 (Z.land n 0x3f)].

Fixpoint utf8 (s : string) : Uint8Array :=
  match s with
  | EmptyString => []
  | String c s' => utf8_unit c ++ utf8 s'
  end.

(** The browser socket under the root channel: its state and what has
    been handed to the network.  [send] throws while the socket is
    connecting and drops the data once it is closing or closed. *)
Record WebSocket : Type := mkWebSocket {
  ws_readyState : Z;
  ws_sent : list data;
}.

Definition WebSocket_send (ws : WebSocket) (d : data) : result WebSocket :=
  if ws_readyState ws =? CONNECTING then Throw "InvalidStateError"
  else if ws_readyState ws =? OPEN
       then Ok (mkWebSocket (ws_readyState ws) (ws_sent ws ++ [d]))
       else Ok ws.

(** The fields of a channel object; [channels] keeps the ids of the
    registered children. *)
Record fields : Type := mkFields {
  id : Z;
  readyState : Z;
  channels : gset Z;
  storage : list data;
  nextId : Z;
}.

(** A channel with the chain of objects its [ws] field leads to: the
    root holds the socket, a child holds its parent. *)
Inductive channel : Type :=
| RootChannel (ws : WebSocket) (f : fields)
| ChildChannel (parent : channel) (f : fields).

Definition fields_of (c : channel) : fields :=
  match c with
  | RootChannel _ f => f
  | ChildChannel _ f => f
  end.

Definition with_fields (c : channel) (f : fields) : channel :=
  match c with
  | RootChannel ws _ => RootChannel ws f
  | ChildChannel p _ => ChildChannel p f
  end.

Definition push_storage (f : fields) (d : data) : fields :=
  mkFields (id f) (readyState f) (channels f) (storage f ++ [d]) (nextId f).

Definition set_storage (f : fields) (q : list data) : fields :=
  mkFields (id f) (readyState f) (channels f) q (nextId f).

Definition set_readyState (f : fields) (s : Z) : fields :=
  mkFields (id f) s (channels f) (storage f) (nextId f).

(** [_send] on the root channel: the data goes to the socket when the
    channel is open, on the queue while it is connecting. *)
Definition root_send (ws : WebSocket) (f : fields) (d : data) : result channel :=
  if readyState f =? OPEN then
    ws' ← WebSocket_send ws d; Ok (RootChannel ws' f)
  else if readyState f =? CONNECTING then
    Ok (RootChannel ws (push_storage f d))
  else Throw "Socket is already in CLOSING or CLOSED state".

(** [sendData]: a child wraps the bytes in a [Data] frame for its own id
    and hands it to its parent's [sendData]; the root passes it to
    [_send]. *)
Fixpoint sendData (c : channel) (u8 : Uint8Array) : result channel :=
  match c with
  | ChildChannel p f =>
      frame ← createBuffer (code Data) (id f) (Some u8);
      p' ← sendData p frame;
      Ok (ChildChannel p' f)
  | RootChannel ws f => root_send ws f (Binary u8)
  end.

Section Flush.
(** [new Uint8Array(s)] for a string [s]: what [sendData] makes of a
    string that [_send] hands it on a child channel. *)
Variable Uint8Array_of_string : string -> result Uint8Array.





End Flush.

(** [send] *)
Definition send (c : channel) (d : data) : result channel :=
  match c with
  | ChildChannel p f =>
      frame ← match d with
              | Text s => createBuffer (code RawStringData) (id f) (Some (utf8 s))
              | Binary u8 => createBuffer (code RawBinaryData) (id f) (Some u8)
              end;
      p' ← sendData p frame;
      Ok (ChildChannel p' f)
  | RootChannel ws f => root_send ws f d
  end.

(** [getNextId]: the loop, with the number of tests of its condition
    bounded by [fuel]; it gives the new value of [nextId] and the id
    returned or the error thrown. *)
Fixpoint getNextId_loop (fuel : nat) (channels : gset Z) (nextId : Z)
    (hitTop : bool) : option (Z * result Z) :=
  match fuel with
  | O => None
  | S fuel' =>
      let nextId := nextId + 1 in
      if decide (nextId ∈ channels) then
        if 0xffffffff <=? nextId then
          if hitTop then Some (nextId, Throw "No available channel id")
          else getNextId_loop fuel' channels 0 true
        else getNextId_loop fuel' channels nextId hitTop
      else Some (nextId, Ok nextId)
  end.

Definition getNextId (f : fields) : option (Z * result Z) :=
  getNextId_loop (2 * size (channels f) + 2) (channels f) (nextId f) false.

(** [_createChannel]: the child is registered under its id. *)
Definition register (f : fields) (nextId' : Z) (child : Z) : fields :=
  mkFields (id f) (readyState f) ({[child]} ∪ channels f) (storage f) nextId'.

(** [createChannel]: the new channel state and the id of the child, with
    the [CreateChannel] frame sent through [sendData]. *)
Definition createChannel (c : channel) (initData : Uint8Array)
  : option (result (channel * Z)) :=
  let f := fields_of c in
  if (readyState f =? CLOSING) || (readyState f =? CLOSED)
  then Some (Throw "Incorrect socket state")
  else
    r ← getNextId f;
    match r with
    | (n, Throw m) => Some (Throw m)
    | (n, Ok child) =>
        let c1 := with_fields c (register f n child) in
        Some (frame ← createBuffer (code CreateChannel) child (Some initData);
              c2 ← sendData c1 frame;
              Ok (c2, child))
    end.

(** The [CreateChannel] case of [onMessage]: the peer announces a child. *)
Definition onCreateChannel (f : fields) (channelId : Z) : fields :=
  let nextId' := if nextId f <? channelId then channelId else nextId f in
  register f nextId' channelId.

(** [new MuxChannel(ws, 0, ws)] on a socket in state [s]. *)
Definition wrap (s : Z) : channel :=
  RootChannel (mkWebSocket s []) (mkFields 0 s ∅ [] 0).

End MuxChannel.

(** ** JavaScript numbers that need not be integers

    A finite binary64 value is [Finite m e], the number [m * 2^e]; the
    two zeros are not told apart.  Arithmetic rounds to the nearest
    binary64 value, ties to even. *)

Module Number.

Inductive number : Type :=
| Finite (m e : Z)
| PosInf
| NegInf
| NaN.

Definition of_Z (z : Z) : number := Finite z 0.

(** [a < b] *)
Definition lt (a b : number) : bool :=
  match a, b with
  | NaN, _ | _, NaN => false
  | _, NegInf => false
  | PosInf, _ => false
  | NegInf, _ => true
  | _, PosInf => true
  | Finite m1 e1, Finite m2 e2 =>
      let t := Z.min e1 e2 in
      m1 * 2 ^ (e1 - t) <? m2 * 2 ^ (e2 - t)
  end.

(** [a > b] *)
Definition gt (a b : number) : bool := lt b a.

(** Rounding of the exact value [m * 2^e] to binary64: 53 bits of
    mantissa, least exponent -1074, overflow to infinity from 2^1024. *)
Definition round_even (a sh : Z) : Z :=
  let q := Z.shiftr a sh in
  let r := Z.land a (Z.ones sh) in
  let half := Z.shiftl 1 (sh - 1) in
  if r <? half then q
  else if half <? r then q + 1
  else if Z.even q then q else q + 1.

Definition fround (m e : Z) : number :=
  if m =? 0 then Finite 0 0
  else
    let a := Z.abs m in
    let bits := Z.log2 a + 1 in
    let t := Z.max (e + bits - 53) (-1074) in
    let q := if t <=? e then a else round_even a (t - e) in
    let t' := Z.max t e in
    if 1024 <? Z.log2 q + 1 + t' then (if m <? 0 then NegInf else PosInf)
    else Finite (Z.sgn m * q) t'.

(** [a * b] *)
Definition mul (a b : number) : number :=
  match a, b with
  | NaN, _ | _, NaN => NaN
  | Finite m1 e1, Finite m2 e2 => fround (m1 * m2) (e1 + e2)
  | Finite m _, PosInf | PosInf, Finite m _ =>
      if m =? 0 then NaN else if m <? 0 then NegInf else PosInf
  | Finite m _, NegInf | NegInf, Finite m _ =>
      if m =? 0 then NaN else if m <? 0 then PosInf else NegInf
  | PosInf, PosInf | NegInf, NegInf => PosInf
  | PosInf, NegInf | NegInf, PosInf => NegInf
  end.

(** [Math.round(x)]: the nearest integer, a tie going up. *)
Definition Math_round (x : number) : number :=
  match x with
  | Finite m e =>
      if 0 <=? e then Finite m e
      else Finite (Z.shiftr (m + Z.shiftl 1 (- e - 1)) (- e)) 0
  | _ => x
  end.

(** The integer part, as [ToInt32] and [ToUint32] take it before they
    wrap; infinities and NaN count as 0. *)
Definition truncate (x : number) : Z :=
  match x with
  | Finite m e => if 0 <=? e then m * 2 ^ e else Z.quot m (2 ^ (- e))
  | _ => 0
  end.

(** [x & mask], for a mask below 2^31. *)
Definition bitand (x : number) (mask : Z) : Z := Z.land (truncate x) mask.

End Number.

(** ** scrcpy control messages ([control.ts]) *)

Module Control.
Import Bytes Number.

Inductive ControlMessageType : Type := KEYCODE | TEXT | TOUCH | SCROLL.

Definition ControlMessageType_code (t : ControlMessageType) : Z :=
  match t with
  | KEYCODE => 0
  | TEXT => 1
  | TOUCH => 2
  | SCROLL => 3
  end.

Inductive MotionAction : Type := DOWN | UP | MOVE.

Definition MotionAction_code (a : MotionAction) : Z :=
  match a with
  | DOWN => 0
  | UP => 1
  | MOVE => 2
  end.

(** [clamp(n, min, max)] *)
Definition clamp (n min max : number) : number :=
  if lt n min then min else if gt n max then max else n.

(** [Math.round(p * 0xffff) & 0xffff] with [p = clamp(pressure01 ?? 1, 0, 1)] *)
Definition pressureU16 (pressure01 : option number) : Z :=
  let p := clamp (default (of_Z 1) pressure01) (of_Z 0) (of_Z 1) in
  bitand (Math_round (mul p (of_Z 0xffff))) 0xffff.

(** [encodeTouchMessage]; [o] is the running offset of the source. *)
Definition encodeTouchMessage
    (action : Z) (pointerId x y screenW screenH : Z)
    (pressure01 : option number) (buttons : Z) : result Uint8Array :=
  let buf := alloc 29 in
  let o := 0%nat in
  let pressureU16 := pressureU16 pressure01 in
  buf ← setUint8 buf o (ControlMessageType_code TOUCH);
  let o := S o in
  buf ← setUint8 buf o (Z.land action 0xff);
  let o := S o in
  buf ← setUint32 buf o 0 false;
  let o := (o + 4)%nat in
  buf ← setUint32 buf o (to_uint32 pointerId) false;
  let o := (o + 4)%nat in
  buf ← setUint32 buf o (to_uint32 x) false;
  let o := (o + 4)%nat in
  buf ← setUint32 buf o (to_uint32 y) false;
  let o := (o + 4)%nat in
  buf ← setUint16 buf o (Z.land screenW 0xffff) false;
  let o := (o + 2)%nat in
  buf ← setUint16 buf o (Z.land screenH 0xffff) false;
  let o := (o + 2)%nat in
  buf ← setUint16 buf o pressureU16 false;
  let o := (o + 2)%nat in
  buf ← setUint32 buf o (to_uint32 buttons) false;
  Ok buf.

End Control.

(** ** JavaScript strings and JSON values *)

Module Js.

(** White space as [String.prototype.trim] takes it, among the code
    units below 256. *)
Definition is_white_space (c : ascii) : bool :=
  let n := N_of_ascii c in
  ((9 <=? n)%N && (n <=? 13)%N) || (n =? 32)%N || (n =? 160)%N.

Fixpoint trim_start (s : string) : string :=
  match s with
  | EmptyString => EmptyString
  | String c s' => if is_white_space c then trim_start s' else s
  end.

Fixpoint trim_end (s : string) : string :=
  match s with
  | EmptyString => EmptyString
  | String c s' =>
      match trim_end s' with
      | EmptyString => if is_white_space c then EmptyString else String c EmptyString
      | t => String c t
      end
  end.

(** [s.trim()] *)
Definition trim (s : string) : string := trim_end (trim_start s).

(** Truthiness of a string. *)
Definition truthy_string (s : string) : bool :=
  match s with
  | EmptyString => false
  | _ => true
  end.

(** The value [JSON.parse] gives for the text [JSON.stringify] wrote;
    a property with the value [undefined] is absent from its object. *)
#[local] Unset Elimination Schemes.
Inductive json : Type :=
| JNull
| JBool (b : bool)
| JNum (z : Z)
| JStr (s : string)
| JArr (items : list json)
| JObj (props : list (string * json)).
#[local] Set Elimination Schemes.

(** [obj.key]; [None] is [undefined]. *)
Fixpoint prop_lookup (props : list (string * json)) (key : string) : option json :=
  match props with
  | [] => None
  | (k, v) :: rest => if String.eqb k key then Some v else prop_lookup rest key
  end.

Definition get (v : json) (key : string) : option json :=
  match v with
  | JObj props => prop_lookup props key
  | _ => None
  end.

End Js.

(** ** The base64 codec of [Buffer] *)

Module Base64.

Definition alphabet : string :=
  "ABCDEFGHIJKLMNOPQRSTUVWXYZabcdefghijklmnopqrstuvwxyz0123456789+/".

Definition char_of (n : Z) : ascii :=
  default "="%char (String.get (Z.to_nat n) alphabet).

(** [buf.toString('base64')] *)
Fixpoint encode (bs : list Z) : string :=
  match bs with
  | [] => EmptyString
  | [b1] =>
      String (char_of (b1 / 4)) (String (char_of (b1 mod 4 * 16)) "==")
  | [b1; b2] =>
      String (char_of (b1 / 4))
        (String (char_of (b1 mod 4 * 16 + b2 / 16))
           (String (char_of (b2 mod 16 * 4)) "="))
  | b1 :: b2 :: b3 :: rest =>
      String (char_of (b1 / 4))
        (String (char_of (b1 mod 4 * 16 + b2 / 16))
           (String (char_of (b2 mod 16 * 4 + b3 / 64))
              (String (char_of (b3 mod 64)) (encode rest))))
  end.

(** The value of a character; the URL-safe [-] and [_] are accepted. *)
Definition value_of (c : ascii) : option Z :=
  let n := Z.of_N (N_of_ascii c) in
  if (65 <=? n) && (n <=? 90) then Some (n - 65)
  else if (97 <=? n) && (n <=? 122) then Some (n - 71)
  else if (48 <=? n) && (n <=? 57) then Some (n + 4)
  else if (n =? 43) || (n =? 45) then Some 62
  else if (n =? 47) || (n =? 95) then Some 63
  else None.

(** The 6-bit values of the text: characters outside the alphabet are
    skipped, the first [=] ends the data. *)
Fixpoint sextets (s : string) : list Z :=
  match s with
  | EmptyString => []
  | String c s' =>
      if Ascii.eqb c "=" then []
      else match value_of c with
           | Some v => v :: sextets s'
           | None => sextets s'
           end
  end.

Fixpoint bytes_of (vs : list Z) : list Z :=
  match vs with
  | v1 :: v2 :: v3 :: v4 :: rest =>
      (v1 * 4 + v2 / 16) :: (v2 mod 16 * 16 + v3 / 4) :: (v3 mod 4 * 64 + v4)
        :: bytes_of rest
  | [v1; v2; v3] => [v1 * 4 + v2 / 16; v2 mod 16 * 16 + v3 / 4]
  | [v1; v2] => [v1 * 4 + v2 / 16]
  | _ => []
  end.

(** [Buffer.from(s, 'base64')] *)
Definition decode (s : string) : list Z := bytes_of (sextets s).

End Base64.

(** ** The action recorder ([ActionRecorder.ts]) *)

Module ActionRecorder.
Import Bytes Js.

Record RecordingMeta : Type := mkMeta {
  device : option string;
  source : option string;
  name : option string;
}.

Record RecordedMessage : Type := mkMessage {
  at_ms : Z;        (* [at] *)
  data : string;
  binary : bool;
}.

Record RecordingFile : Type := mkFile {
  file_id : option json;
  file_remote : option json;
  file_createdAt : option json;
  file_meta : option json;
  file_messages : list RecordedMessage;
}.

(** A frame as the [ws] library delivers it. *)
Inductive WsData : Type :=
| WsString (s : string)
| WsBuffer (b : Uint8Array)
| WsBuffers (bs : list Uint8Array)
| WsArrayBuffer (b : Uint8Array).

Record t : Type := mk {
  id : string;
  remote : string;
  meta : option RecordingMeta;
  startedAt : Z;
  pausedAt : option Z;
  pausedDuration : Z;
  messages : list RecordedMessage;
}.

(** [new ActionRecorder(id, remote, meta)] at the time [now]. *)
Definition create (now : Z) (id remote : string) (meta : option RecordingMeta) : t :=
  mk id remote meta now None 0 [].

(** [if (this.pausedAt)]: the field is set, and is not 0. *)
Definition truthy (pausedAt : option Z) : bool :=
  match pausedAt with
  | Some z => negb (z =? 0)
  | None => false
  end.

(** [/[^a-zA-Z0-9-_]/] *)
Definition is_id_safe (c : ascii) : bool :=
  let n := N_of_ascii c in
  ((97 <=? n) && (n <=? 122))%N || ((65 <=? n) && (n <=? 90))%N
  || ((48 <=? n) && (n <=? 57))%N || (n =? 45)%N || (n =? 95)%N.

Fixpoint replace_unsafe (s : string) : string :=
  match s with
  | EmptyString => EmptyString
  | String c s' => String (if is_id_safe c then c else "_"%char) (replace_unsafe s')
  end.

(** [createId()] *)
Definition createId (now : Z) : string := "session-" +:+ pretty now.

(** [normalizeId(raw)]; [None] stands for a [raw] that is no string, and
    for the result [undefined]. *)
Definition normalizeId (now : Z) (raw : option string) : option string :=
  match raw with
  | None => None
  | Some raw =>
      let trimmed := trim raw in
      if negb (truthy_string trimmed) then None
      else if String.eqb trimmed "true" || String.eqb trimmed "1"
           then Some (createId now)
           else Some (replace_unsafe trimmed)
  end.

(** [encode(data)] *)
Definition encode (d : WsData) : string * bool :=
  match d with
  | WsString s => (s, false)
  | WsBuffer b => (Base64.encode b, true)
  | WsBuffers bs => (Base64.encode (List.concat bs), true)
  | WsArrayBuffer b => (Base64.encode b, true)
  end.

(** [getElapsed()]; its readings of [Date.now()] are one instant. *)
Definition getElapsed (now : Z) (r : t) : Z :=
  let pausedDelta :=
    match pausedAt r with
    | Some p => if truthy (pausedAt r) then now - p else 0
    | None => 0
    end in
  now - startedAt r - pausedDuration r - pausedDelta.

(** [capture(data)] *)
Definition capture (now : Z) (d : WsData) (r : t) : t :=
  let at_ := getElapsed now r in
  let '(payload, isBinary) := encode d in
  mk (id r) (remote r) (meta r) (startedAt r) (pausedAt r) (pausedDuration r)
     (messages r ++ [mkMessage at_ payload isBinary]).

(** [pause()] *)
Definition pause (now : Z) (r : t) : t :=
  if truthy (pausedAt r) then r
  else mk (id r) (remote r) (meta r) (startedAt r) (Some now) (pausedDuration r)
          (messages r).

(** [resume()] *)
Definition resume (now : Z) (r : t) : t :=
  match pausedAt r with
  | Some p =>
      if truthy (pausedAt r)
      then mk (id r) (remote r) (meta r) (startedAt r) None
              (pausedDuration r + (now - p)) (messages r)
      else r
  | None => r
  end.

(** [decodeMessage(message)]: the bytes of a binary entry, the text of
    another. *)
Definition decodeMessage (m : RecordedMessage) : WsData :=
  if binary m then WsBuffer (Base64.decode (data m)) else WsString (data m).

(** The comparator [(a, b) => a.at - b.at] orders by [at]; [sort] is
    stable, so every entry goes behind the entries that are not after
    it. *)
Fixpoint insert_by_at (m : RecordedMessage) (l : list RecordedMessage)
  : list RecordedMessage :=
  match l with
  | [] => [m]
  | x :: l' => if at_ms m <? at_ms x then m :: l else x :: insert_by_at m l'
  end.

Definition sort_by_at (l : list RecordedMessage) : list RecordedMessage :=
  fold_left (fun acc m => insert_by_at m acc) l [].

Section Runtime.
(** What the runtime provides: the ISO form of a date, and the
    conversions of [Number] and [String] on values other than
    numbers, strings, booleans and [null]. *)
Variable toISOString : Z -> string.
Variable Number_of_other : json -> Z.
Variable String_of_other : json -> string.

Definition ROOT_DIR : string := "recordings".

Definition file_path (id : string) : string := ROOT_DIR +:+ "/" +:+ id +:+ ".json".

Definition opt_prop (key : string) (v : option string) : list (string * json) :=
  match v with
  | Some s => [(key, JStr s)]
  | None => []
  end.

Definition meta_json (m : RecordingMeta) : json :=
  JObj (opt_prop "device" (device m) ++ opt_prop "source" (source m)
        ++ opt_prop "name" (name m)).

Definition message_json (m : RecordedMessage) : json :=
  JObj [("at", JNum (at_ms m)); ("data", JStr (data m)); ("binary", JBool (binary m))].

(** The [recording] object of [persist()], as written to the file. *)
Definition recording_json (r : t) : json :=
  JObj ([("id", JStr (id r)); ("remote", JStr (remote r));
         ("createdAt", JStr (toISOString (startedAt r)))]
        ++ opt_prop "name" (mbind name (meta r))
        ++ match meta r with
           | Some m => [("meta", meta_json m)]
           | None => []
           end
        ++ [("messages", JArr (map message_json (messages r)))]).

(** [persist()]: the files by path, and the path written. *)
Definition persist (r : t) (files : gmap string json) : gmap string json * string :=
  let filePath := file_path (id r) in
  (<[filePath := recording_json r]> files, filePath).

(** [Number(item.at) || 0] *)
Definition at_of (v : option json) : Z :=
  match v with
  | Some (JNum z) => z
  | Some (JBool b) => if b then 1 else 0
  | Some JNull | None => 0
  | Some other => Number_of_other other
  end.

(** [String(item.data ?? '')] *)
Definition data_of (v : option json) : string :=
  match v with
  | Some (JStr s) => s
  | Some JNull | None => ""
  | Some (JBool b) => if b then "true" else "false"
  | Some (JNum z) => pretty z
  | Some other => String_of_other other
  end.

(** [Boolean(item.binary)] *)
Definition binary_of (v : option json) : bool :=
  match v with
  | Some (JBool b) => b
  | Some (JNum z) => negb (z =? 0)
  | Some (JStr s) => truthy_string s
  | Some JNull | None => false
  | Some _ => true
  end.

(** The callback of [parsed.messages.map]; reading a property of
    [null] throws. *)
Definition message_of (item : json) : result RecordedMessage :=
  match item with
  | JNull => Throw "TypeError: Cannot read properties of null"
  | _ => Ok (mkMessage (at_of (get item "at")) (data_of (get item "data"))
                       (binary_of (get item "binary")))
  end.

Fixpoint messages_of (items : list json) : result (list RecordedMessage) :=
  match items with
  | [] => Ok []
  | item :: rest =>
      m ← message_of item; ms ← messages_of rest; Ok (m :: ms)
  end.

(** [parsed.id || safeId] *)
Definition id_or (v : option json) (safeId : string) : option json :=
  match v with
  | Some (JStr s) => if truthy_string s then v else Some (JStr safeId)
  | Some (JNum z) => if z =? 0 then Some (JStr safeId) else v
  | Some (JBool b) => if b then v else Some (JStr safeId)
  | Some JNull | None => Some (JStr safeId)
  | Some _ => v
  end.

(** [load(id)] *)
Definition load (now : Z) (id : string) (files : gmap string json)
  : result RecordingFile :=
  match normalizeId now (Some id) with
  | None => Throw "Recording id is required"
  | Some safeId =>
      match files !! file_path safeId with
      | None => Throw "ENOENT: no such file or directory"
      | Some parsed =>
          match parsed, get parsed "messages" with
          | JObj _, Some (JArr items) =>
              mapped ← messages_of items;
              let messages := sort_by_at mapped in
              Ok (mkFile (id_or (get parsed "id") safeId) (get parsed "remote")
                         (get parsed "createdAt") (get parsed "meta") messages)
          | _, _ => Throw "Invalid recording file"
          end
      end
  end.

End Runtime.

End ActionRecorder.

(** ** The sync service ([SyncService.ts]) *)

Module SyncService.
Import Js.






(** A [Map<string, Set<string>>] is the list of its entries in
    insertion order. *)
Abbreviation mapping := (list (string * list string)).


(** [map.get(k)] *)
Fixpoint Map_get (k : string) (m : mapping) : option (list string) :=
  match m with
  | [] => None
  | (k', v) :: m' => if String.eqb k' k then Some v else Map_get k m'
  end.




(** [clear()] *)
Definition clear (m : mapping) : mapping := [].



End SyncService.

(** ** The WebSocket proxy ([WebsocketProxy.ts]) *)

Module WebsocketProxy.
Import Js ActionRecorder.

Definition CONNECTING : Z := 0.
Definition OPEN : Z := 1.
Definition CLOSING : Z := 2.
Definition CLOSED : Z := 3.

(** A socket of the [ws] library: its state, the frames sent on it and
    the close calls made on it while it was open. *)
Record Socket : Type := mkSocket {
  readyState : Z;
  sent : list WsData;
  closes : list (option Z * option string);
}.

(** [socket.send(data)]: the frame goes out on an open socket. *)
Definition Socket_send (d : WsData) (s : Socket) : Socket :=
  if readyState s =? OPEN then mkSocket (readyState s) (sent s ++ [d]) (closes s)
  else s.

(** [socket.close(code, reason)]: an open socket starts closing. *)
Definition Socket_close (code : option Z) (reason : option string) (s : Socket) : Socket :=
  if readyState s =? OPEN
  then mkSocket CLOSING (sent s) (closes s ++ [(code, reason)])
  else s.

Inductive RecordingState : Type :=
| StateStop
| StateRecord
| StateRun
| StatePause.

(** A pending timer of the playback: the delay and the entry to send. *)
Record Timer : Type := mkTimer {
  delay : Z;
  message : RecordedMessage;
}.

Record WebsocketProxy : Type := mkProxy {
  ws : Socket;
  remoteSocket : option Socket;
  released : bool;
  storage : list WsData;
  logMeta : option RecordingMeta;
  recordId : option string;
  replayId : option string;
  sessionId : option string;
  activeRecordId : option string;
  playbackFinishTimer : option Z;
  playbackStart : option Z;
  playbackElapsed : Z;
  recordingPaused : bool;
  playbackPaused : bool;
  remoteUrl : option string;
  recorder : option ActionRecorder.t;
  playback : option RecordingFile;
  playbackTimers : list Timer;
  currentState : RecordingState;
}.

(** [RecordingStatus], the entry [RecordingStatusService] keeps for a
    device. *)
Record Status : Type := mkStatus {
  status_device : string;
  status : RecordingState;
  status_recordId : option json;
  status_filePath : option string;
  status_remote : option string;
  updatedAt : Z;
}.

(** [RecordingStatusService.setStatus(status)] at the time [now] *)
Definition setStatus (now : Z) (device : string) (state : RecordingState)
    (recordId : option json) (filePath remote : option string)
    (st : gmap string Status) : gmap string Status :=
  <[device := mkStatus device state recordId filePath remote now]> st.

(** [RecordingStatusService.clearDevice(device)] *)
Definition clearDevice (device : string) (st : gmap string Status) : gmap string Status :=
  match st !! device with
  | Some _ => delete device st
  | None => st
  end.

(** What the proxies share: the session registry, the recording
    statuses, the sync mapping and the recordings directory.  A proxy
    object is known by its place in [heap]. *)
Record World : Type := mkWorld {
  heap : gmap nat WebsocketProxy;
  sessions : gmap string nat;
  statuses : gmap string Status;
  sync : SyncService.mapping;
  files : gmap string json;
}.

Definition set_heap (h : gmap nat WebsocketProxy) (w : World) : World :=
  mkWorld h (sessions w) (statuses w) (sync w) (files w).
Definition set_sessions (s : gmap string nat) (w : World) : World :=
  mkWorld (heap w) s (statuses w) (sync w) (files w).
Definition set_statuses (s : gmap string Status) (w : World) : World :=
  mkWorld (heap w) (sessions w) s (sync w) (files w).
Definition set_sync (m : SyncService.mapping) (w : World) : World :=
  mkWorld (heap w) (sessions w) (statuses w) m (files w).
Definition set_files (f : gmap string json) (w : World) : World :=
  mkWorld (heap w) (sessions w) (statuses w) (sync w) f.

(** Field updates of a proxy. *)
Definition set_ws (x : Socket) (p : WebsocketProxy) : WebsocketProxy :=
  mkProxy x (remoteSocket p) (released p) (storage p) (logMeta p) (recordId p)
    (replayId p) (sessionId p) (activeRecordId p) (playbackFinishTimer p)
    (playbackStart p) (playbackElapsed p) (recordingPaused p) (playbackPaused p)
    (remoteUrl p) (recorder p) (playback p) (playbackTimers p) (currentState p).
Definition set_remoteSocket (x : option Socket) (p : WebsocketProxy) : WebsocketProxy :=
  mkProxy (ws p) x (released p) (storage p) (logMeta p) (recordId p)
    (replayId p) (sessionId p) (activeRecordId p) (playbackFinishTimer p)
    (playbackStart p) (playbackElapsed p) (recordingPaused p) (playbackPaused p)
    (remoteUrl p) (recorder p) (playback p) (playbackTimers p) (currentState p).
Definition set_released (x : bool) (p : WebsocketProxy) : WebsocketProxy :=
  mkProxy (ws p) (remoteSocket p) x (storage p) (logMeta p) (recordId p)
    (replayId p) (sessionId p) (activeRecordId p) (playbackFinishTimer p)
    (playbackStart p) (playbackElapsed p) (recordingPaused p) (playbackPaused p)
    (remoteUrl p) (recorder p) (playback p) (playbackTimers p) (currentState p).
Definition set_storage (x : list WsData) (p : WebsocketProxy) : WebsocketProxy :=
  mkProxy (ws p) (remoteSocket p) (released p) x (logMeta p) (recordId p)
    (replayId p) (sessionId p) (activeRecordId p) (playbackFinishTimer p)
    (playbackStart p) (playbackElapsed p) (recordingPaused p) (playbackPaused p)
    (remoteUrl p) (recorder p) (playback p) (playbackTimers p) (currentState p).
Definition set_activeRecordId (x : option string) (p : WebsocketProxy) : WebsocketProxy :=
  mkProxy (ws p) (remoteSocket p) (released p) (storage p) (logMeta p) (recordId p)
    (replayId p) (sessionId p) x (playbackFinishTimer p)
    (playbackStart p) (playbackElapsed p) (recordingPaused p) (playbackPaused p)
    (remoteUrl p) (recorder p) (playback p) (playbackTimers p) (currentState p).
Definition set_playbackFinishTimer (x : option Z) (p : WebsocketProxy) : WebsocketProxy :=
  mkProxy (ws p) (remoteSocket p) (released p) (storage p) (logMeta p) (recordId p)
    (replayId p) (sessionId p) (activeRecordId p) x
    (playbackStart p) (playbackElapsed p) (recordingPaused p) (playbackPaused p)
    (remoteUrl p) (recorder p) (playback p) (playbackTimers p) (currentState p).
Definition set_playbackStart (x : option Z) (p : WebsocketProxy) : WebsocketProxy :=
  mkProxy (ws p) (remoteSocket p) (released p) (storage p) (logMeta p) (recordId p)
    (replayId p) (sessionId p) (activeRecordId p) (playbackFinishTimer p)
    x (playbackElapsed p) (recordingPaused p) (playbackPaused p)
    (remoteUrl p) (recorder p) (playback p) (playbackTimers p) (currentState p).
Definition set_playbackElapsed (x : Z) (p : WebsocketProxy) : WebsocketProxy :=
  mkProxy (ws p) (remoteSocket p) (released p) (storage p) (logMeta p) (recordId p)
    (replayId p) (sessionId p) (activeRecordId p) (playbackFinishTimer p)
    (playbackStart p) x (recordingPaused p) (playbackPaused p)
    (remoteUrl p) (recorder p) (playback p) (playbackTimers p) (currentState p).
Definition set_recordingPaused (x : bool) (p : WebsocketProxy) : WebsocketProxy :=
  mkProxy (ws p) (remoteSocket p) (released p) (storage p) (logMeta p) (recordId p)
    (replayId p) (sessionId p) (activeRecordId p) (playbackFinishTimer p)
    (playbackStart p) (playbackElapsed p) x (playbackPaused p)
    (remoteUrl p) (recorder p) (playback p) (playbackTimers p) (currentState p).
Definition set_playbackPaused (x : bool) (p : WebsocketProxy) : WebsocketProxy :=
  mkProxy (ws p) (remoteSocket p) (released p) (storage p) (logMeta p) (recordId p)
    (replayId p) (sessionId p) (activeRecordId p) (playbackFinishTimer p)
    (playbackStart p) (playbackElapsed p) (recordingPaused p) x
    (remoteUrl p) (recorder p) (playback p) (playbackTimers p) (currentState p).
Definition set_recorder (x : option ActionRecorder.t) (p : WebsocketProxy) : WebsocketProxy :=
  mkProxy (ws p) (remoteSocket p) (released p) (storage p) (logMeta p) (recordId p)
    (replayId p) (sessionId p) (activeRecordId p) (playbackFinishTimer p)
    (playbackStart p) (playbackElapsed p) (recordingPaused p) (playbackPaused p)
    (remoteUrl p) x (playback p) (playbackTimers p) (currentState p).
Definition set_playback (x : option RecordingFile) (p : WebsocketProxy) : WebsocketProxy :=
  mkProxy (ws p) (remoteSocket p) (released p) (storage p) (logMeta p) (recordId p)
    (replayId p) (sessionId p) (activeRecordId p) (playbackFinishTimer p)
    (playbackStart p) (playbackElapsed p) (recordingPaused p) (playbackPaused p)
    (remoteUrl p) (recorder p) x (playbackTimers p) (currentState p).
Definition set_playbackTimers (x : list Timer) (p : WebsocketProxy) : WebsocketProxy :=
  mkProxy (ws p) (remoteSocket p) (released p) (storage p) (logMeta p) (recordId p)
    (replayId p) (sessionId p) (activeRecordId p) (playbackFinishTimer p)
    (playbackStart p) (playbackElapsed p) (recordingPaused p) (playbackPaused p)
    (remoteUrl p) (recorder p) (playback p) x (currentState p).
Definition set_currentState (x : RecordingState) (p : WebsocketProxy) : WebsocketProxy :=
  mkProxy (ws p) (remoteSocket p) (released p) (storage p) (logMeta p) (recordId p)
    (replayId p) (sessionId p) (activeRecordId p) (playbackFinishTimer p)
    (playbackStart p) (playbackElapsed p) (recordingPaused p) (playbackPaused p)
    (remoteUrl p) (recorder p) (playback p) (playbackTimers p) x.

(** The constructor's [this.sessionId = session || this.logMeta?.device
    || undefined], with [logMeta] the value of [this.logMeta]. *)
Definition new_sessionId (session : option string) (logMeta : option RecordingMeta)
  : option string :=
  match session with
  | Some s => if truthy_string s then Some s else None
  | None => None
  end
  ∪ match logMeta ≫= device with
    | Some d => if truthy_string d then Some d else None
    | None => None
    end.

(** The test [if (this.sessionId)]: the id, when the field holds a
    string that is not empty. *)
Definition session_of (p : WebsocketProxy) : option string :=
  match sessionId p with
  | Some sid => if truthy_string sid then Some sid else None
  | None => None
  end.

Section Methods.
(** [super.release()] of the base class [Mw], which is not part of
    the sources: it acts on the downstream socket it was built on. *)
Variable Mw_release : Socket -> Socket.
Variable toISOString : Z -> string.
Variable Number_of_other : json -> Z.
Variable String_of_other : json -> string.

(** The handler [remoteSocket.onclose] *)
Definition remote_onclose (wasClean : bool) (p : WebsocketProxy) : WebsocketProxy :=
  if readyState (ws p) =? OPEN
  then set_ws (Socket_close (Some (if wasClean then 1000 else 4010)) None (ws p)) p
  else p.

(** The handler [remoteSocket.onerror] *)
Definition remote_onerror (message : string) (p : WebsocketProxy) : WebsocketProxy :=
  if readyState (ws p) =? OPEN
  then set_ws (Socket_close (Some 4011) (Some message) (ws p)) p
  else p.

(** [updateStatus(state, recordId, filePath, offsetMs)] *)
Definition updateStatus (now : Z) (state : RecordingState) (recordId : option json)
    (filePath : option string) (offsetMs : Z)
    (ps : WebsocketProxy * gmap string Status) : WebsocketProxy * gmap string Status :=
  let '(p, st) := ps in
  let p := set_currentState state p in
  match session_of p with
  | None => (p, st)
  | Some sid =>
      let st := setStatus now sid state recordId filePath (remoteUrl p) st in
      match state, playback p with
      | StateRun, Some pb =>
          let last_at := match last (file_messages pb) with
                         | Some m => at_ms m
                         | None => 0
                         end in
          let finishMs := Z.max 0 (last_at - offsetMs + 200) in
          if 0 <? finishMs then (set_playbackFinishTimer (Some finishMs) p, st)
          else (p, st)
      | _, _ => (p, st)
      end
  end.

(** [stopPlayback(resetProgress)] *)
Definition stopPlayback (resetProgress : bool) (p : WebsocketProxy) : WebsocketProxy :=
  let p := set_playbackTimers [] p in
  let p := set_playbackFinishTimer None p in
  let p := set_playbackStart None p in
  if resetProgress then set_playbackElapsed 0 (set_playbackPaused false p) else p.

(** [persistRecording()] *)
Definition persistRecording (p : WebsocketProxy) (fs : gmap string json)
  : gmap string json :=
  match recorder p with
  | None => fs
  | Some r => fst (persist toISOString r fs)
  end.

(** [flush()] *)
Definition flush (p : WebsocketProxy) : WebsocketProxy :=
  let p :=
    match remoteSocket p with
    | Some rs =>
        let rs := fold_left (fun rs d => Socket_send d rs) (storage p) rs in
        let rs := if released p then Socket_close None None rs else rs in
        set_remoteSocket (Some rs) p
    | None => p
    end in
  set_storage [] p.

(** [release()] of the proxy that is object [self]. *)
Definition release (self : nat) (w : World) : World :=
  match heap w !! self with
  | None => w
  | Some p =>
      if released p then w
      else
        let p := set_ws (Mw_release (ws p)) p in
        let p := set_released true p in
        let p := stopPlayback true p in
        let fs := persistRecording p (files w) in
        let p := flush p in
        let w := set_files fs (set_heap (<[self := p]> (heap w)) w) in
        match session_of p with
        | Some sid =>
            let w := set_sessions (delete sid (sessions w)) w in
            let w := set_statuses (clearDevice sid (statuses w)) w in
            set_sync (SyncService.clear (sync w)) w
        | None => w
        end
  end.

(** [startRecording(recordId)] *)
Definition startRecording (now : Z) (recordId : option string)
    (p : WebsocketProxy) (st : gmap string Status) (fs : gmap string json)
  : result (WebsocketProxy * gmap string Status * gmap string json * string) :=
  match remoteUrl p with
  | None => Throw "Cannot start recording before proxy initialization"
  | Some url =>
      match currentState p with
      | StateStop =>
          let fs := persistRecording p fs in
          let resolvedId := default (createId now) (normalizeId now recordId) in
          let p := set_recorder (Some (create now resolvedId url (logMeta p))) p in
          let p := set_activeRecordId (Some resolvedId) p in
          let '(p, st) := updateStatus now StateRecord (Some (JStr resolvedId)) None 0 (p, st) in
          let p := set_recordingPaused false p in
          Ok (p, st, fs, resolvedId)
      | _ => Throw "Device is busy; stop current action before starting a new recording"
      end
  end.

(** [pausePlayback()] *)
Definition pausePlayback (now : Z) (ps : WebsocketProxy * gmap string Status)
  : WebsocketProxy * gmap string Status :=
  let '(p, st) := ps in
  match playback p with
  | None => ps
  | Some pb =>
      if playbackPaused p then ps
      else
        let p := match playbackStart p with
                 | Some t0 => if t0 =? 0 then p
                              else set_playbackElapsed (playbackElapsed p + (now - t0)) p
                 | None => p
                 end in
        let p := stopPlayback false p in
        let p := set_playbackPaused true p in
        updateStatus now StatePause (file_id pb) None 0 (p, st)
  end.

(** [schedulePlayback(playback, offsetMs)] *)
Definition schedulePlayback (now : Z) (pb : RecordingFile) (offsetMs : Z)
    (ps : WebsocketProxy * gmap string Status) : WebsocketProxy * gmap string Status :=
  let '(p, st) := ps in
  let p := stopPlayback true p in
  let p := set_playback (Some pb) p in
  let p := set_playbackStart (Some now) p in
  let '(p, st) := updateStatus now StateRun (file_id pb) None offsetMs (p, st) in
  let timers :=
    omap (fun m => if at_ms m <? offsetMs then None
                   else Some (mkTimer (Z.max 0 (at_ms m - offsetMs)) m))
         (file_messages pb) in
  (set_playbackTimers (playbackTimers p ++ timers) p, st).

Definition remote_open (p : WebsocketProxy) : bool :=
  match remoteSocket p with
  | Some rs => readyState rs =? OPEN
  | None => false
  end.

(** [resumePlayback()] *)
Definition resumePlayback (now : Z) (ps : WebsocketProxy * gmap string Status)
  : WebsocketProxy * gmap string Status :=
  let '(p, st) := ps in
  match playback p with
  | Some pb =>
      if playbackPaused p && remote_open p
      then schedulePlayback now pb (playbackElapsed p) (set_playbackPaused false p, st)
      else ps
  | None => ps
  end.

Inductive Mode : Type := ModeRecord | ModeRun.

(** [pause()] *)
Definition pause (now : Z) (p : WebsocketProxy) (st : gmap string Status)
  : result (WebsocketProxy * gmap string Status * Mode) :=
  match currentState p with
  | StatePause => Throw "Already paused"
  | StateStop => Throw "Nothing to pause"
  | _ =>
      match recorder p, recordingPaused p with
      | Some r, false =>
          let p := set_recordingPaused true p in
          let p := set_recorder (Some (ActionRecorder.pause now r)) p in
          let '(p, st) :=
            updateStatus now StatePause (JStr <$> activeRecordId p) None 0 (p, st) in
          Ok (p, st, ModeRecord)
      | _, _ =>
          match playback p, playbackPaused p with
          | Some _, false =>
              let '(p, st) := pausePlayback now (p, st) in Ok (p, st, ModeRun)
          | _, _ => Throw "Nothing to pause"
          end
      end
  end.

(** [resume()] *)
Definition resume (now : Z) (p : WebsocketProxy) (st : gmap string Status)
  : result (WebsocketProxy * gmap string Status * Mode) :=
  match currentState p with
  | StatePause =>
      match recorder p, recordingPaused p with
      | Some r, true =>
          let p := set_recordingPaused false p in
          let p := set_recorder (Some (ActionRecorder.resume now r)) p in
          let '(p, st) :=
            updateStatus now StateRecord (JStr <$> activeRecordId p) None 0 (p, st) in
          Ok (p, st, ModeRecord)
      | _, _ =>
          match playback p, playbackPaused p with
          | Some _, true =>
              let '(p, st) := resumePlayback now (p, st) in Ok (p, st, ModeRun)
          | _, _ => Throw "Nothing to resume"
          end
      end
  | _ => Throw "Cannot resume when not paused"
  end.

(** [forwardFromSync(data)] *)
Definition forwardFromSync (d : WsData) (p : WebsocketProxy) : WebsocketProxy :=
  match remoteSocket p with
  | Some rs => set_remoteSocket (Some (Socket_send d rs)) p
  | None => set_storage (storage p ++ [d]) p
  end.

(** [SyncService.mirror(source, data)] *)
Definition mirror (source : string) (d : WsData) (w : World) : World :=
  match SyncService.Map_get source (sync w) with
  | None => w
  | Some followers =>
      fold_left
        (fun w dev =>
           match sessions w !! dev with
           | Some obj => set_heap (alter (forwardFromSync d) obj (heap w)) w
           | None => w
           end)
        followers w
  end.

(** The part of [onSocketMessage] that acts on the proxy itself: the
    capture, unless the recording is paused, and the forwarding. *)
Definition receive (now : Z) (d : WsData) (p : WebsocketProxy) : WebsocketProxy :=
  let p := if recordingPaused p then p
           else set_recorder (ActionRecorder.capture now d <$> recorder p) p in
  match remoteSocket p with
  | Some rs => set_remoteSocket (Some (Socket_send d rs)) p
  | None => set_storage (storage p ++ [d]) p
  end.

(** [onSocketMessage(event)] on the proxy that is object [self]; the
    line that [DeviceSocketLogService.log] prints is left out. *)
Definition onSocketMessage (self : nat) (now : Z) (d : WsData) (w : World) : World :=
  match heap w !! self with
  | None => w
  | Some p =>
      let p := receive now d p in
      let w := set_heap (<[self := p]> (heap w)) w in
      match session_of p with
      | Some sid => mirror sid d w
      | None => w
      end
  end.

End Methods.

End WebsocketProxy.

(** ** The switch to Wi-Fi ([POST /api/devices/connect], [HttpServer.ts]) *)

Module WifiSwitch.
Import Js.

(** [s.includes(sub)] *)
Fixpoint includes (s sub : string) : bool :=
  String.prefix sub s
  || match s with
     | EmptyString => false
     | String _ s' => includes s' sub
     end.

(** [s.split(':')] *)
Fixpoint split_colon (s : string) : list string :=
  match s with
  | EmptyString => [EmptyString]
  | String c s' =>
      if Ascii.eqb c ":" then EmptyString :: split_colon s'
      else match split_colon s' with
           | x :: xs => String c x :: xs
           | [] => [String c EmptyString]
           end
  end.

(** [s.toLowerCase()], on code units below 256. *)
Definition lower_unit (c : ascii) : ascii :=
  let n := N_of_ascii c in
  if ((65 <=? n) && (n <=? 90))%N
     || ((192 <=? n) && (n <=? 222) && negb (n =? 215))%N
  then ascii_of_N (n + 32) else c.

Fixpoint toLowerCase (s : string) : string :=
  match s with
  | EmptyString => EmptyString
  | String c s' => String (lower_unit c) (toLowerCase s')
  end.

(** [parseInt(s, 10)]; [None] is [NaN]. *)
Definition digit_of (c : ascii) : option Z :=
  let n := Z.of_N (N_of_ascii c) in
  if (48 <=? n) && (n <=? 57) then Some (n - 48) else None.

Fixpoint parse_digits (s : string) (acc : option Z) : option Z :=
  match s with
  | EmptyString => acc
  | String c s' =>
      match digit_of c with
      | Some d => parse_digits s' (Some (10 * default 0 acc + d))
      | None => acc
      end
  end.

Definition parseInt (s : string) : option Z :=
  match trim_start s with
  | String "-" s' => Z.opp <$> parse_digits s' None
  | String "+" s' => parse_digits s' None
  | s' => parse_digits s' None
  end.

(** How an [adb] process ends: [execFile] resolves with its output, or
    rejects with an error that may carry the output. *)
Inductive ExecResult : Type :=
| Resolved (stdout stderr : string)
| Rejected (stdout stderr message : option string).

(** [a || b] on strings. *)
Definition or_else (a : option string) (b : string) : string :=
  match a with
  | Some s => if truthy_string s then s else b
  | None => b
  end.

(** [runAdbCommand(args, label)], given how the process ended. *)
Definition runAdbCommand (r : ExecResult) (label : string) : result string :=
  match r with
  | Resolved stdout stderr => Ok (trim (stdout +:+ String "010" stderr))
  | Rejected stdout stderr message =>
      let out := trim (or_else stdout "" +:+ String "010" (or_else stderr "")) in
      Throw (or_else (Some out) (or_else message (label +:+ " failed")))
  end.

(** What a run does, in order: the commands it starts and the delays
    it waits. *)
Inductive Event : Type :=
| Exec (args : list string)
| Delay (ms : Z).

Record Run : Type := mkRun {
  clock : Z;
  trace : list Event;
  calls : nat;
}.

Inductive ConnectType : Type := wifi | usb.

Record ItemResult : Type := mkResult {
  device : string;
  connect : ConnectType;
  success : bool;
  error : option string;
}.

Section Environment.
(** The [adb] binary: what the [n]-th command started does, and how
    long it runs, in milliseconds. *)
Variable adb : nat -> list string -> Z * ExecResult.
(** [DeviceListSocket.getSerial] and [DeviceListSocket.getDeviceIp] *)
Variable getSerial : string -> option string.
Variable getDeviceIp : string -> option string.
(** Whether the timeout wins when the run ends exactly at the
    deadline. *)
Variable timeout_wins_tie : bool.

Definition exec (args : list string) (label : string) (st : Run)
  : Run * result string :=
  let '(duration, r) := adb (calls st) args in
  (mkRun (clock st + duration) (trace st ++ [Exec args]) (S (calls st)),
   runAdbCommand r label).

(** [await delay(ms)] *)
Definition delay (ms : Z) (st : Run) : Run :=
  mkRun (clock st + ms) (trace st ++ [Delay ms]) (calls st).

Definition accepts (out : string) : bool :=
  includes (toLowerCase out) "connected to"
  || includes (toLowerCase out) "already connected".

(** The [for] loop of [connectOverWifi], with [n] attempts left; it
    gives [connected] and [lastError]. *)
Fixpoint attempts (n : nat) (target : string) (lastError : option string)
    (st : Run) : Run * bool * option string :=
  match n with
  | O => (st, false, lastError)
  | S n' =>
      let '(st, r) := exec ["connect"; target] "adb connect" st in
      match r with
      | Ok out =>
          if accepts out then (st, true, Some out)
          else attempts n' target (Some out) (delay 400 st)
      | Throw message => attempts n' target (Some message) (delay 400 st)
      end
  end.

(** [connectOverWifi()] *)
Definition connectOverWifi (uuid : string) (targetPort : Z) (target : string)
    (st : Run) : Run * result unit :=
  let '(st, r) := exec ["-s"; uuid; "tcpip"; pretty targetPort] "adb tcpip" st in
  match r with
  | Throw message => (st, Throw message)
  | Ok _ =>
      let st := delay 400 st in
      let '(st, connected, lastError) := attempts 3 target None st in
      if connected then (st, Ok tt)
      else (st, Throw (or_else lastError "Failed to connect over WiFi"))
  end.

Definition TIMEOUT_MS : Z := 10000.

(** [Promise.race] of the run, started at the clock 0, against the
    timer. *)
Definition race (run : Run * result unit) : result unit :=
  let '(st, r) := run in
  if clock st <? TIMEOUT_MS then r
  else if (TIMEOUT_MS <? clock st) || timeout_wins_tie
       then Throw "WiFi connection timed out after 10 seconds"
       else r.

Definition is_empty (s : string) : bool := negb (truthy_string s).

(** The Wi-Fi branch of [processItem], for a trimmed, non-empty
    [device] and the [port] of the request body when that is a
    positive number: the result for the device, the run, and the
    preference recorded on success. *)
Definition processItem_wifi (deviceStr : string) (portRaw : option Z)
    (prefs : gmap string ConnectType)
  : ItemResult * Run * gmap string ConnectType :=
  let st0 := mkRun 0 [] 0 in
  let failed (st : Run) (msg : string) :=
    (mkResult deviceStr wifi false (Some (or_else (Some msg) "Failed to switch connection")),
     st, prefs) in
  let portFromBody :=
    match portRaw with
    | Some p => if 0 <? p then Some p else None
    | None => None
    end in
  let has_colon := includes deviceStr ":" in
  let second := default "" (split_colon deviceStr !! 1%nat) in
  let portFromDevice :=
    if has_colon && truthy_string second
    then match parseInt second with
         | Some n => if n =? 0 then None else Some n
         | None => None
         end
    else None in
  let targetPort := default (default 5555 portFromDevice) portFromBody in
  let uuid := if has_colon then getSerial deviceStr else Some deviceStr in
  match uuid with
  | None => failed st0 "Unable to resolve device uuid"
  | Some uuid =>
      if is_empty uuid then failed st0 "Unable to resolve device uuid"
      else
        let hostPart :=
          if has_colon then default "" (head (split_colon deviceStr)) else "" in
        let target :=
          if truthy_string hostPart then Some (hostPart +:+ ":" +:+ pretty targetPort)
          else match getDeviceIp uuid with
               | Some ip => if truthy_string ip
                            then Some (ip +:+ ":" +:+ pretty targetPort)
                            else None
               | None => None
               end in
        match target with
        | None => failed st0 "Unable to resolve device ip"
        | Some target =>
            let run := connectOverWifi uuid targetPort target st0 in
            match race run with
            | Throw msg => failed (fst run) msg
            | Ok _ =>
                (mkResult deviceStr wifi true None, fst run,
                 <[uuid := wifi]> prefs)
            end
        end
  end.

End Environment.

End WifiSwitch.

(** ** Closing a multiplexer channel, and the frames it receives
       ([adbStub.ts]) *)

Module MuxClose.
Import Bytes MuxMessage MuxChannel Js.

(** [dv.getUint16(o, true)] *)
Definition getUint16le (buf : Uint8Array) (o : nat) : result Z :=
  match buf !! o, buf !! S o with
  | Some b0, Some b1 => Ok (Z.lor b0 (Z.shiftl b1 8))
  | _, _ => Throw "RangeError: offset is out of bounds"
  end.

(** [new Uint8Array(buffer, byteOffset, length)] *)
Definition Uint8Array_view (buffer : Uint8Array) (byteOffset : nat) (len : Z)
  : result Uint8Array :=
  if (len <? 0) || (Z.of_nat (length buffer) <? Z.of_nat byteOffset + len)
  then Throw "RangeError: invalid typed array length"
  else Ok (take (Z.to_nat len) (drop byteOffset buffer)).

(** [MuxMessage.buildClosePayload(code, reason)] *)
Definition buildClosePayload (code : Z) (reason : option string) : result Uint8Array :=
  let reasonBytes :=
    match reason with
    | Some r => if truthy_string r then utf8 r else alloc 0
    | None => alloc 0
    end in
  if (length reasonBytes =? 0)%nat then u16le code
  else
    c ← u16le code;
    n ← u32le (Z.of_nat (length reasonBytes));
    concat [c; n; reasonBytes].

Section Decoder.
(** [td.decode(bytes)] of the runtime's UTF-8 [TextDecoder]. *)
Variable td_decode : Uint8Array -> string.

(** [MuxMessage.parseClosePayload(payload)]: what was assigned to
    [code] and [reason] when the [try] block ended or threw. *)
Definition parseClosePayload (payload : Uint8Array) : Z * string :=
  let code := 1000 in
  let reason := "" in
  match (if (2 <=? length payload)%nat then getUint16le payload 0 else Ok code) with
  | Throw _ => (code, reason)
  | Ok code =>
      if (6 <? length payload)%nat then
        match (len ← getUint32le payload 2;
               Uint8Array_view payload 6
                 (Z.min len (Z.of_nat (length payload) - 6))) with
        | Throw _ => (code, reason)
        | Ok bytes => (code, td_decode bytes)
        end
      else (code, reason)
  end.

(** What [onMessage] dispatches: the [channel] event on the channel
    itself with the child made for the peer (its id and state) and the
    payload, a [message] event on a child, a [message] event on the
    emitter of a child (which that child's own [onMessage] handles), the
    [close] event on a child, which ends CLOSED, or an [error] event on
    the channel itself. *)
Inductive Dispatched : Type :=
| ChannelEvent (channelId childState : Z) (data : Uint8Array)
| MessageText (channelId : Z) (text : string)
| MessageBinary (channelId : Z) (payload : Uint8Array)
| EmitterMessage (channelId : Z) (payload : Uint8Array)
| ChildClosed (channelId code : Z) (reason : string) (wasClean : bool)
| ErrorEvent.

(** The [data] of a message event: an [ArrayBuffer], or something else. *)
Inductive incoming : Type :=
| ArrayBuffer (b : Uint8Array)
| NoArrayBuffer.

(** [this.channels.delete(id)] *)
Definition unregister (f : fields) (child : Z) : fields :=
  mkFields (id f) (readyState f) (channels f ∖ {[child]}) (storage f) (nextId f).

(** The listener [onMessage] of a channel with the fields [f]: the
    fields after the call and what was dispatched, or the error of
    [MuxMessage.parse]. *)
Definition onMessage (f : fields) (data : incoming)
  : result (fields * list Dispatched) :=
  match data with
  | NoArrayBuffer => Ok (f, [])
  | ArrayBuffer buf =>
      msg ← parse buf;
      let cid := channelId msg in
      let registered := bool_decide (cid ∈ channels f) in
      if type msg =? code CreateChannel then
        Ok (onCreateChannel f cid, [ChannelEvent cid (readyState f) (payload msg)])
      else if type msg =? code RawStringData then
        Ok (f, if registered then [MessageText cid (td_decode (payload msg))] else [])
      else if type msg =? code RawBinaryData then
        Ok (f, if registered then [MessageBinary cid (payload msg)] else [])
      else if type msg =? code Data then
        Ok (f, if registered then [EmitterMessage cid (payload msg)] else [])
      else if type msg =? code CloseChannel then
        if registered then
          let '(c, reason) := parseClosePayload (payload msg) in
          Ok (unregister f cid, [ChildClosed cid c reason (c =? 1000)])
        else Ok (f, [])
      else Ok (f, [ErrorEvent])
  end.

End Decoder.

(** The [close] event that [close()] dispatches on the channel. *)
Record CloseEvent : Type := mkCloseEvent {
  ce_code : Z;
  ce_reason : string;
  ce_wasClean : bool;
}.

Record Closed : Type := mkClosed {
  after : channel;
  dispatched : option CloseEvent;
  thrown : option string;
}.

Section Socket.
(** [WebSocket.close(code, reason)] of the browser. *)
Variable WebSocket_close : WebSocket -> Z -> option string -> result WebSocket.

(** [close(code, reason)], with no handler properties set: the channel
    (and the chain above it) after the call, the event dispatched on it
    and the error thrown.  The listener its parent added for the event
    takes the channel off the parent's [channels]. *)
Fixpoint close_ (c : channel) (code : Z) (reason : option string) : Closed :=
  let f := fields_of c in
  if (readyState f =? CLOSED) || (readyState f =? CLOSING) then mkClosed c None None
  else if negb (id f =? 0) then
    match c with
    | ChildChannel p f =>
        match (payload ← buildClosePayload code reason;
               frame ← createBuffer (MuxMessage.code CloseChannel) (id f) (Some payload);
               sendData p frame) with
        | Ok p' =>
            mkClosed
              (ChildChannel (with_fields p' (unregister (fields_of p') (id f)))
                            (set_readyState f CLOSED))
              (Some (mkCloseEvent code (default "" reason) (code =? 1000)))
              None
        | Throw m => mkClosed (ChildChannel p (set_readyState f CLOSED)) None (Some m)
        end
    | RootChannel ws f =>
        mkClosed (RootChannel ws (set_readyState f CLOSED)) None
                 (Some "TypeError: this.ws.sendData is not a function")
    end
  else
    match c with
    | RootChannel ws f =>
        match WebSocket_close ws code reason with
        | Ok ws' => mkClosed (RootChannel ws' f) None None
        | Throw m => mkClosed c None (Some m)
        end
    | ChildChannel p f =>
        let r := close_ p code reason in
        mkClosed (ChildChannel (after r) f) None (thrown r)
    end.

(** [close(code = 1000, reason?)] *)
Definition close (c : channel) (code : option Z) (reason : option string) : Closed :=
  close_ c (default 1000 code) reason.

End Socket.

End MuxClose.

(** ** Byte helpers of the client ([adbStub.ts]) *)

Module ByteHelpers.
Import Bytes MuxChannel.

(** [n | 0] *)
Definition to_int32 (n : Z) : Z := (n + 2 ^ 31) mod 2 ^ 32 - 2 ^ 31.

(** [dv.setInt16] and [dv.setInt32] write the two's complement of the
    value, which is what the unsigned writers make of a negative
    number. *)
Definition setInt16 (buf : Uint8Array) (o : nat) (v : Z) (littleEndian : bool)
  : result Uint8Array := setUint16 buf o v littleEndian.

Definition setInt32 (buf : Uint8Array) (o : nat) (v : Z) (littleEndian : bool)
  : result Uint8Array := setUint32 buf o v littleEndian.

(** [ascii4(s)] *)
Definition ascii4 (s : string) : result Uint8Array :=
  if negb (String.length s =? 4)%nat then Throw "ascii4 requires length=4"
  else Ok (utf8 s).

(** [int32le(n)] *)
Definition int32le (n : Z) : result Uint8Array := u32le (to_int32 n).

(** [int32be(n)] *)
Definition int32be (n : Z) : result Uint8Array :=
  setUint32 (alloc 4) 0 (to_uint32 n) false.

(** [int16be(n)] *)
Definition int16be (n : Z) : result Uint8Array :=
  setInt16 (alloc 2) 0 (to_int32 n) false.

(** [int8(n)] *)
Definition int8 (n : Z) : Uint8Array := [Z.land n 0xff].

(** [concatBytes(...parts)] *)
Definition concatBytes (parts : list Uint8Array) : result Uint8Array := concat parts.

End ByteHelpers.

(** ** The other scrcpy control messages ([control.ts]) *)

Module ControlMessages.
Import Bytes MuxChannel ByteHelpers Control.

Inductive KeyEventAction : Type := KeyDown | KeyUp.

Definition KeyEventAction_code (a : KeyEventAction) : Z :=
  match a with
  | KeyDown => 0
  | KeyUp => 1
  end.

(** [encodeScrollMessage]; [o] is the running offset of the source. *)
Definition encodeScrollMessage (x y screenW screenH hScroll vScroll : Z)
  : result Uint8Array :=
  let buf := alloc 21 in
  let o := 0%nat in
  buf ← setUint8 buf o (ControlMessageType_code SCROLL);
  let o := S o in
  buf ← setUint32 buf o (to_uint32 x) false;
  let o := (o + 4)%nat in
  buf ← setUint32 buf o (to_uint32 y) false;
  let o := (o + 4)%nat in
  buf ← setUint16 buf o (Z.land screenW 0xffff) false;
  let o := (o + 2)%nat in
  buf ← setUint16 buf o (Z.land screenH 0xffff) false;
  let o := (o + 2)%nat in
  buf ← setInt32 buf o (to_int32 hScroll) false;
  let o := (o + 4)%nat in
  buf ← setInt32 buf o (to_int32 vScroll) false;
  Ok buf.

(** [encodeKeycodeMessage(action, keycode, repeat = 0, meta = 0)] *)
Definition encodeKeycodeMessage (action keycode : Z) (repeat meta : option Z)
  : result Uint8Array :=
  let repeat := default 0 repeat in
  let meta := default 0 meta in
  let buf := alloc 14 in
  let o := 0%nat in
  buf ← setUint8 buf o (ControlMessageType_code KEYCODE);
  let o := S o in
  buf ← setUint8 buf o (Z.land action 0xff);
  let o := S o in
  buf ← setUint32 buf o (to_uint32 keycode) false;
  let o := (o + 4)%nat in
  buf ← setUint32 buf o (to_uint32 repeat) false;
  let o := (o + 4)%nat in
  buf ← setUint32 buf o (to_uint32 meta) false;
  Ok buf.

(** [encodeTextMessage(text)]; [None] is a [text] that is [null] or
    [undefined]. *)
Definition encodeTextMessage (text : option string) : result Uint8Array :=
  let bytes := utf8 (default "" text) in
  let u8 := alloc (1 + length bytes + 1) in
  let u8 := store u8 0 (ControlMessageType_code TEXT) in
  u8 ← set u8 bytes 1;
  Ok (store u8 (length u8 - 1) 0).

End ControlMessages.

(** ** Pointer ids and device coordinates of the touch controls
       ([attachTouchControls]) *)

Module TouchControls.
Import Number Control.

(** The two maps of [makePointerIdAllocator]. *)
Record Allocator : Type := mkAllocator {
  idToPointer : gmap Z Z;
  pointerToId : gmap Z Z;
}.

Definition new_allocator : Allocator := mkAllocator ∅ ∅.

(** [while (pointerToId.has(pid)) pid++], with the number of tests of
    its condition bounded by [fuel]. *)
Fixpoint first_free (fuel : nat) (pointerToId : gmap Z Z) (pid : Z) : option Z :=
  match fuel with
  | O => None
  | S fuel' =>
      match pointerToId !! pid with
      | Some _ => first_free fuel' pointerToId (pid + 1)
      | None => Some pid
      end
  end.

(** [alloc(browserPointerId)] *)
Definition alloc (browserPointerId : Z) (a : Allocator) : option (Allocator * Z) :=
  match idToPointer a !! browserPointerId with
  | Some pid => Some (a, pid)
  | None =>
      pid ← first_free (S (size (pointerToId a))) (pointerToId a) 0;
      Some (mkAllocator (<[browserPointerId := pid]> (idToPointer a))
                        (<[pid := browserPointerId]> (pointerToId a)),
            pid)
  end.

(** [free(browserPointerId)] *)
Definition free (browserPointerId : Z) (a : Allocator) : Allocator :=
  match idToPointer a !! browserPointerId with
  | None => a
  | Some pid =>
      mkAllocator (delete browserPointerId (idToPointer a))
                  (delete pid (pointerToId a))
  end.

Record DeviceXY : Type := mkDeviceXY {
  dev_x : number;
  dev_y : number;
  dev_w : Z;
  dev_h : Z;
}.

(** [mapNormToDeviceXY(targetCanvas, x01, y01)], for a canvas of the
    given [width] and [height]. *)
Definition mapNormToDeviceXY (width height : Z) (x01 y01 : number) : DeviceXY :=
  let w := if width =? 0 then 1 else width in
  let h := if height =? 0 then 1 else height in
  let x := clamp (Math_round (mul x01 (of_Z w))) (of_Z 0) (of_Z w) in
  let y := clamp (Math_round (mul y01 (of_Z h))) (of_Z 0) (of_Z h) in
  mkDeviceXY x y w h.

(** [delta > 0 ? -1 : delta < 0 ? 1 : 0], the scroll amount [onWheel]
    makes of a wheel delta. *)
Definition wheel_scroll (delta : number) : Z :=
  if gt delta (of_Z 0) then -1 else if lt delta (of_Z 0) then 1 else 0.

End TouchControls.

(** ** The recordings on disk ([RecordingRepository]) *)

Module RecordingRepository.
Import Js ActionRecorder.

(** [resolvePath(recordId)] at the time [now], over the files of the
    recordings directory. *)
Definition resolvePath (now : Z) (recordId : string) (files : gmap string json)
  : result string :=
  match normalizeId now (Some recordId) with
  | None => Throw "Invalid recordId"
  | Some safeId =>
      let filePath := file_path safeId in
      match files !! filePath with
      | None => Throw "Recording not found"
      | Some _ => Ok filePath
      end
  end.

(** [obj.key = v] on the properties of an object: an own property
    keeps its place, a new one goes last. *)
Fixpoint prop_set (props : list (string * json)) (key : string) (v : json)
  : list (string * json) :=
  match props with
  | [] => [(key, v)]
  | (k, old) :: rest =>
      if String.eqb k key then (k, v) :: rest else (k, old) :: prop_set rest key v
  end.

(** [parsed.name = name] and what [JSON.stringify(parsed)] then writes:
    the assignment throws on [null] and, the module being in strict
    mode, on a number, a string or a boolean; a property set on an array
    is not written. *)
Definition set_name (parsed : json) (name : string) : result json :=
  match parsed with
  | JObj props => Ok (JObj (prop_set props "name" (JStr name)))
  | JArr items => Ok (JArr items)
  | JNull => Throw "TypeError: Cannot set properties of null"
  | _ => Throw "TypeError: Cannot create property 'name'"
  end.

(** [updateName(recordId, name)] *)
Definition updateName (now : Z) (recordId name : string) (files : gmap string json)
  : result (gmap string json) :=
  filePath ← resolvePath now recordId files;
  match files !! filePath with
  | None => Throw "ENOENT: no such file or directory"
  | Some parsed =>
      parsed ← set_name parsed name;
      Ok (<[filePath := parsed]> files)
  end.

(** [delete(recordId)] *)
Definition delete (now : Z) (recordId : string) (files : gmap string json)
  : result (gmap string json) :=
  filePath ← resolvePath now recordId files;
  Ok (base.delete filePath files).

End RecordingRepository.

(** ** Stopping and replaying a recording ([WebsocketProxy.ts]) *)

Module ProxyControl.
Import Js ActionRecorder WebsocketProxy.

Section Methods.
Variable toISOString : Z -> string.
Variable Number_of_other : json -> Z.
Variable String_of_other : json -> string.

(** [startPlayback(playback)] *)
Definition startPlayback (now : Z) (playback_arg : option RecordingFile)
    (ps : WebsocketProxy * gmap string Status) : WebsocketProxy * gmap string Status :=
  let '(p, st) := ps in
  let targetPlayback :=
    match playback_arg with
    | Some pb => Some pb
    | None => playback p
    end in
  match targetPlayback with
  | Some pb =>
      if remote_open p then
        let p := set_playbackElapsed 0 p in
        let p := set_playbackPaused false p in
        let p := set_playback (Some pb) p in
        schedulePlayback now pb 0 (p, st)
      else ps
  | None => ps
  end.

(** The handler [remoteSocket.onopen] of the upstream socket [rs]. *)
Definition remote_onopen (now : Z) (rs : Socket)
    (ps : WebsocketProxy * gmap string Status) : WebsocketProxy * gmap string Status :=
  let '(p, st) := ps in
  let p := set_remoteSocket (Some rs) p in
  let p := flush p in
  startPlayback now None (p, st).

(** The handler [remoteSocket.onmessage]: the frame, or each buffer of
    an array of buffers, goes to the downstream socket while that is
    open. *)
Definition remote_onmessage (payload : WsData) (p : WebsocketProxy) : WebsocketProxy :=
  if readyState (ws p) =? OPEN then
    match payload with
    | WsBuffers bs =>
        set_ws (fold_left (fun s b => Socket_send (WsBuffer b) s) bs (ws p)) p
    | _ => set_ws (Socket_send payload (ws p)) p
    end
  else p.

(** [stopRecording()]: the proxy, the statuses and the files after the
    call, and the path of the file written. *)
Definition stopRecording (now : Z) (p : WebsocketProxy) (st : gmap string Status)
    (fs : gmap string json)
  : result (WebsocketProxy * gmap string Status * gmap string json * string) :=
  match recorder p with
  | None => Throw "Nothing to stop"
  | Some r =>
      match currentState p with
      | StateRecord | StatePause =>
          let p := set_recorder None p in
          let p := set_recordingPaused false p in
          let '(fs, filePath) := persist toISOString r fs in
          let lastRecordId := activeRecordId p in
          let p := set_activeRecordId None p in
          let '(p, st) :=
            updateStatus now StateStop (JStr <$> lastRecordId) (Some filePath) 0 (p, st) in
          Ok (p, st, fs, filePath)
      | _ => Throw "Recording is not active"
      end
  end.

(** [stop()]: the mode, and the file path of a recording. *)
Definition stop (now : Z) (p : WebsocketProxy) (st : gmap string Status)
    (fs : gmap string json)
  : result (WebsocketProxy * gmap string Status * gmap string json
            * (Mode * option string)) :=
  match recorder p, playback p with
  | Some _, _ =>
      '(p, st, fs, filePath) ← stopRecording now p st fs;
      Ok (p, st, fs, (ModeRecord, Some filePath))
  | None, Some pb =>
      let playbackId := file_id pb in
      let p := stopPlayback true p in
      let p := set_playback None p in
      let '(p, st) := updateStatus now StateStop playbackId None 0 (p, st) in
      Ok (p, st, fs, (ModeRun, None))
  | None, None => Throw "Nothing to stop"
  end.

(** [runRecording(recordId)] *)
Definition runRecording (now : Z) (recordId : string) (p : WebsocketProxy)
    (st : gmap string Status) (fs : gmap string json)
  : result (WebsocketProxy * gmap string Status) :=
  if negb (truthy_string recordId) then Throw "recordId is required"
  else
    match currentState p with
    | StateStop =>
        recording ← load Number_of_other String_of_other now recordId fs;
        let p := stopPlayback true p in
        let '(p, st) := updateStatus now StateRun (file_id recording) None 0 (p, st) in
        Ok (startPlayback now (Some recording) (p, st))
    | _ => Throw "Device is busy; stop current action before running"
    end.

End Methods.

End ProxyControl.

(** * Properties *)

(** ** Properties of the byte primitives *)

Module BytesFacts.
Import Bytes.

Lemma write_at_app (pre old new post : list Z) :
  length old = length new ->
  write_at (pre ++ old ++ post) (length pre) new = pre ++ new ++ post.
Proof.
  revert pre old. induction new as [|b new IH]; intros pre old Hlen.
  - destruct old; [reflexivity | discriminate].
  - destruct old as [|a old]; [discriminate|]. simpl in Hlen.
    cbn [write_at].
    replace (<[length pre := b]> (pre ++ (a :: old) ++ post))
      with ((pre ++ [b]) ++ old ++ post).
    2:{ rewrite insert_app_r_alt by lia. rewrite Nat.sub_diag. cbn.
        now rewrite <- app_assoc. }
    replace (S (length pre)) with (length (pre ++ [b]))
      by (rewrite length_app; cbn; lia).
    rewrite (IH (pre ++ [b]) old) by lia.
    now rewrite <- app_assoc.
Qed.

Lemma set_app (pre old new post : list Z) :
  length old = length new ->
  set (pre ++ old ++ post) new (length pre) = Ok (pre ++ new ++ post).
Proof.
  intros Hlen. unfold set.
  rewrite !length_app, <- Hlen.
  rewrite (proj2 (Nat.leb_le _ _)) by lia.
  now rewrite write_at_app.
Qed.

Lemma alloc_add (n m : nat) : alloc (n + m) = alloc n ++ alloc m.
Proof. apply repeat_app. Qed.

Lemma length_alloc (n : nat) : length (alloc n) = n.
Proof. apply repeat_length. Qed.

Lemma total_length_from (parts : list Uint8Array) (n : nat) :
  fold_left (fun total p => (total + length p)%nat) parts n
  = (n + length (List.concat parts))%nat.
Proof.
  revert n. induction parts as [|p parts IH]; intros n; cbn.
  - lia.
  - rewrite IH, length_app. lia.
Qed.

Lemma copy_parts_app (pre : list Z) (parts : list Uint8Array) :
  copy_parts (pre ++ alloc (length (List.concat parts))) (length pre) parts
  = Ok (pre ++ List.concat parts).
Proof.
  revert pre. induction parts as [|p parts IH]; intros pre; cbn [copy_parts].
  - reflexivity.
  - cbn [List.concat]. rewrite length_app, alloc_add.
    rewrite (set_app pre (alloc (length p)) p) by apply length_alloc.
    cbn [mbind result_bind].
    replace (length pre + length p)%nat with (length (pre ++ p))
      by apply length_app.
    rewrite app_assoc, IH. now rewrite <- app_assoc.
Qed.

(** [concat] is list concatenation, and never throws. *)
Lemma concat_spec (parts : list Uint8Array) :
  concat parts = Ok (List.concat parts).
Proof.
  unfold concat, total_length. rewrite total_length_from. cbn [Nat.add].
  apply (copy_parts_app []).
Qed.

Lemma testbit_255 (m : Z) : 0 <= m -> Z.testbit 255 m = (m <? 8).
Proof. intros Hm. change 255 with (Z.ones 8). now apply Z.testbit_ones_nonneg. Qed.

Lemma testbit_uint32 (v n : Z) :
  0 <= v < 2 ^ 32 -> 32 <= n -> Z.testbit v n = false.
Proof.
  intros Hv Hn.
  rewrite <- (Z.mod_small v (2 ^ 32)) by lia.
  apply Z.mod_pow2_bits_high. lia.
Qed.

(** Four little-endian bytes put together give the number back. *)
Lemma le_bytes_uint32 (v : Z) :
  0 <= v < 2 ^ 32 ->
  Z.lor (Z.land v 0xff)
    (Z.lor (Z.shiftl (Z.land (Z.shiftr v 8) 0xff) 8)
       (Z.lor (Z.shiftl (Z.land (Z.shiftr v 16) 0xff) 16)
              (Z.shiftl (Z.land (Z.shiftr v 24) 0xff) 24))) = v.
Proof.
  intros Hv. apply Z.bits_inj'. intros n Hn.
  rewrite !Z.lor_spec, !Z.shiftl_spec, !Z.land_spec by lia.
  destruct (Z.ltb_spec n 8).
  { rewrite (Z.testbit_neg_r _ (n - 8)), (Z.testbit_neg_r _ (n - 16)),
      (Z.testbit_neg_r _ (n - 24)) by lia.
    rewrite testbit_255 by lia. rewrite (proj2 (Z.ltb_lt n 8)) by lia.
    now rewrite !andb_true_r, !orb_false_r. }
  rewrite (testbit_255 n) by lia. rewrite (proj2 (Z.ltb_ge n 8)) by lia.
  rewrite andb_false_r, orb_false_l.
  rewrite Z.shiftr_spec, testbit_255 by lia.
  replace (n - 8 + 8) with n by lia.
  destruct (Z.ltb_spec n 16).
  { rewrite (Z.testbit_neg_r _ (n - 16)), (Z.testbit_neg_r _ (n - 24)) by lia.
    rewrite (proj2 (Z.ltb_lt (n - 8) 8)) by lia.
    now rewrite !andb_true_r, !orb_false_r. }
  rewrite (proj2 (Z.ltb_ge (n - 8) 8)) by lia.
  rewrite andb_false_r, orb_false_l.
  rewrite Z.shiftr_spec, testbit_255 by lia.
  replace (n - 16 + 16) with n by lia.
  destruct (Z.ltb_spec n 24).
  { rewrite (Z.testbit_neg_r _ (n - 24)) by lia.
    rewrite (proj2 (Z.ltb_lt (n - 16) 8)) by lia.
    now rewrite !andb_true_r, !orb_false_r. }
  rewrite (proj2 (Z.ltb_ge (n - 16) 8)) by lia.
  rewrite andb_false_r, orb_false_l.
  rewrite Z.shiftr_spec, testbit_255 by lia.
  replace (n - 24 + 24) with n by lia.
  destruct (Z.ltb_spec n 32).
  { rewrite (proj2 (Z.ltb_lt (n - 24) 8)) by lia. now rewrite andb_true_r. }
  rewrite (proj2 (Z.ltb_ge (n - 24) 8)) by lia.
  rewrite andb_false_r. symmetry. now apply testbit_uint32.
Qed.

Lemma to_uint32_small (v : Z) : 0 <= v < 2 ^ 32 -> to_uint32 v = v.
Proof.
  intros Hv. unfold to_uint32. change 0xffffffff with (Z.ones 32).
  rewrite Z.land_ones by lia. apply Z.mod_small. lia.
Qed.

Lemma u32le_bytes (n : Z) :
  u32le n = Ok [Z.land (to_uint32 n) 0xff;
                Z.land (Z.shiftr (to_uint32 n) 8) 0xff;
                Z.land (Z.shiftr (to_uint32 n) 16) 0xff;
                Z.land (Z.shiftr (to_uint32 n) 24) 0xff].
Proof. reflexivity. Qed.

End BytesFacts.

(** ** The multiplexer frame round trip *)

Module MuxMessageFacts.
Import Bytes BytesFacts MuxMessage.

(** The four little-endian bytes of a channel id. *)
Definition le32 (v : Z) : list Z :=
  [Z.land v 0xff; Z.land (Z.shiftr v 8) 0xff;
   Z.land (Z.shiftr v 16) 0xff; Z.land (Z.shiftr v 24) 0xff].

Lemma code_byte (ty : MuxMessageType) : Z.land (code ty) 0xff = code ty.
Proof. now destruct ty. Qed.

Lemma createBuffer_layout (ty : Z) (cid : Z) (payload : option Uint8Array) :
  createBuffer ty cid payload
  = Ok (Z.land ty 0xff :: le32 (to_uint32 cid) ++ default [] payload).
Proof.
  unfold createBuffer. rewrite u32le_bytes. cbn [mbind result_bind].
  change (set (store (alloc (1 + 4)) 0 ty) ?le 1)
    with (set ([Z.land ty 0xff] ++ alloc 4 ++ []) le (length [Z.land ty 0xff])).
  rewrite set_app by reflexivity. cbn [mbind result_bind].
  destruct payload as [p|]; cbn [default].
  - destruct p as [|b p]; [reflexivity|].
    cbn [length Nat.eqb]. rewrite concat_spec. cbn. now rewrite app_nil_r.
  - reflexivity.
Qed.

Lemma parse_frame (ty : Z) (cid : Z) (p : Uint8Array) :
  0 <= cid < 2 ^ 32 ->
  parse (ty :: le32 cid ++ p) = Ok (mk ty cid p).
Proof.
  intros Hcid. unfold parse, le32, getUint32le, slice. cbn [length app].
  cbn [Nat.ltb Nat.leb lookup list_lookup mbind result_bind].
  rewrite le_bytes_uint32 by assumption.
  replace (S (S (S (S (S (length p))))) - 5)%nat with (length p) by lia.
  cbn [drop]. now rewrite firstn_all.
Qed.

(** C1.  A frame built by [createBuffer] from one of the five frame
    types, a channel id below 2^32 and any payload (empty or not) is the
    type byte, the channel id as four little-endian bytes and the
    payload, and [parse] gives back the same type, channel id and
    payload. *)
Theorem createBuffer_parse_roundtrip
    (ty : MuxMessageType) (cid : Z) (p : Uint8Array) :
  0 <= cid < 2 ^ 32 ->
  exists buf,
    createBuffer (code ty) cid (Some p) = Ok buf
    /\ buf = [code ty]
             ++ [Z.land cid 0xff; Z.land (Z.shiftr cid 8) 0xff;
                 Z.land (Z.shiftr cid 16) 0xff; Z.land (Z.shiftr cid 24) 0xff]
             ++ p
    /\ parse buf = Ok (mk (code ty) cid p).
Proof.
  intros Hcid. eexists. split; [apply createBuffer_layout|].
  rewrite code_byte, to_uint32_small by assumption. cbn [default].
  split; [reflexivity|]. now apply parse_frame.
Qed.

Lemma createBuffer_parse_roundtrip_witness :
  exists buf,
    createBuffer (code CreateChannel) 0x01020304 (Some [9; 8; 7]) = Ok buf
    /\ buf = [4] ++ [4; 3; 2; 1] ++ [9; 8; 7]
    /\ parse buf = Ok (mk 4 0x01020304 [9; 8; 7]).
Proof.
  apply (createBuffer_parse_roundtrip CreateChannel 0x01020304 [9; 8; 7]).
  lia.
Defined.

(** An omitted payload is sent as the bare header and parsed as the
    empty payload. *)
Lemma createBuffer_parse_no_payload (ty : MuxMessageType) (cid : Z) :
  0 <= cid < 2 ^ 32 ->
  exists buf,
    createBuffer (code ty) cid None = Ok buf
    /\ length buf = 5%nat
    /\ parse buf = Ok (mk (code ty) cid []).
Proof.
  intros Hcid. eexists. split; [apply createBuffer_layout|].
  rewrite code_byte, to_uint32_small by assumption. cbn [default].
  split; [reflexivity|]. now apply parse_frame.
Qed.

End MuxMessageFacts.

(** ** Allocation of channel ids *)

Module MuxChannelFacts.
Import Bytes BytesFacts MuxMessage MuxMessageFacts MuxChannel.

(** The number of registered ids above [n]. *)
Definition above (C : gset Z) (n : Z) : nat :=
  size (filter (λ x, (n < x)) C).

Lemma above_le_size (C : gset Z) (n : Z) : (above C n <= size C)%nat.
Proof. apply subseteq_size. intros x Hx. apply elem_of_filter in Hx. tauto. Qed.

Lemma above_step (C : gset Z) (n : Z) :
  n + 1 ∈ C -> above C n = S (above C (n + 1)).
Proof.
  intros Hin. unfold above.
  replace (filter (λ x, (n < x)) C)
    with ({[n + 1]} ∪ filter (λ x, (n + 1 < x)) C).
  - rewrite size_union, size_singleton; [reflexivity|].
    intros x Hx1 Hx2. apply elem_of_singleton in Hx1.
    apply elem_of_filter in Hx2. lia.
  - apply set_eq. intros x.
    rewrite elem_of_union, !elem_of_filter, elem_of_singleton.
    split.
    + intros [->|[? ?]]; split; (assumption || lia).
    + intros [? ?]. destruct (Z.eq_dec x (n + 1)); [now left|right].
      split; [lia|assumption].
Qed.

(** The loop of [getNextId] ends within the fuel it is given: every
    pass of its body leaves one registered id fewer ahead. *)
Lemma getNextId_loop_total (fuel : nat) (C : gset Z) (n : Z) (hitTop : bool) :
  (above C n + (if hitTop then 0 else size C + 1) < fuel)%nat ->
  is_Some (getNextId_loop fuel C n hitTop).
Proof.
  revert n hitTop. induction fuel as [|fuel IH]; intros n hitTop Hfuel; [lia|].
  cbn [getNextId_loop]. destruct (decide (n + 1 ∈ C)) as [Hin|Hout]; [|eauto].
  destruct (0xffffffff <=? n + 1).
  - destruct hitTop; [eauto|]. apply IH.
    pose proof (above_le_size C 0). lia.
  - apply IH. rewrite (above_step C n Hin) in Hfuel. lia.
Qed.

Lemma getNextId_total (f : fields) : is_Some (getNextId f).
Proof.
  apply getNextId_loop_total. pose proof (above_le_size (channels f) (nextId f)). lia.
Qed.

(** An id that [getNextId] returns is not registered, and is the new
    value of [nextId]. *)
Lemma getNextId_loop_fresh (fuel : nat) (C : gset Z) (n : Z) (hitTop : bool)
    (n' i : Z) :
  getNextId_loop fuel C n hitTop = Some (n', Ok i) -> (i ∉ C) /\ n' = i.
Proof.
  revert n hitTop. induction fuel as [|fuel IH]; intros n hitTop; [discriminate|].
  cbn [getNextId_loop]. destruct (decide (n + 1 ∈ C)) as [Hin|Hout].
  - destruct (0xffffffff <=? n + 1); [destruct hitTop; [discriminate|]|]; apply IH.
  - intros [= <- <-]. auto.
Qed.

Lemma getNextId_fresh (f : fields) (n' i : Z) :
  getNextId f = Some (n', Ok i) -> (i ∉ channels f) /\ n' = i.
Proof. apply getNextId_loop_fresh. Qed.

(** When no registered id is above [nextId], the loop body never runs:
    the id returned is [nextId + 1], whatever its size. *)
Lemma getNextId_no_wrap (f : fields) :
  (forall i, i ∈ channels f -> i <= nextId f) ->
  getNextId f = Some (nextId f + 1, Ok (nextId f + 1)).
Proof.
  intros Hinv. unfold getNextId.
  replace (2 * size (channels f) + 2)%nat with (S (2 * size (channels f) + 1)) by lia.
  cbn [getNextId_loop]. destruct (decide (nextId f + 1 ∈ channels f)) as [Hin|]; [|reflexivity].
  apply Hinv in Hin. lia.
Qed.

(** The bound on the registered ids is kept by a peer announcement, and
    by an allocation. *)
Lemma onCreateChannel_bound (f : fields) (c : Z) :
  (forall i, i ∈ channels f -> i <= nextId f) ->
  forall i, i ∈ channels (onCreateChannel f c) -> i <= nextId (onCreateChannel f c).
Proof.
  intros Hinv i. unfold onCreateChannel, register. cbn [channels nextId].
  rewrite elem_of_union, elem_of_singleton.
  destruct (Z.ltb_spec (nextId f) c); intros [->|Hi%Hinv]; lia.
Qed.

(** A peer announcement of an id above [nextId] moves [nextId] to it,
    so that the next id allocated is above it. *)
Lemma onCreateChannel_advances (f : fields) (c : Z) :
  nextId f < c ->
  nextId (onCreateChannel f c) = c.
Proof.
  intros Hlt. unfold onCreateChannel, register. cbn [nextId].
  now rewrite (proj2 (Z.ltb_lt _ _)).
Qed.

(** C6, the failing input.  An open root channel creates a child, which
    gets the id 1.  The peer then announces the child 0xFFFFFFFF.  The
    next two local [createChannel] calls get the ids 2^32 and 2^32 + 1,
    which are no [u32]: the counter has passed the top without wrapping.
    The [CreateChannel] frames written for them carry the channel ids 0
    and 1, so the new child 2^32 + 1 and the live child 1 have the same
    id on the wire. *)
Theorem createChannel_passes_u32 :
  exists c1 c2 c3,
    createChannel (wrap OPEN) [7] = Some (Ok (c1, 1))
    /\ createChannel (with_fields c1 (onCreateChannel (fields_of c1) 0xffffffff)) [8]
       = Some (Ok (c2, 2 ^ 32))
    /\ createChannel c2 [9] = Some (Ok (c3, 2 ^ 32 + 1))
    /\ nextId (fields_of c3) = 2 ^ 32 + 1
    /\ (1 ∈ channels (fields_of c3))
    /\ (2 ^ 32 + 1 ∈ channels (fields_of c3))
    /\ (exists ws f, c3 = RootChannel ws f
                      /\ ws_sent ws = [Binary [4; 1; 0; 0; 0; 7];
                                        Binary [4; 0; 0; 0; 0; 8];
                                        Binary [4; 1; 0; 0; 0; 9]])
    /\ parse [4; 1; 0; 0; 0; 9] = Ok (mk 4 1 [9]).
Proof.
  eexists _, _, _.
  split; [vm_compute; reflexivity|].
  split; [vm_compute; reflexivity|].
  split; [vm_compute; reflexivity|].
  split; [reflexivity|].
  split; [refine (bool_decide_unpack _ _); vm_compute; exact I|].
  split; [refine (bool_decide_unpack _ _); vm_compute; exact I|].
  split; [|reflexivity].
  eexists _, _. split; reflexivity.
Qed.

(** *** Sending *)

Section Flush.
Variable Uint8Array_of_string : string -> result Uint8Array.




End Flush.

(** A child of an open root: the frame goes to the socket at once,
    also when the child is CONNECTING, CLOSING or CLOSED. *)
Lemma child_send_open_root (sent : list data) (rf f : fields) (u8 : Uint8Array) :
  readyState rf = OPEN -> 0 <= id f < 2 ^ 32 ->
  send (ChildChannel (RootChannel (mkWebSocket OPEN sent) rf) f) (Binary u8)
  = Ok (ChildChannel
          (RootChannel
             (mkWebSocket OPEN
                (sent ++ [Binary (code RawBinaryData :: le32 (id f) ++ u8)]))
             rf) f).
Proof.
  intros Hopen Hid. cbn [send]. rewrite createBuffer_layout.
  cbn [mbind result_bind sendData default]. unfold root_send. rewrite Hopen.
  rewrite to_uint32_small by assumption. reflexivity.
Qed.


End MuxChannelFacts.

(** ** The touch message *)

Module ControlFacts.
Import Bytes BytesFacts Number Control.

(** A field of the wire format, as the byte sequence the big-endian
    convention assigns to an unsigned integer. *)
Definition be16 (v : Z) : list Z := [(v / 2 ^ 8) mod 2 ^ 8; v mod 2 ^ 8].
Definition be32 (v : Z) : list Z :=
  [(v / 2 ^ 24) mod 2 ^ 8; (v / 2 ^ 16) mod 2 ^ 8; (v / 2 ^ 8) mod 2 ^ 8; v mod 2 ^ 8].

Lemma land_byte (v k : Z) :
  0 <= k -> Z.land (Z.shiftr v k) 0xff = (v / 2 ^ k) mod 2 ^ 8.
Proof.
  intros Hk. change 0xff with (Z.ones 8).
  rewrite Z.land_ones by lia. now rewrite Z.shiftr_div_pow2.
Qed.

Lemma land_byte0 (v : Z) : Z.land v 0xff = v mod 2 ^ 8.
Proof. change 0xff with (Z.ones 8). now rewrite Z.land_ones by lia. Qed.

Lemma round_even_bounds (a sh : Z) :
  0 <= a -> 0 < sh ->
  0 <= round_even a sh
  /\ 2 * Z.abs (round_even a sh * 2 ^ sh - a) <= 2 ^ sh.
Proof.
  intros Ha Hsh. unfold round_even.
  rewrite Z.shiftr_div_pow2, Z.land_ones, Z.shiftl_1_l by lia.
  assert (Hpow : 2 ^ sh = 2 * 2 ^ (sh - 1)).
  { rewrite <- Z.pow_succ_r by lia. f_equal. lia. }
  assert (Hpos : 0 < 2 ^ (sh - 1)) by (apply Z.pow_pos_nonneg; lia).
  pose proof (Z.div_mod a (2 ^ sh) ltac:(lia)) as Hdm.
  pose proof (Z.mod_pos_bound a (2 ^ sh) ltac:(lia)) as Hr.
  assert (Hq : 0 <= a / 2 ^ sh) by (apply Z.div_pos; lia).
  set (q := a / 2 ^ sh) in *. set (r := a mod 2 ^ sh) in *.
  set (h := 2 ^ (sh - 1)) in *.
  assert (Hqa : q * 2 ^ sh - a = - r) by lia.
  assert (Hqa1 : (q + 1) * 2 ^ sh - a = 2 * h - r) by lia.
  destruct (Z.ltb_spec r h); [split; [lia|]; rewrite Hqa; lia|].
  destruct (Z.ltb_spec h r); [split; [lia|]; rewrite Hqa1; lia|].
  destruct (Z.even q); split; lia.
Qed.

Lemma round_half_up_bounds (m k : Z) :
  0 < k ->
  let v := Z.shiftr (m + Z.shiftl 1 (k - 1)) k in
  2 * v * 2 ^ k <= 2 * m + 2 ^ k < 2 * (v + 1) * 2 ^ k.
Proof.
  intros Hk v. subst v.
  rewrite Z.shiftr_div_pow2, Z.shiftl_1_l by lia.
  assert (Hpow : 2 ^ k = 2 * 2 ^ (k - 1)).
  { rewrite <- Z.pow_succ_r by lia. f_equal. lia. }
  assert (Hpos : 0 < 2 ^ (k - 1)) by (apply Z.pow_pos_nonneg; lia).
  pose proof (Z.div_mod (m + 2 ^ (k - 1)) (2 ^ k) ltac:(lia)) as Hdm.
  pose proof (Z.mod_pos_bound (m + 2 ^ (k - 1)) (2 ^ k) ltac:(lia)) as Hr.
  nia.
Qed.

Lemma pow2_split (a b : Z) : 0 <= a -> 0 <= b -> 2 ^ (a + b) = 2 ^ a * 2 ^ b.
Proof. intros. now apply Z.pow_add_r. Qed.

(** Rounding a product that is at most 65535 to binary64: the result
    [q * 2^t] is within [2^-38] of the exact value [M / 2^k]. *)
Lemma fround_small (M k : Z) :
  0 < k -> 0 < M -> M <= 65535 * 2 ^ k ->
  exists q t,
    fround M (- k) = Finite q t
    /\ - k <= t < 0 /\ 0 <= q
    /\ 2 ^ 38 * Z.abs (q * 2 ^ (t + k) - M) <= 2 ^ k.
Proof.
  intros Hk HM Hle. unfold fround.
  rewrite (proj2 (Z.eqb_neq M 0)) by lia.
  rewrite (Z.abs_eq M) by lia.
  assert (Hsgn : Z.sgn M = 1) by (apply Z.sgn_pos; lia).
  rewrite Hsgn.
  assert (Hk0 : 0 < 2 ^ k) by (apply Z.pow_pos_nonneg; lia).
  pose proof (Z.log2_spec M HM) as [HL1 HL2].
  pose proof (Z.log2_nonneg M) as HL0.
  set (L := Z.log2 M) in *.
  replace (Z.succ L) with (L + 1) in HL2 by lia.
  assert (HLk : L <= 15 + k).
  { assert (2 ^ L < 2 ^ (16 + k)) as Hlt.
    { rewrite pow2_split by lia. change (2 ^ 16) with 65536. nia. }
    apply Z.pow_lt_mono_r_iff in Hlt; lia. }
  set (t := Z.max (- k + (L + 1) - 53) (-1074)).
  assert (Ht : t <= -37) by lia.
  destruct (Z.leb_spec t (- k)) as [Hexact|Hround].
  - (* the product is representable *)
    rewrite Z.max_r by lia.
    rewrite (proj2 (Z.ltb_ge 1024 _)) by (fold L; lia).
    exists M, (- k). split; [f_equal; lia|].
    replace (- k + k) with 0 by lia. rewrite Z.pow_0_r.
    repeat split; lia.
  - (* the product is rounded *)
    rewrite Z.max_l by lia.
    pose proof (round_even_bounds M (t - - k) ltac:(lia) ltac:(lia)) as [Hq0 Hqe].
    set (q := round_even M (t - - k)) in *.
    replace (t - - k) with (t + k) in Hqe by lia.
    assert (HS : 0 < 2 ^ (t + k)) by (apply Z.pow_pos_nonneg; lia).
    assert (HA : 2 ^ 37 <= 2 ^ (- t)) by (apply Z.pow_le_mono_r; lia).
    assert (HAS : 2 ^ k = 2 ^ (- t) * 2 ^ (t + k)).
    { rewrite <- pow2_split by lia. f_equal. lia. }
    assert (Hq53 : q <= 2 ^ 53).
    { assert (Hsplit : 2 ^ (L + 1) <= 2 ^ 53 * 2 ^ (t + k)).
      { rewrite <- pow2_split by lia. apply Z.pow_le_mono_r; lia. }
      assert (2 * q * 2 ^ (t + k) <= (2 * 2 ^ 53 + 1) * 2 ^ (t + k)) by lia.
      assert (2 * q <= 2 * 2 ^ 53 + 1) by
        (apply Z.mul_le_mono_pos_r with (p := 2 ^ (t + k)); lia).
      lia. }
    assert (Hlq : Z.log2 q <= 53).
    { change 53 with (Z.log2 (2 ^ 53)). now apply Z.log2_le_mono. }
    rewrite (proj2 (Z.ltb_ge 1024 _)) by lia.
    exists q, t. split; [f_equal; lia|]. repeat split; try lia.
    rewrite HAS. change (2 ^ 38) with (2 * 2 ^ 37). nia.
Qed.

(** The pressure field for a pressure [m / 2^k] between 0 and 1: a
    16-bit value within [1/2 + 2^-38] of [65535 * m / 2^k]. *)
Lemma pressure_quantised (m k : Z) :
  0 < k -> 0 <= m <= 2 ^ k ->
  let v := pressureU16 (Some (Finite m (- k))) in
  0 <= v <= 65535
  /\ 2 ^ 38 * Z.abs (v * 2 ^ k - 65535 * m) <= (2 ^ 37 + 1) * 2 ^ k.
Proof.
  intros Hk Hm v. subst v.
  change (pressureU16 (Some (Finite m (- k))))
    with (bitand (Math_round (mul (clamp (Finite m (- k)) (of_Z 0) (of_Z 1))
                                  (of_Z 0xffff))) 0xffff).
  assert (Hk0 : 0 < 2 ^ k) by (apply Z.pow_pos_nonneg; lia).
  assert (Hclamp : clamp (Finite m (- k)) (of_Z 0) (of_Z 1) = Finite m (- k)).
  { unfold clamp, gt, lt, of_Z.
    rewrite (Z.min_l (- k) 0), (Z.min_r 0 (- k)) by lia.
    replace (- k - - k) with 0 by lia. replace (0 - - k) with k by lia.
    rewrite Z.pow_0_r.
    rewrite (proj2 (Z.ltb_ge (m * 1) (0 * 2 ^ k))) by lia.
    now rewrite (proj2 (Z.ltb_ge (1 * 2 ^ k) (m * 1))) by lia. }
  rewrite Hclamp. unfold mul, of_Z.
  replace (- k + 0) with (- k) by lia.
  destruct (Z.eq_dec m 0) as [->|Hm0].
  { change (bitand (Math_round (fround (0 * 65535) (- k))) 65535) with 0. lia. }
  destruct (fround_small (m * 65535) k) as (q & t & Hfr & Ht & Hq & Herr);
    [lia | lia | lia |].
  rewrite Hfr. unfold Math_round.
  rewrite (proj2 (Z.leb_gt 0 t)) by lia.
  pose proof (round_half_up_bounds q (- t) ltac:(lia)) as Hv. cbv zeta in Hv.
  set (v := Z.shiftr (q + Z.shiftl 1 (- t - 1)) (- t)) in *.
  unfold bitand, truncate.
  change (0 <=? 0) with true. cbv iota. rewrite Z.pow_0_r, Z.mul_1_r.
  set (A := 2 ^ (- t)) in *. set (S := 2 ^ (t + k)) in *.
  assert (HA : 2 <= A).
  { change 2 with (2 ^ 1) at 1. apply Z.pow_le_mono_r; lia. }
  assert (HS : 0 < S) by (apply Z.pow_pos_nonneg; lia).
  assert (HAS : 2 ^ k = A * S).
  { unfold A, S. rewrite <- pow2_split by lia. f_equal. lia. }
  rewrite HAS in *. change (2 ^ 37) with 137438953472 in *.
  change (2 ^ 38) with 274877906944 in *.
  assert (Hup : 2 * v * (A * S) <= 2 * (q * S) + A * S) by nia.
  assert (Hlo : 2 * (q * S) + A * S < 2 * (v + 1) * (A * S)) by nia.
  assert (HAS0 : 0 < A * S) by nia.
  assert (Hv0 : 0 <= v) by nia.
  assert (Hv1 : v <= 65535).
  { assert (274877906944 * 2 * v * (A * S)
            < 274877906944 * 2 * 65536 * (A * S)) by lia.
    nia. }
  assert (Hland : Z.land v 0xffff = v).
  { change 0xffff with (Z.ones 16). rewrite Z.land_ones by lia.
    apply Z.mod_small. lia. }
  rewrite Hland. split; [lia|]. nia.
Qed.

(** The rational number a finite [number] stands for. *)
Definition to_Q (m e : Z) : Q :=
  if 0 <=? e then inject_Z (m * 2 ^ e) else Qmake m (Z.to_pos (2 ^ (- e))).

(** A pressure argument that is absent or a finite number in [0, 1]. *)
Definition pressure_in_unit (pressure01 : option number) : Prop :=
  match pressure01 with
  | None => True
  | Some (Finite m e) => (0 <= to_Q m e)%Q /\ (to_Q m e <= 1)%Q
  | Some _ => False
  end.

(** The pressure field [v] is 65535 for an absent pressure, and else the
    integer nearest to [65535 * pressure], up to the rounding of the
    binary64 product. *)
Definition pressure_field (pressure01 : option number) (v : Z) : Prop :=
  match pressure01 with
  | None => v = 65535
  | Some (Finite m e) =>
      (Qabs (inject_Z v - 65535 * to_Q m e) <= (1 # 2) + (1 # 2 ^ 38))%Q
  | Some _ => False
  end.

Lemma pressure_field_unit (pressure01 : option number) :
  pressure_in_unit pressure01 ->
  0 <= pressureU16 pressure01 <= 65535
  /\ pressure_field pressure01 (pressureU16 pressure01).
Proof.
  destruct pressure01 as [[m e| | |]|]; cbn [pressure_in_unit pressure_field];
    try contradiction.
  2:{ intros _. vm_compute. repeat split; congruence. }
  unfold to_Q. destruct (Z.leb_spec 0 e) as [He|He].
  - (* an integer: 0 or 1 *)
    intros [H0 H1]. rewrite <- (Zle_Qle 0) in H0. rewrite <- (Zle_Qle _ 1) in H1.
    assert (Hp : 0 < 2 ^ e) by (apply Z.pow_pos_nonneg; lia).
    assert (Hm : m = 0 \/ (m = 1 /\ e = 0)).
    { destruct (Z.eq_dec m 0); [now left|right].
      assert (m = 1) by nia. subst m. split; [reflexivity|].
      destruct (Z.eq_dec e 0); [assumption|].
      assert (2 ^ 1 <= 2 ^ e) by (apply Z.pow_le_mono_r; lia). lia. }
    destruct Hm as [->|[-> ->]].
    + assert (Hv : pressureU16 (Some (Finite 0 e)) = 0).
      { unfold pressureU16, clamp, gt, lt, of_Z. cbv [default from_option id].
        rewrite (Z.min_r e 0), (Z.min_l 0 e) by lia.
        rewrite !Z.mul_0_l. cbn [Z.ltb Z.compare].
        destruct (1 * 2 ^ (0 - 0) <? 0) eqn:E; [apply Z.ltb_lt in E; lia|].
        reflexivity. }
      rewrite Hv. split; [lia|]. vm_compute. congruence.
    + vm_compute. repeat split; congruence.
  - intros [H0 H1].
    assert (Hp : 0 < 2 ^ (- e)) by (apply Z.pow_pos_nonneg; lia).
    unfold Qle in H0, H1. cbn [Qnum Qden] in H0, H1.
    rewrite Z2Pos.id in H1 by assumption.
    pose proof (pressure_quantised m (- e) ltac:(lia) ltac:(lia)) as Hq.
    cbv zeta in Hq. rewrite Z.opp_involutive in Hq.
    destruct Hq as [Hrange Herr]. split; [assumption|].
    set (v := pressureU16 (Some (Finite m e))) in *.
    unfold Qle, Qabs, Qminus, Qplus, Qopp, Qmult, inject_Z.
    cbn [Qnum Qden]. rewrite !Pos.mul_1_l.
    rewrite Z2Pos.id by assumption.
    change (Z.pos (2 * 2 ^ 38)) with (2 * 2 ^ 38).
    change (1 * Z.pos (2 ^ 38) + 1 * 2)%Z with (2 * (2 ^ 37 + 1)).
    replace (v * 2 ^ (- e) + - (65535 * m) * 1) with (v * 2 ^ (- e) - 65535 * m) by lia.
    lia.
Qed.

Lemma to_uint32_mod (v : Z) : to_uint32 v = v mod 2 ^ 32.
Proof. unfold to_uint32. change 0xffffffff with (Z.ones 32). now rewrite Z.land_ones. Qed.

Lemma land_uint16 (v : Z) : Z.land v 0xffff = v mod 2 ^ 16.
Proof. change 0xffff with (Z.ones 16). now rewrite Z.land_ones. Qed.

(** What the [DataView] writes of [encodeTouchMessage] leave in the
    29-byte buffer. *)
Lemma touch_bytes (action pointerId x y screenW screenH : Z)
    (pressure01 : option number) (buttons : Z) :
  encodeTouchMessage action pointerId x y screenW screenH pressure01 buttons
  = Ok ([2] ++ [action mod 2 ^ 8]
        ++ be32 0
        ++ be32 (pointerId mod 2 ^ 32)
        ++ be32 (x mod 2 ^ 32)
        ++ be32 (y mod 2 ^ 32)
        ++ be16 (screenW mod 2 ^ 16)
        ++ be16 (screenH mod 2 ^ 16)
        ++ be16 (pressureU16 pressure01)
        ++ be32 (buttons mod 2 ^ 32)
        ++ [0]).
Proof.
  unfold encodeTouchMessage.
  cbv -[Z.land Z.shiftr to_uint32 pressureU16 Z.modulo Z.div Z.pow].
  rewrite ?land_byte, ?land_byte0, ?to_uint32_mod, ?land_uint16 by lia.
  rewrite (Z.mod_mod action) by lia.
  reflexivity.
Qed.

(** C2 (amended).  The touch encoder returns 29 bytes: the type byte 2,
    the action, a zero [u32], then pointer id, x and y as big-endian
    [u32], screen width, screen height and pressure as big-endian [u16],
    the buttons as big-endian [u32], and one final zero byte that no
    field covers.  The pressure field is 65535 when the pressure is
    absent and else the 16-bit integer nearest to [65535 * pressure].
    A DOWN at (100, 200) on a 500x500 viewport with default pressure and
    no buttons is the 28 bytes
    [02 00 00000000 00000000 00000064 000000C8 01F4 01F4 FFFF 00000000]
    followed by [00]. *)
Theorem encodeTouchMessage_layout
    (action pointerId x y screenW screenH : Z)
    (pressure01 : option number) (buttons : Z) :
  pressure_in_unit pressure01 ->
  (exists buf v,
    encodeTouchMessage action pointerId x y screenW screenH pressure01 buttons
    = Ok buf
    /\ length buf = 29%nat
    /\ buf = [2] ++ [action mod 2 ^ 8]
              ++ be32 0
              ++ be32 (pointerId mod 2 ^ 32)
              ++ be32 (x mod 2 ^ 32)
              ++ be32 (y mod 2 ^ 32)
              ++ be16 (screenW mod 2 ^ 16)
              ++ be16 (screenH mod 2 ^ 16)
              ++ be16 v
              ++ be32 (buttons mod 2 ^ 32)
              ++ [0]
    /\ 0 <= v <= 65535
    /\ pressure_field pressure01 v)
  /\ encodeTouchMessage (MotionAction_code DOWN) 0 100 200 500 500 None 0
     = Ok [0x02; 0x00; 0x00; 0x00; 0x00; 0x00; 0x00; 0x00; 0x00; 0x00;
           0x00; 0x00; 0x00; 0x64; 0x00; 0x00; 0x00; 0xC8;
           0x01; 0xF4; 0x01; 0xF4; 0xFF; 0xFF; 0x00; 0x00; 0x00; 0x00;
           0x00].
Proof.
  intros Hp. split; [|reflexivity].
  destruct (pressure_field_unit pressure01 Hp) as [Hrange Hfield].
  exists (([2] ++ [action mod 2 ^ 8]
              ++ be32 0
              ++ be32 (pointerId mod 2 ^ 32)
              ++ be32 (x mod 2 ^ 32)
              ++ be32 (y mod 2 ^ 32)
              ++ be16 (screenW mod 2 ^ 16)
              ++ be16 (screenH mod 2 ^ 16)
              ++ be16 (pressureU16 pressure01)
              ++ be32 (buttons mod 2 ^ 32)
              ++ [0])), (pressureU16 pressure01).
  split; [apply touch_bytes|]. repeat split; try assumption; lia.
Qed.

Lemma encodeTouchMessage_layout_witness :
  (exists buf v,
    encodeTouchMessage 2 1 100 200 500 500 (Some (Finite 3 (-2))) 1 = Ok buf
    /\ length buf = 29%nat
    /\ buf = [2] ++ [2 mod 2 ^ 8]
              ++ be32 0
              ++ be32 (1 mod 2 ^ 32)
              ++ be32 (100 mod 2 ^ 32)
              ++ be32 (200 mod 2 ^ 32)
              ++ be16 (500 mod 2 ^ 16)
              ++ be16 (500 mod 2 ^ 16)
              ++ be16 v
              ++ be32 (1 mod 2 ^ 32)
              ++ [0]
    /\ 0 <= v <= 65535
    /\ pressure_field (Some (Finite 3 (-2))) v)
  /\ encodeTouchMessage (MotionAction_code DOWN) 0 100 200 500 500 None 0
     = Ok [0x02; 0x00; 0x00; 0x00; 0x00; 0x00; 0x00; 0x00; 0x00; 0x00;
           0x00; 0x00; 0x00; 0x64; 0x00; 0x00; 0x00; 0xC8;
           0x01; 0xF4; 0x01; 0xF4; 0xFF; 0xFF; 0x00; 0x00; 0x00; 0x00;
           0x00].
Proof.
  apply (encodeTouchMessage_layout 2 1 100 200 500 500 (Some (Finite 3 (-2))) 1).
  vm_compute. split; discriminate.
Defined.

(** C2 as stated fails: the bytes the specification lists for the DOWN
    example are 28, and the encoder returns 29. *)
Lemma touch_down_example_has_trailing_byte :
  encodeTouchMessage (MotionAction_code DOWN) 0 100 200 500 500 None 0
  <> Ok [0x02; 0x00; 0x00; 0x00; 0x00; 0x00; 0x00; 0x00; 0x00; 0x00;
         0x00; 0x00; 0x00; 0x64; 0x00; 0x00; 0x00; 0xC8;
         0x01; 0xF4; 0x01; 0xF4; 0xFF; 0xFF; 0x00; 0x00; 0x00; 0x00].
Proof. vm_compute. discriminate. Qed.

End ControlFacts.

(** ** The sync mapping *)

Module SyncServiceFacts.
Import Js SyncService.


















End SyncServiceFacts.

(** ** The proxy: upstream close, release *)

Module WebsocketProxyFacts.
Import Js ActionRecorder WebsocketProxy.

(** A proxy right after [init]: downstream socket in state [s] with
    [calls] close calls so far, no upstream socket yet, nothing
    recorded or replayed. *)
Definition fresh_proxy (s : Z) (session : option string) : WebsocketProxy :=
  mkProxy (mkSocket s [] []) None false [] None None None session None
          None None 0 false false (Some "ws://127.0.0.1:8886") None None []
          StateStop.

(** C3 (amended).  While the downstream socket is OPEN, a close of the
    upstream socket closes it with code 1000 when the upstream close
    was clean and with code 4010 when it was not, and an upstream error
    closes it with code 4011 and the error's message; when the
    downstream socket is not OPEN neither handler does anything. *)
Theorem upstream_close_codes
    (p : WebsocketProxy) (wasClean : bool) (message : string) :
  (readyState (ws p) = OPEN ->
     ws (remote_onclose wasClean p)
       = mkSocket CLOSING (sent (ws p))
                  (closes (ws p) ++ [(Some (if wasClean then 1000 else 4010), None)])
     /\ ws (remote_onerror message p)
       = mkSocket CLOSING (sent (ws p)) (closes (ws p) ++ [(Some 4011, Some message)]))
  /\ (readyState (ws p) <> OPEN ->
        remote_onclose wasClean p = p /\ remote_onerror message p = p).
Proof.
  unfold remote_onclose, remote_onerror, Socket_close. split.
  - intros ->. cbn. destruct wasClean; split; reflexivity.
  - intros Hne. apply Z.eqb_neq in Hne. rewrite Hne. split; reflexivity.
Qed.

Lemma upstream_close_codes_witness :
  (ws (remote_onclose false (fresh_proxy OPEN None))
     = mkSocket CLOSING [] [(Some 4010, None)]
   /\ ws (remote_onerror "ECONNRESET" (fresh_proxy OPEN None))
     = mkSocket CLOSING [] [(Some 4011, Some "ECONNRESET")])
  /\ (remote_onclose true (fresh_proxy CLOSED None) = fresh_proxy CLOSED None
      /\ remote_onerror "ECONNRESET" (fresh_proxy CLOSED None) = fresh_proxy CLOSED None).
Proof.
  split.
  - apply (upstream_close_codes (fresh_proxy OPEN None) false "ECONNRESET").
    reflexivity.
  - apply (upstream_close_codes (fresh_proxy CLOSED None) true "ECONNRESET").
    discriminate.
Defined.

(** C3 as stated fails: a clean close of the upstream socket closes the
    downstream socket with code 1000, not 4010. *)
Lemma clean_upstream_close_gives_1000 :
  closes (ws (remote_onclose true (fresh_proxy OPEN None))) = [(Some 1000, None)]
  /\ closes (ws (remote_onclose true (fresh_proxy OPEN None))) <> [(Some 4010, None)].
Proof. split; [reflexivity|discriminate]. Qed.

Section Release.
Variable Mw_release : Socket -> Socket.
Variable toISOString : Z -> string.

Lemma stopPlayback_session_of (b : bool) (p : WebsocketProxy) :
  session_of (stopPlayback b p) = session_of p.
Proof. unfold stopPlayback. now destruct b. Qed.

Lemma flush_session_of (p : WebsocketProxy) : session_of (flush p) = session_of p.
Proof. unfold flush. now destruct (remoteSocket p). Qed.

Lemma session_of_Some (p : WebsocketProxy) (sid : string) :
  sessionId p = Some sid -> sid <> "" -> session_of p = Some sid.
Proof. unfold session_of. intros -> Hne. now destruct sid. Qed.

(** The constructor never keeps an empty session id, so a proxy it
    built holds a session id exactly when [if (this.sessionId)] passes. *)
Lemma new_sessionId_nonempty (session : option string) (logMeta : option RecordingMeta)
    (sid : string) :
  new_sessionId session logMeta = Some sid -> sid <> "".
Proof.
  unfold new_sessionId.
  destruct session as [[|c s]|]; cbn;
    destruct (logMeta ≫= device) as [[|c' d]|]; cbn; congruence.
Qed.

(** C10.  The release of a proxy that holds a session id (a string
    that is not empty, as the constructor keeps it), and has not been
    released before, leaves the sync mapping empty: no source keeps a
    follower set, whichever sessions the entries were about.  Without a
    session id the release leaves the mapping as it was. *)
Theorem release_clears_sync (self : nat) (w : World) (p : WebsocketProxy) :
  heap w !! self = Some p ->
  released p = false ->
  (forall sid : string,
      sessionId p = Some sid -> sid <> "" ->
      sync (release Mw_release toISOString self w) = []
      /\ forall source : string,
          SyncService.Map_get source (sync (release Mw_release toISOString self w))
          = None)
  /\ (sessionId p = None ->
        sync (release Mw_release toISOString self w) = sync w).
Proof.
  intros Hp Hrel. unfold release. rewrite Hp, Hrel.
  rewrite flush_session_of, stopPlayback_session_of.
  change (session_of (set_released true (set_ws (Mw_release (ws p)) p)))
    with (session_of p).
  split.
  - intros sid Hsid Hne. rewrite (session_of_Some p sid Hsid Hne). cbn. auto.
  - intros Hnone. unfold session_of. rewrite Hnone. reflexivity.
Qed.

(** A second release does nothing. *)
Lemma release_released (self : nat) (w : World) (p : WebsocketProxy) :
  heap w !! self = Some p -> released p = true ->
  release Mw_release toISOString self w = w.
Proof. intros Hp Hrel. unfold release. now rewrite Hp, Hrel. Qed.

End Release.

(** Two sessions B and C are mapped, a third session A is released. *)
Definition three_sessions : World :=
  mkWorld {[ 0%nat := fresh_proxy OPEN (Some "A") ]}
          {[ "A" := 0%nat ]} ∅ [("B", ["C"])] ∅.

Lemma release_clears_sync_witness :
  (forall sid : string,
      sessionId (fresh_proxy OPEN (Some "A")) = Some sid -> sid <> "" ->
      sync (release (Socket_close None None) (fun _ => "") 0 three_sessions) = []
      /\ forall source : string,
          SyncService.Map_get source
            (sync (release (Socket_close None None) (fun _ => "") 0 three_sessions))
          = None)
  /\ (sessionId (fresh_proxy OPEN (Some "A")) = None ->
        sync (release (Socket_close None None) (fun _ => "") 0 three_sessions)
        = sync three_sessions).
Proof.
  apply (release_clears_sync (Socket_close None None) (fun _ => "") 0
           three_sessions (fresh_proxy OPEN (Some "A"))); reflexivity.
Defined.

(** The mapping between B and C is gone once A is released. *)
Example release_of_A_unmaps_B :
  SyncService.Map_get "B" (sync three_sessions) = Some ["C"]
  /\ sync (release (Socket_close None None) (fun _ => "") 0 three_sessions) = [].
Proof. split; reflexivity. Qed.

End WebsocketProxyFacts.

(** ** The recorder's clock *)

Module RecorderFacts.
Import Js ActionRecorder WebsocketProxy WebsocketProxyFacts.

Lemma truthy_Some (z : Z) : z <> 0 -> truthy (Some z) = true.
Proof. intros Hz. cbn. now rewrite (proj2 (Z.eqb_neq z 0)). Qed.

Lemma getElapsed_spec (now : Z) (r : ActionRecorder.t) :
  pausedAt r <> Some 0 ->
  getElapsed now r
  = now - startedAt r - pausedDuration r
    - match pausedAt r with Some pa => now - pa | None => 0 end.
Proof.
  intros Hp. unfold getElapsed. destruct (pausedAt r) as [pa|]; [|reflexivity].
  rewrite truthy_Some; [reflexivity|congruence].
Qed.

Lemma capture_messages (now : Z) (d : WsData) (r : ActionRecorder.t) :
  messages (capture now d r)
  = messages r ++ [mkMessage (getElapsed now r) (fst (encode d)) (snd (encode d))].
Proof. unfold capture. now destruct (encode d). Qed.

(** A frame that arrives while the recording is paused leaves the
    recorder as it is. *)
Lemma receive_paused (now : Z) (d : WsData) (p : WebsocketProxy) :
  recordingPaused p = true -> recorder (receive now d p) = recorder p.
Proof.
  intros Hp. unfold receive. rewrite Hp. now destruct (remoteSocket p).
Qed.

Lemma updateStatus_recordingPaused now state rid fp off p st :
  recordingPaused (fst (updateStatus now state rid fp off (p, st))) = recordingPaused p.
Proof.
  unfold updateStatus.
  change (session_of (set_currentState state p)) with (session_of p).
  destruct (session_of p); [|reflexivity].
  destruct state; try reflexivity.
  change (playback (set_currentState StateRun p)) with (playback p).
  destruct (playback p); [|reflexivity].
  now destruct (0 <? _).
Qed.

(** A pause that answers [record] has set the proxy's pause flag. *)
Lemma pause_record (now : Z) (p : WebsocketProxy) (st : gmap string Status)
    (p' : WebsocketProxy) (st' : gmap string Status) :
  pause now p st = Ok (p', st', ModeRecord) -> recordingPaused p' = true.
Proof.
  unfold pause.
  assert (Hrun : forall q, (let '(p0, st0) := q in
                            Ok (p0, st0, ModeRun) : result (WebsocketProxy * gmap string Status * Mode))
                           <> Ok (p', st', ModeRecord)).
  { intros [? ?]. discriminate. }
  destruct (currentState p); try discriminate;
    (destruct (recorder p) as [rec|], (recordingPaused p) eqn:Hrp;
     try (destruct (playback p); [|discriminate];
          destruct (playbackPaused p); [discriminate|];
          intros H; now apply Hrun in H);
     pose proof (updateStatus_recordingPaused now StatePause (JStr <$> activeRecordId
          (set_recorder (Some (ActionRecorder.pause now rec)) (set_recordingPaused true p)))
          None 0 (set_recorder (Some (ActionRecorder.pause now rec)) (set_recordingPaused true p)) st) as Hu;
     destruct (updateStatus _ _ _ _ _ _) as [p1 st1]; intros [= <- _]; exact Hu).
Qed.

(** The session of the specification's pause and resume scenario:
    recording starts at 0, frames arrive at 100, 400 and 600, the
    recording is paused at 200 and resumed at 500. *)
Definition pause_resume_scenario : result (list Z) :=
  let p := fresh_proxy OPEN (Some "A") in
  '(p, st, fs, _) ← startRecording (fun _ => "") 0 (Some "demo") p ∅ ∅;
  let p := receive 100 (WsBuffer [0; 0]) p in
  '(p, st, _) ← pause 200 p st;
  let p := receive 400 (WsBuffer [0; 1]) p in
  '(p, st, _) ← resume 500 p st;
  let p := receive 600 (WsBuffer [0; 2]) p in
  Ok (map at_ms (from_option messages [] (recorder p))).

(** C4.  A captured frame is recorded at
    [now - startedAt - pausedDuration - (now - pausedAt] if paused[)];
    a frame that reaches the proxy while its recording is paused is not
    captured; after a pause at [pt] and a resume at [rt] a frame at [t]
    is recorded at [(pt - startedAt - pausedDuration) + (t - rt)]; and
    in the scenario of the specification the recorded times are 100 and
    300.  A pause instant is a value of [Date.now()], which is not 0. *)
Theorem recorder_timestamps
    (r : ActionRecorder.t) (p p' : WebsocketProxy)
    (st st' : gmap string Status) (now pt rt t : Z) (d : WsData) :
  pausedAt r <> Some 0 ->
  pt <> 0 ->
  messages (capture now d r)
    = messages r
      ++ [mkMessage
            (now - startedAt r - pausedDuration r
             - match pausedAt r with Some pa => now - pa | None => 0 end)
            (fst (encode d)) (snd (encode d))]
  /\ (pause pt p st = Ok (p', st', ModeRecord) ->
        recorder (receive t d p') = recorder p')
  /\ (pausedAt r = None ->
        messages (capture t d (ActionRecorder.resume rt (ActionRecorder.pause pt r)))
        = messages r
          ++ [mkMessage ((pt - startedAt r - pausedDuration r) + (t - rt))
                        (fst (encode d)) (snd (encode d))])
  /\ pause_resume_scenario = Ok [100; 300].
Proof.
  intros Hp Hpt. split; [|split; [|split]].
  - now rewrite capture_messages, getElapsed_spec.
  - intros Hpause. apply receive_paused. now apply (pause_record pt p st p' st').
  - intros Hnone. rewrite capture_messages.
    assert (Hpause : ActionRecorder.pause pt r
                     = mk (id r) (remote r) (meta r) (startedAt r) (Some pt)
                          (pausedDuration r) (messages r)).
    { unfold ActionRecorder.pause. now rewrite Hnone. }
    rewrite Hpause. unfold ActionRecorder.resume. cbn [pausedAt].
    rewrite truthy_Some by assumption.
    cbn [messages]. unfold getElapsed. cbn [pausedAt startedAt pausedDuration].
    do 3 f_equal. lia.
  - vm_compute. reflexivity.
Qed.

Lemma recorder_timestamps_witness :
  messages (capture 600 (WsString "tap")
              (ActionRecorder.resume 500
                 (ActionRecorder.pause 200 (create 0 "demo" "ws://127.0.0.1:8886" None))))
  = [mkMessage 300 "tap" false].
Proof.
  refine (proj1 (proj2 (proj2
            (recorder_timestamps (create 0 "demo" "ws://127.0.0.1:8886" None)
               (fresh_proxy OPEN None) (fresh_proxy OPEN None) ∅ ∅
               100 200 500 600 (WsString "tap") _ _))) _).
  - discriminate.
  - lia.
  - reflexivity.
Defined.

End RecorderFacts.

(** ** The base64 round trip *)

Module Base64Facts.
Import Bytes Base64.

Lemma small_cases (P : Z -> Prop) (n : nat) :
  (forall k : nat, (k < n)%nat -> P (Z.of_nat k)) ->
  forall v : Z, 0 <= v < Z.of_nat n -> P v.
Proof.
  intros H v Hv. rewrite <- (Z2Nat.id v) by lia. apply H. lia.
Qed.

(** Every 6-bit value is read back from its character. *)
Lemma sextet_of_char (v : Z) :
  0 <= v < 64 ->
  Ascii.eqb (char_of v) "=" = false /\ value_of (char_of v) = Some v.
Proof.
  revert v. apply (small_cases _ 64). intros k Hk.
  do 64 (destruct k as [|k]; [split; reflexivity|]). lia.
Qed.

Lemma sextets_cons (v : Z) (s : string) :
  0 <= v < 64 -> sextets (String (char_of v) s) = v :: sextets s.
Proof.
  intros Hv. destruct (sextet_of_char v Hv) as [Hneq Hval].
  cbn [sextets]. now rewrite Hneq, Hval.
Qed.

Lemma sextets_pad : sextets "=" = [] /\ sextets "==" = [].
Proof. split; reflexivity. Qed.

Lemma list_ind3 {A} (P : list A -> Prop) :
  P [] -> (forall a, P [a]) -> (forall a b, P [a; b]) ->
  (forall a b c l, P l -> P (a :: b :: c :: l)) ->
  forall l, P l.
Proof.
  intros H0 H1 H2 H3.
  fix IH 1. intros [|a [|b [|c l]]]; [apply H0|apply H1|apply H2|apply H3, IH].
Qed.

(** [Buffer.from(buf.toString('base64'), 'base64')] has the bytes of
    [buf]. *)
Lemma decode_encode (bs : list Z) :
  Forall is_byte bs -> decode (encode bs) = bs.
Proof.
  unfold decode, is_byte. induction bs as [|a|a b|a b c l IH] using list_ind3;
    intros Hb.
  - reflexivity.
  - apply Forall_cons in Hb as [Ha _]. cbn [encode].
    rewrite !sextets_cons by (Z.div_mod_to_equations; lia).
    rewrite (proj2 sextets_pad). cbn [bytes_of]. f_equal.
    Z.div_mod_to_equations; lia.
  - apply Forall_cons in Hb as [Ha Hb]. apply Forall_cons in Hb as [Hb _].
    cbn [encode].
    rewrite !sextets_cons by (Z.div_mod_to_equations; lia).
    rewrite (proj1 sextets_pad). cbn [bytes_of].
    f_equal; [|f_equal]; Z.div_mod_to_equations; lia.
  - apply Forall_cons in Hb as [Ha Hb]. apply Forall_cons in Hb as [Hb Hc].
    apply Forall_cons in Hc as [Hc Hl].
    cbn [encode].
    rewrite !sextets_cons by (Z.div_mod_to_equations; lia).
    cbn [bytes_of]. rewrite (IH Hl).
    f_equal; [|f_equal; [|f_equal]]; Z.div_mod_to_equations; lia.
Qed.

End Base64Facts.

(** ** Persisting and loading a recording *)

Module PersistFacts.
Import Bytes Js ActionRecorder Base64Facts.

(** Entries in the order of their [at]. *)
Definition at_le (a b : RecordedMessage) : Prop := at_ms a <= at_ms b.

#[local] Instance at_le_trans : Transitive at_le.
Proof. intros a b c. unfold at_le. lia. Qed.

Lemma insert_by_at_perm (m : RecordedMessage) (l : list RecordedMessage) :
  insert_by_at m l ≡ₚ m :: l.
Proof.
  induction l as [|x l IH]; cbn [insert_by_at]; [reflexivity|].
  destruct (at_ms m <? at_ms x); [reflexivity|].
  rewrite IH. apply Permutation_swap.
Qed.

Lemma insert_by_at_sorted (m : RecordedMessage) (l : list RecordedMessage) :
  StronglySorted at_le l -> StronglySorted at_le (insert_by_at m l).
Proof.
  induction 1 as [|x l Hl IH Hx]; cbn [insert_by_at].
  - repeat constructor.
  - destruct (Z.ltb_spec (at_ms m) (at_ms x)) as [Hlt|Hge].
    + constructor; [now constructor|].
      constructor; [unfold at_le; lia|].
      eapply Forall_impl; [exact Hx|]. intros y. unfold at_le. lia.
    + constructor; [assumption|].
      rewrite insert_by_at_perm. constructor; [exact Hge|assumption].
Qed.

Lemma insert_by_at_last (m : RecordedMessage) (l : list RecordedMessage) :
  Forall (fun x => at_le x m) l -> insert_by_at m l = l ++ [m].
Proof.
  induction 1 as [|x l Hx Hl IH]; cbn [insert_by_at app]; [reflexivity|].
  unfold at_le in Hx. rewrite (proj2 (Z.ltb_ge _ _)) by lia. now rewrite IH.
Qed.

Lemma sort_from_sorted (l acc : list RecordedMessage) :
  StronglySorted at_le (acc ++ l) ->
  fold_left (fun acc m => insert_by_at m acc) l acc = acc ++ l.
Proof.
  revert acc. induction l as [|m l IH]; intros acc Hs; cbn [fold_left].
  - now rewrite app_nil_r.
  - rewrite insert_by_at_last.
    + rewrite IH; rewrite <- app_assoc; [reflexivity|assumption].
    + apply Forall_forall. intros x Hx.
      apply (StronglySorted_app_1_elem_of at_le acc (m :: l)); [assumption|assumption|left].
Qed.

(** A list in the order of its [at] values is left as it is. *)
Lemma sort_by_at_sorted_id (l : list RecordedMessage) :
  Sorted at_le l -> sort_by_at l = l.
Proof.
  intros Hs. apply (sort_from_sorted l []). cbn [app].
  apply Sorted_StronglySorted; [apply at_le_trans|assumption].
Qed.

Lemma sort_from_is_sorted (l acc : list RecordedMessage) :
  StronglySorted at_le acc ->
  StronglySorted at_le (fold_left (fun acc m => insert_by_at m acc) l acc).
Proof.
  revert acc. induction l as [|m l IH]; intros acc Hs; cbn [fold_left]; [assumption|].
  apply IH. now apply insert_by_at_sorted.
Qed.

Lemma sort_from_perm (l acc : list RecordedMessage) :
  fold_left (fun acc m => insert_by_at m acc) l acc ≡ₚ acc ++ l.
Proof.
  revert acc. induction l as [|m l IH]; intros acc; cbn [fold_left].
  - now rewrite app_nil_r.
  - rewrite IH, insert_by_at_perm. cbn [app]. apply Permutation_middle.
Qed.

(** [sort] always gives the same entries in the order of [at]. *)
Lemma sort_by_at_spec (l : list RecordedMessage) :
  Sorted at_le (sort_by_at l) /\ sort_by_at l ≡ₚ l.
Proof.
  split.
  - apply StronglySorted_Sorted, sort_from_is_sorted. constructor.
  - apply (sort_from_perm l []).
Qed.

(** The payload a frame stands for: several buffers count as their
    concatenation. *)
Definition payload_of (d : WsData) : WsData :=
  match d with
  | WsString s => WsString s
  | WsBuffer b => WsBuffer b
  | WsBuffers bs => WsBuffer (List.concat bs)
  | WsArrayBuffer b => WsBuffer b
  end.

Definition bytes_ok (d : WsData) : Prop :=
  match d with
  | WsString _ => True
  | WsBuffer b => Forall is_byte b
  | WsBuffers bs => Forall (Forall is_byte) bs
  | WsArrayBuffer b => Forall is_byte b
  end.

Lemma decode_encoded_frame (t : Z) (d : WsData) :
  bytes_ok d ->
  decodeMessage (mkMessage t (fst (encode d)) (snd (encode d))) = payload_of d.
Proof.
  destruct d as [s|b|bs|b];
    unfold decodeMessage; cbn [encode fst snd binary data payload_of bytes_ok];
    intros Hok; try reflexivity;
    rewrite decode_encode; try reflexivity; try assumption.
  now apply Forall_concat.
Qed.

Section Runtime.
Variable toISOString : Z -> string.
Variable Number_of_other : json -> Z.
Variable String_of_other : json -> string.

Lemma message_of_json (m : RecordedMessage) :
  message_of Number_of_other String_of_other (message_json m) = Ok m.
Proof. now destruct m. Qed.

Lemma messages_of_json (l : list RecordedMessage) :
  messages_of Number_of_other String_of_other (map message_json l) = Ok l.
Proof.
  induction l as [|m l IH]; cbn [map messages_of]; [reflexivity|].
  rewrite message_of_json, IH. reflexivity.
Qed.

Lemma recording_json_messages (r : ActionRecorder.t) :
  exists props,
    recording_json toISOString r = JObj props
    /\ prop_lookup props "messages" = Some (JArr (map message_json (messages r))).
Proof.
  unfold recording_json. eexists. split; [reflexivity|].
  destruct (meta r) as [[dv sr [nm|]]|]; reflexivity.
Qed.

(** C5.  For a recorder whose id is a normalized one and whose
    entries are in the order of their [at], [load] of the id reads
    the file [persist] wrote and gives the same entries, in the order
    of their [at]; and the entry [capture] makes of a frame decodes
    to the payload of the frame: the text of a string, the bytes of a
    binary frame through the base64 round trip. *)
Theorem load_persist_messages
    (r : ActionRecorder.t) (now : Z) (files : gmap string json) :
  normalizeId now (Some (id r)) = Some (id r) ->
  Sorted at_le (messages r) ->
  (exists file,
      load Number_of_other String_of_other now (id r)
           (fst (persist toISOString r files)) = Ok file
      /\ file_messages file = messages r
      /\ Sorted at_le (file_messages file))
  /\ (forall (t : Z) (d : WsData),
        bytes_ok d ->
        decodeMessage (mkMessage t (fst (encode d)) (snd (encode d)))
        = payload_of d).
Proof.
  intros Hid Hsorted. split; [|intros t d; apply decode_encoded_frame].
  unfold load, persist. rewrite Hid. cbn [fst].
  rewrite lookup_insert_eq.
  destruct (recording_json_messages r) as (props & -> & Hmsgs).
  cbn [get]. rewrite Hmsgs, messages_of_json. cbn [mbind result_bind].
  eexists. split; [reflexivity|].
  cbn [file_messages].
  rewrite sort_by_at_sorted_id by assumption. auto.
Qed.

(** Whatever the order in the file, the loaded entries are in the
    order of their [at]. *)
Lemma load_sorted (now : Z) (id : string) (files : gmap string json)
    (file : RecordingFile) :
  load Number_of_other String_of_other now id files = Ok file ->
  Sorted at_le (file_messages file).
Proof.
  unfold load. destruct (normalizeId now (Some id)); [|discriminate].
  destruct (files !! _) as [parsed|]; [|discriminate].
  destruct parsed; try discriminate.
  destruct (get _ "messages") as [[]|]; try discriminate.
  destruct (messages_of _ _ _) as [mapped|]; [|discriminate].
  intros [= <-]. cbn [file_messages]. apply sort_by_at_spec.
Qed.

End Runtime.

(** *** Ids made by [normalizeId] are normalized *)

(** Every character of the string passes the test. *)
Fixpoint forallb_string (p : ascii -> bool) (s : string) : bool :=
  match s with
  | EmptyString => true
  | String c s' => p c && forallb_string p s'
  end.

Lemma safe_not_white (c : ascii) : is_id_safe c = true -> is_white_space c = false.
Proof.
  unfold is_id_safe, is_white_space.
  destruct c as [[] [] [] [] [] [] [] []]; vm_compute; congruence.
Qed.

Lemma replace_unsafe_safe (s : string) :
  forallb_string is_id_safe (replace_unsafe s) = true.
Proof.
  induction s as [|c s IH]; cbn [replace_unsafe forallb_string]; [reflexivity|].
  rewrite IH, andb_true_r. destruct (is_id_safe c) eqn:E; [assumption|reflexivity].
Qed.

Lemma replace_unsafe_id (s : string) :
  forallb_string is_id_safe s = true -> replace_unsafe s = s.
Proof.
  induction s as [|c s IH]; cbn [replace_unsafe forallb_string]; [reflexivity|].
  intros [Hc Hs]%andb_true_iff. now rewrite Hc, IH.
Qed.

Lemma trim_end_safe (s : string) :
  forallb_string is_id_safe s = true -> trim_end s = s.
Proof.
  induction s as [|c s IH]; cbn [trim_end forallb_string]; [reflexivity|].
  intros [Hc Hs]%andb_true_iff. rewrite (IH Hs).
  destruct s; [|reflexivity]. now rewrite (safe_not_white c Hc).
Qed.

Lemma trim_safe (s : string) :
  forallb_string is_id_safe s = true -> trim s = s.
Proof.
  intros Hs. unfold trim.
  assert (Hstart : trim_start s = s).
  { destruct s as [|c s]; [reflexivity|]. cbn [trim_start forallb_string] in *.
    apply andb_true_iff in Hs as [Hc _]. now rewrite (safe_not_white c Hc). }
  rewrite Hstart. now apply trim_end_safe.
Qed.

(** An id that [normalizeId] made by replacing characters is left as it
    is by [normalizeId]. *)
Lemma normalizeId_replaced (now : Z) (t : string) :
  t <> "" -> replace_unsafe t <> "true" -> replace_unsafe t <> "1" ->
  normalizeId now (Some (replace_unsafe t)) = Some (replace_unsafe t).
Proof.
  intros Ht Htrue Hone. unfold normalizeId.
  rewrite (trim_safe _ (replace_unsafe_safe t)).
  assert (Hne : truthy_string (replace_unsafe t) = true) by (destruct t; [congruence|reflexivity]).
  rewrite Hne. cbn [negb].
  rewrite (proj2 (String.eqb_neq _ _) Htrue), (proj2 (String.eqb_neq _ _) Hone).
  cbn [orb]. now rewrite (replace_unsafe_id _ (replace_unsafe_safe t)).
Qed.

(** A recorder named [demo] that captured a text frame and a binary
    frame. *)
Definition demo_recorder : ActionRecorder.t :=
  capture 250 (WsBuffer [2; 0; 255])
    (capture 0 (WsString "hello") (create 0 "demo" "ws://127.0.0.1:8886" None)).

Lemma load_persist_messages_witness :
  (exists file,
      load (fun _ => 0) (fun _ => "") 1700000000000 (id demo_recorder)
           (fst (persist (fun _ => "") demo_recorder ∅)) = Ok file
      /\ file_messages file = messages demo_recorder
      /\ Sorted at_le (file_messages file))
  /\ (forall (t : Z) (d : WsData),
        bytes_ok d ->
        decodeMessage (mkMessage t (fst (encode d)) (snd (encode d)))
        = payload_of d).
Proof.
  apply (load_persist_messages (fun _ => "") (fun _ => 0) (fun _ => "")
           demo_recorder 1700000000000 ∅).
  - reflexivity.
  - repeat constructor. vm_compute. discriminate.
Defined.

End PersistFacts.

(** ** The schedule of the switch to Wi-Fi *)

Module WifiSwitchFacts.
Import Js WifiSwitch.

Lemma truthy_nonempty (s : string) : s <> "" -> truthy_string s = true.
Proof. destruct s; [congruence|reflexivity]. Qed.

Section Environment.
Variable adb : nat -> list string -> Z * ExecResult.
Variable getSerial : string -> option string.
Variable getDeviceIp : string -> option string.
Variable timeout_wins_tie : bool.

(** Whether the [n]-th command, an [adb connect], is taken as a
    success. *)
Definition attempt_ok (n : nat) (target : string) : bool :=
  match runAdbCommand (snd (adb n ["connect"; target])) "adb connect" with
  | Ok out => accepts out
  | Throw _ => false
  end.

Definition tcpip_ok (uuid : string) (port : Z) : bool :=
  match runAdbCommand (snd (adb 0 ["-s"; uuid; "tcpip"; pretty port])) "adb tcpip" with
  | Ok _ => true
  | Throw _ => false
  end.

Definition is_Ok {A} (r : result A) : bool :=
  match r with
  | Ok _ => true
  | Throw _ => false
  end.

Lemma attempts_step (n : nat) (target : string) (lastError : option string)
    (st : Run) :
  exists out,
    attempts adb (S n) target lastError st
    = if attempt_ok (calls st) target
      then (mkRun (clock st + fst (adb (calls st) ["connect"; target]))
                  (trace st ++ [Exec ["connect"; target]]) (S (calls st)),
            true, Some out)
      else attempts adb n target (Some out)
             (mkRun (clock st + fst (adb (calls st) ["connect"; target]) + 400)
                    (trace st ++ [Exec ["connect"; target]; Delay 400])
                    (S (calls st))).
Proof.
  cbn [attempts]. unfold exec, attempt_ok, delay.
  destruct (adb (calls st) ["connect"; target]) as [d r]. cbn [fst snd clock trace calls].
  destruct (runAdbCommand r "adb connect") as [out|msg].
  - exists out. rewrite <- app_assoc. now destruct (accepts out).
  - exists msg. now rewrite <- app_assoc.
Qed.

(** The run of [connectOverWifi]: the [tcpip] command, 400 ms, and
    up to three [connect] commands with 400 ms after each one that
    is not taken as a success. *)
Lemma connectOverWifi_run (uuid : string) (port : Z) (target : string) :
  let tcpip := Exec ["-s"; uuid; "tcpip"; pretty port] in
  let conn := Exec ["connect"; target] in
  let run := connectOverWifi adb uuid port target (mkRun 0 [] 0) in
  if tcpip_ok uuid port then
    trace (fst run)
    = [tcpip; Delay 400; conn]
      ++ (if attempt_ok 1 target then []
          else [Delay 400; conn]
               ++ (if attempt_ok 2 target then []
                   else [Delay 400; conn]
                        ++ (if attempt_ok 3 target then [] else [Delay 400])))
    /\ is_Ok (snd run)
       = attempt_ok 1 target || attempt_ok 2 target || attempt_ok 3 target
  else
    trace (fst run) = [tcpip] /\ is_Ok (snd run) = false.
Proof.
  cbv zeta. unfold connectOverWifi, tcpip_ok, exec, delay.
  cbn [calls clock trace].
  destruct (adb 0%nat ["-s"; uuid; "tcpip"; pretty port]) as [d0 r0]. cbn [snd].
  destruct (runAdbCommand r0 "adb tcpip") as [out0|msg0]; [|split; reflexivity].
  cbn [app].
  match goal with |- context [attempts adb 3 target ?e ?st] =>
    destruct (attempts_step 2 target e st) as [o1 ->] end.
  cbn [calls clock trace app].
  destruct (attempt_ok 1 target); [split; reflexivity|].
  match goal with |- context [attempts adb 2 target ?e ?st] =>
    destruct (attempts_step 1 target e st) as [o2 ->] end.
  cbn [calls clock trace app].
  destruct (attempt_ok 2 target); [split; reflexivity|].
  match goal with |- context [attempts adb 1 target ?e ?st] =>
    destruct (attempts_step 0 target e st) as [o3 ->] end.
  cbn [calls clock trace app attempts].
  destruct (attempt_ok 3 target); split; reflexivity.
Qed.

Lemma race_spec (run : Run * result unit) :
  (clock (fst run) < TIMEOUT_MS -> race timeout_wins_tie run = snd run)
  /\ (TIMEOUT_MS < clock (fst run) ->
        race timeout_wins_tie run
        = Throw "WiFi connection timed out after 10 seconds").
Proof.
  destruct run as [st r]. unfold race. cbn [fst snd]. split; intros H.
  - now rewrite (proj2 (Z.ltb_lt _ _)).
  - rewrite (proj2 (Z.ltb_ge _ _)) by lia.
    now rewrite (proj2 (Z.ltb_lt _ _)).
Qed.

(** The port of the switch: the port of the request when it is a
    positive number, else the port in the device id, else 5555. *)
Definition port_of (portRaw : option Z) (fromDevice : option Z) : Z :=
  match portRaw with
  | Some p => if 0 <? p then p else default 5555 fromDevice
  | None => default 5555 fromDevice
  end.

(** The port that follows the first colon of the device id. *)
Definition device_port (rest : list string) : option Z :=
  match rest with
  | seg :: _ =>
      match parseInt seg with
      | Some n => if n =? 0 then None else Some n
      | None => None
      end
  | [] => None
  end.

(** How a request is resolved to the serial for [adb -s], the port and
    the target: a device named by its serial is reached at its resolved
    address, a device named [host:port] at that host, under the serial
    [getSerial] finds for it. *)
Inductive resolves (deviceStr : string) (portRaw : option Z)
  : string -> Z -> string -> Prop :=
| by_serial (ip : string) :
    includes deviceStr ":" = false ->
    deviceStr <> "" ->
    getDeviceIp deviceStr = Some ip ->
    ip <> "" ->
    resolves deviceStr portRaw deviceStr (port_of portRaw None)
             (ip +:+ ":" +:+ pretty (port_of portRaw None))
| by_host (host : string) (rest : list string) (serial : string) :
    includes deviceStr ":" = true ->
    split_colon deviceStr = host :: rest ->
    host <> "" ->
    getSerial deviceStr = Some serial ->
    serial <> "" ->
    resolves deviceStr portRaw serial (port_of portRaw (device_port rest))
             (host +:+ ":" +:+ pretty (port_of portRaw (device_port rest))).

Lemma port_of_spec (portRaw fromDevice : option Z) :
  default (default 5555 fromDevice)
    match portRaw with
    | Some p => if 0 <? p then Some p else None
    | None => None
    end = port_of portRaw fromDevice.
Proof.
  unfold port_of. destruct portRaw as [p|]; [|reflexivity]. now destruct (0 <? p).
Qed.

Lemma device_port_spec (rest : list string) :
  (if truthy_string (default "" (rest !! 0%nat))
   then match parseInt (default "" (rest !! 0%nat)) with
        | Some n => if n =? 0 then None else Some n
        | None => None
        end
   else None) = device_port rest.
Proof.
  destruct rest as [|seg rest]; [reflexivity|]. cbn [lookup list_lookup default from_option id device_port].
  destruct seg; reflexivity.
Qed.

(** After the resolution, [processItem] is the raced run and the result
    made of it. *)
Lemma processItem_wifi_resolved
    (deviceStr : string) (portRaw : option Z) (prefs : gmap string ConnectType)
    (uuid : string) (port : Z) (target : string) :
  resolves deviceStr portRaw uuid port target ->
  processItem_wifi adb getSerial getDeviceIp timeout_wins_tie deviceStr portRaw prefs
  = let run := connectOverWifi adb uuid port target (mkRun 0 [] 0) in
    match race timeout_wins_tie run with
    | Throw msg =>
        (mkResult deviceStr wifi false
           (Some (or_else (Some msg) "Failed to switch connection")),
         fst run, prefs)
    | Ok _ => (mkResult deviceStr wifi true None, fst run, <[uuid := wifi]> prefs)
    end.
Proof.
  intros [ip Hcolon Hne Hip Hipne | host rest serial Hcolon Hsplit Hhost Hser Hserne];
    unfold processItem_wifi; rewrite Hcolon; cbn [andb].
  - rewrite port_of_spec. unfold is_empty.
    rewrite (truthy_nonempty deviceStr Hne). cbn [negb truthy_string].
    rewrite Hip, (truthy_nonempty ip Hipne). reflexivity.
  - rewrite Hsplit. cbn [head].
    change ((host :: rest) !! 1%nat) with (rest !! 0%nat).
    rewrite (device_port_spec rest), port_of_spec, Hser. unfold is_empty.
    rewrite (truthy_nonempty serial Hserne). cbn [negb default from_option id].
    rewrite (truthy_nonempty host Hhost). reflexivity.
Qed.

(** C9 (amended).  The request is resolved to a target [host:port] or
    [ip:port], with the port of the request, else of the device id, else
    5555; the controller runs [adb -s serial tcpip port], waits 400 ms,
    and runs [adb connect target] up to three times, waiting 400 ms after
    every attempt that is not a success; an attempt is a success when its
    output, in lower case, contains [connected to] or
    [already connected].  Before the 10 s deadline the switch succeeds
    exactly when [tcpip] and one of the attempts did; past the deadline
    the device gets the timeout error. *)
Theorem wifi_switch_schedule
    (deviceStr : string) (portRaw : option Z) (prefs : gmap string ConnectType)
    (uuid : string) (port : Z) (target : string) :
  resolves deviceStr portRaw uuid port target ->
  let tcpip := Exec ["-s"; uuid; "tcpip"; pretty port] in
  let conn := Exec ["connect"; target] in
  let done := processItem_wifi adb getSerial getDeviceIp timeout_wins_tie
                               deviceStr portRaw prefs in
  let res := fst (fst done) in
  let run := snd (fst done) in
  trace run
    = (if tcpip_ok uuid port
       then [tcpip; Delay 400; conn]
            ++ (if attempt_ok 1 target then []
                else [Delay 400; conn]
                     ++ (if attempt_ok 2 target then []
                         else [Delay 400; conn]
                              ++ (if attempt_ok 3 target then [] else [Delay 400])))
       else [tcpip])
  /\ (clock run < 10000 ->
        success res
        = tcpip_ok uuid port
          && (attempt_ok 1 target || attempt_ok 2 target || attempt_ok 3 target))
  /\ (10000 < clock run ->
        success res = false
        /\ error res = Some "WiFi connection timed out after 10 seconds")
  /\ accepts "connected to 192.168.1.7:5555" = true
  /\ accepts "already connected to 192.168.1.7:5555" = true
  /\ accepts "Connected To 192.168.1.7:5555" = true
  /\ accepts "failed to connect to 192.168.1.7:5555" = false.
Proof.
  intros Hres. cbv zeta. rewrite (processItem_wifi_resolved _ _ _ _ _ _ Hres).
  cbv zeta.
  pose proof (connectOverWifi_run uuid port target) as Hrun. cbv zeta in Hrun.
  pose proof (race_spec (connectOverWifi adb uuid port target (mkRun 0 [] 0)))
    as [Hbefore Hafter].
  set (run := connectOverWifi adb uuid port target (mkRun 0 [] 0)) in *.
  assert (Hfst : forall x y, fst (fst (match race timeout_wins_tie run with
                   | Ok _ => (x, fst run, y)
                   | Throw msg => (mkResult deviceStr wifi false
                                     (Some (or_else (Some msg) "Failed to switch connection")),
                                   fst run, prefs)
                   end)) = match race timeout_wins_tie run with
                           | Ok _ => x
                           | Throw msg => mkResult deviceStr wifi false
                                     (Some (or_else (Some msg) "Failed to switch connection"))
                           end).
  { intros x y. now destruct (race timeout_wins_tie run). }
  assert (Hsnd : forall x y, snd (fst (match race timeout_wins_tie run with
                   | Ok _ => (x, fst run, y)
                   | Throw msg => (mkResult deviceStr wifi false
                                     (Some (or_else (Some msg) "Failed to switch connection")),
                                   fst run, prefs)
                   end)) = fst run).
  { intros x y. now destruct (race timeout_wins_tie run). }
  rewrite Hfst, Hsnd.
  split; [|split; [|split]].
  - destruct (tcpip_ok uuid port); apply Hrun.
  - intros Hclock. rewrite (Hbefore Hclock).
    destruct (tcpip_ok uuid port); destruct Hrun as [_ Hok];
      destruct (snd run); cbn [is_Ok] in Hok; cbn [success andb]; congruence.
  - intros Hclock. rewrite (Hafter Hclock). split; reflexivity.
  - repeat split; reflexivity.
Qed.

End Environment.

(** An [adb] whose [tcpip] works, whose first [connect] is refused and
    whose second [connect] goes through. *)
Definition adb_second_attempt (n : nat) (args : list string) : Z * ExecResult :=
  match n with
  | 0%nat => (120, Resolved "restarting in TCP mode port: 5555" "")
  | 1%nat => (50, Resolved "" "failed to connect to 192.168.1.7:5555")
  | _ => (60, Resolved "connected to 192.168.1.7:5555" "")
  end.

Definition second_attempt_run : Run :=
  snd (fst (processItem_wifi adb_second_attempt (fun _ => None)
              (fun _ => Some "192.168.1.7") true "SER" None ∅)).

Lemma wifi_switch_schedule_witness :
  trace second_attempt_run
  = [Exec ["-s"; "SER"; "tcpip"; "5555"]; Delay 400;
     Exec ["connect"; "192.168.1.7:5555"]; Delay 400;
     Exec ["connect"; "192.168.1.7:5555"]].
Proof.
  refine (proj1 (wifi_switch_schedule adb_second_attempt (fun _ => None)
                   (fun _ => Some "192.168.1.7") true "SER" None ∅
                   "SER" 5555 "192.168.1.7:5555" _)).
  apply (by_serial _ (fun _ => Some "192.168.1.7") "SER" None "192.168.1.7").
  - reflexivity.
  - discriminate.
  - reflexivity.
  - discriminate.
Defined.

(** A device named [host:port]: the serial comes from [getSerial], the
    port from the device id. *)
Example wifi_switch_by_host :
  trace (snd (fst (processItem_wifi adb_second_attempt (fun _ => Some "SER")
                     (fun _ => None) true "10.0.0.2:5556" None ∅)))
  = [Exec ["-s"; "SER"; "tcpip"; "5556"]; Delay 400;
     Exec ["connect"; "10.0.0.2:5556"]; Delay 400;
     Exec ["connect"; "10.0.0.2:5556"]].
Proof. reflexivity. Qed.

(** C9 as stated fails: the wait between two [connect] attempts is
    400 ms, not 200 ms. *)
Lemma wifi_retry_waits_400 :
  trace second_attempt_run !! 3%nat = Some (Delay 400)
  /\ trace second_attempt_run !! 3%nat <> Some (Delay 200)
  /\ clock second_attempt_run = 120 + 400 + 50 + 400 + 60.
Proof. vm_compute. repeat split; congruence. Qed.

End WifiSwitchFacts.

(** ** Closing channels and receiving frames *)

Module MuxCloseFacts.
Import Bytes BytesFacts MuxMessage MuxMessageFacts MuxChannel MuxChannelFacts Js MuxClose.

(** Two little-endian bytes put together give the number back. *)
Lemma le_bytes_uint16 (v : Z) :
  0 <= v < 2 ^ 16 ->
  Z.lor (Z.land v 0xff) (Z.shiftl (Z.land (Z.shiftr v 8) 0xff) 8) = v.
Proof.
  intros Hv. pose proof (le_bytes_uint32 v) as H32.
  assert (H16 : Z.shiftr v 16 = 0)
    by (rewrite Z.shiftr_div_pow2 by lia; apply Z.div_small; lia).
  assert (H24 : Z.shiftr v 24 = 0)
    by (rewrite Z.shiftr_div_pow2 by lia; apply Z.div_small; lia).
  rewrite H16, H24 in H32. cbn in H32. rewrite Z.lor_0_r in H32.
  apply H32. lia.
Qed.

Lemma land_uint16_small (v : Z) : 0 <= v < 2 ^ 16 -> Z.land v 0xffff = v.
Proof.
  intros Hv. change 0xffff with (Z.ones 16).
  rewrite Z.land_ones by lia. apply Z.mod_small. lia.
Qed.

Lemma u16le_bytes (n : Z) :
  u16le n = Ok [Z.land (Z.land n 0xffff) 0xff;
                Z.land (Z.shiftr (Z.land n 0xffff) 8) 0xff].
Proof. reflexivity. Qed.

Lemma utf8_nonempty (s : string) : s <> "" -> utf8 s <> [].
Proof.
  destruct s as [|c s]; [congruence|]. intros _. cbn [utf8]. unfold utf8_unit.
  now destruct (_ <? _).
Qed.

(** The bytes [te.encode] gives for a close reason: none for a missing
    or empty one. *)
Definition reason_bytes (reason : option string) : Uint8Array :=
  match reason with
  | Some r => utf8 r
  | None => []
  end.

Lemma utf8_empty : utf8 "" = [].
Proof. reflexivity. Qed.

(** The layout of a close payload: the code as two little-endian
    bytes, and for a reason that is not empty its byte length as four
    little-endian bytes and its bytes. *)
Lemma buildClosePayload_layout (code : Z) (reason : option string) :
  buildClosePayload code reason
  = Ok ([Z.land (Z.land code 0xffff) 0xff;
         Z.land (Z.shiftr (Z.land code 0xffff) 8) 0xff]
        ++ match reason_bytes reason with
           | [] => []
           | bytes => le32 (to_uint32 (Z.of_nat (length bytes))) ++ bytes
           end).
Proof.
  unfold buildClosePayload, reason_bytes.
  destruct reason as [[|c r]|]; try reflexivity.
  cbn [truthy_string].
  destruct (utf8 (String c r)) as [|b bytes] eqn:E.
  { now apply utf8_nonempty in E. }
  cbn [length Nat.eqb]. rewrite u16le_bytes, u32le_bytes.
  cbn [mbind result_bind]. rewrite concat_spec. cbn [List.concat].
  now rewrite app_nil_r.
Qed.

Section Decoder.
Variable td_decode : Uint8Array -> string.

(** What [parseClosePayload] reads from the payload [buildClosePayload]
    made. *)
Lemma parse_built_payload (code : Z) (reason : option string) (payload : Uint8Array) :
  0 <= code < 2 ^ 16 ->
  Z.of_nat (length (reason_bytes reason)) < 2 ^ 32 ->
  buildClosePayload code reason = Ok payload ->
  parseClosePayload td_decode payload
  = (code, match reason_bytes reason with
           | [] => ""
           | bytes => td_decode bytes
           end).
Proof.
  intros Hcode Hlen. rewrite buildClosePayload_layout. intros [= <-].
  rewrite (land_uint16_small code Hcode).
  unfold parseClosePayload.
  revert Hlen. destruct (reason_bytes reason) as [|b bytes]; intros Hlen.
  - cbn. now rewrite le_bytes_uint16.
  - cbn [length] in Hlen.
    rewrite (to_uint32_small (Z.of_nat (S (length bytes)))) by lia.
    cbn [app length le32]. cbn [Nat.leb Nat.ltb].
    unfold getUint16le, getUint32le.
    cbn [lookup list_lookup mbind result_bind].
    rewrite le_bytes_uint16 by assumption.
    rewrite le_bytes_uint32 by lia.
    unfold Uint8Array_view.
    replace (Z.min _ _) with (Z.of_nat (S (length bytes))) by (cbn [length]; lia).
    rewrite (proj2 (Z.ltb_ge _ 0)) by lia.
    cbn [orb length].
    rewrite (proj2 (Z.ltb_ge _ _)) by lia.
    rewrite Nat2Z.id. cbn [drop].
    change (S (length bytes)) with (length (b :: bytes)). now rewrite firstn_all.
Qed.

(** X1.  A close payload built from a code below 2^16 and a reason is
    read back by [parseClosePayload] as the same code and the decoded
    bytes of the reason; without a reason, or with an empty one, the
    payload is the two bytes of the code and the reason read is empty. *)
Theorem close_payload_roundtrip (code : Z) (reason : option string) :
  0 <= code < 2 ^ 16 ->
  Z.of_nat (length (reason_bytes reason)) < 2 ^ 32 ->
  exists payload,
    buildClosePayload code reason = Ok payload
    /\ parseClosePayload td_decode payload
       = (code, match reason_bytes reason with
                | [] => ""
                | bytes => td_decode bytes
                end)
    /\ (reason_bytes reason = [] -> length payload = 2%nat)
    /\ (reason_bytes reason <> [] ->
          length payload = (6 + length (reason_bytes reason))%nat).
Proof.
  intros Hcode Hlen. eexists. split; [apply buildClosePayload_layout|].
  split.
  - apply parse_built_payload; [assumption..|apply buildClosePayload_layout].
  - destruct (reason_bytes reason) as [|b bytes]; split; intros H;
      try congruence; cbn; rewrite ?length_app; cbn; lia.
Qed.

End Decoder.

(** A decoder for the witnesses: every byte is taken as a code unit. *)
Definition latin1 (bytes : Uint8Array) : string :=
  fold_right (fun b s => String (ascii_of_N (Z.to_N b)) s) EmptyString bytes.

Lemma close_payload_roundtrip_witness :
  exists payload,
    buildClosePayload 4010 (Some "bye") = Ok payload
    /\ parseClosePayload latin1 payload = (4010, "bye")
    /\ (reason_bytes (Some "bye") = [] -> length payload = 2%nat)
    /\ (reason_bytes (Some "bye") <> [] -> length payload = 9%nat).
Proof.
  apply (close_payload_roundtrip latin1 4010 (Some "bye")).
  - lia.
  - vm_compute. reflexivity.
Defined.

Section Close.
Variable td_decode : Uint8Array -> string.
Variable WebSocket_close : WebSocket -> Z -> option string -> result WebSocket.

Lemma open_or_connecting (s : Z) :
  s = OPEN \/ s = CONNECTING -> (s =? CLOSED) || (s =? CLOSING) = false.
Proof. now intros [-> | ->]. Qed.

(** X2.  [close(code, reason)] on a child of an open root puts one
    [CloseChannel] frame for the child's id on the socket, from which
    [parse] and [parseClosePayload] read the code and the reason back;
    the child ends CLOSED and is taken off its parent's channels, the
    [close] event is clean exactly for the code 1000, and a second
    [close] does nothing more. *)
Theorem child_close_sends_frame
    (sent : list data) (rf f : fields) (c : Z) (reason : option string) :
  readyState rf = OPEN ->
  0 < id f < 2 ^ 32 ->
  readyState f = OPEN \/ readyState f = CONNECTING ->
  0 <= c < 2 ^ 16 ->
  Z.of_nat (length (reason_bytes reason)) < 2 ^ 32 ->
  exists payload,
    let frame := code CloseChannel :: le32 (id f) ++ payload in
    let r := close WebSocket_close
               (ChildChannel (RootChannel (mkWebSocket OPEN sent) rf) f)
               (Some c) reason in
    r = mkClosed
          (ChildChannel
             (RootChannel (mkWebSocket OPEN (sent ++ [Binary frame]))
                          (unregister rf (id f)))
             (set_readyState f CLOSED))
          (Some (mkCloseEvent c (default "" reason) (c =? 1000)))
          None
    /\ parse frame = Ok (mk (code CloseChannel) (id f) payload)
    /\ parseClosePayload td_decode payload
       = (c, match reason_bytes reason with
             | [] => ""
             | bytes => td_decode bytes
             end)
    /\ close WebSocket_close (after r) (Some c) reason = mkClosed (after r) None None.
Proof.
  intros Hroot Hid Hstate Hc Hlen.
  destruct (buildClosePayload c reason) as [payload|] eqn:Hpayload;
    [|now rewrite buildClosePayload_layout in Hpayload].
  exists payload. cbv zeta.
  assert (Hclose :
    close WebSocket_close (ChildChannel (RootChannel (mkWebSocket OPEN sent) rf) f)
          (Some c) reason
    = mkClosed
        (ChildChannel
           (RootChannel
              (mkWebSocket OPEN (sent ++ [Binary (code CloseChannel :: le32 (id f) ++ payload)]))
              (unregister rf (id f)))
           (set_readyState f CLOSED))
        (Some (mkCloseEvent c (default "" reason) (c =? 1000))) None).
  { unfold close. change (default 1000 (Some c)) with c. cbn [close_ fields_of].
    rewrite (open_or_connecting _ Hstate).
    rewrite (proj2 (Z.eqb_neq (MuxChannel.id f) 0)) by lia. cbn [negb].
    rewrite Hpayload. cbn [mbind result_bind].
    rewrite createBuffer_layout. cbn [mbind result_bind sendData default from_option].
    unfold root_send. rewrite Hroot. cbn.
    rewrite to_uint32_small by lia. reflexivity. }
  rewrite Hclose. split; [reflexivity|]. split; [apply parse_frame; lia|].
  split; [now apply parse_built_payload|].
  cbn [after]. unfold close. change (default 1000 (Some c)) with c.
  cbn [close_ fields_of set_readyState readyState]. reflexivity.
Qed.

(** X3.  [close] on a child whose root is CLOSING or CLOSED throws the
    error of the send: the child still ends CLOSED, but no [close]
    event is dispatched and its parent keeps it registered. *)
Theorem child_close_under_closed_root
    (ws : WebSocket) (rf f : fields) (c : option Z) (reason : option string) :
  readyState rf = CLOSING \/ readyState rf = CLOSED ->
  id f <> 0 ->
  readyState f = OPEN \/ readyState f = CONNECTING ->
  close WebSocket_close (ChildChannel (RootChannel ws rf) f) c reason
  = mkClosed (ChildChannel (RootChannel ws rf) (set_readyState f CLOSED)) None
             (Some "Socket is already in CLOSING or CLOSED state").
Proof.
  intros Hroot Hid Hstate. unfold close. cbn [close_ fields_of].
  rewrite (open_or_connecting _ Hstate).
  rewrite (proj2 (Z.eqb_neq (MuxChannel.id f) 0)) by assumption. cbn [negb].
  rewrite buildClosePayload_layout. cbn [mbind result_bind].
  rewrite createBuffer_layout. cbn [mbind result_bind sendData].
  unfold root_send. now destruct Hroot as [-> | ->].
Qed.

(** X4.  A data, nested-data or close frame for a channel id that is
    not registered is dropped: nothing is dispatched and the channel's
    state is as before. *)
Theorem unregistered_frames_dropped
    (f : fields) (ty : MuxMessageType) (cid : Z) (p frame : Uint8Array) :
  ty <> CreateChannel ->
  0 <= cid < 2 ^ 32 ->
  cid ∉ channels f ->
  createBuffer (code ty) cid (Some p) = Ok frame ->
  onMessage td_decode f (ArrayBuffer frame) = Ok (f, []).
Proof.
  intros Hty Hcid Hout Hframe.
  assert (frame = code ty :: le32 cid ++ p) as ->.
  { rewrite createBuffer_layout, code_byte, to_uint32_small in Hframe by assumption.
    now injection Hframe as <-. }
  unfold onMessage. rewrite parse_frame by assumption.
  cbn [mbind result_bind type channelId].
  rewrite (bool_decide_eq_false_2 _ Hout).
  destruct ty; try reflexivity. congruence.
Qed.

(** X5.  The frame of a [close(code, reason)], received for a
    registered channel id, closes that child with the code and the
    reason sent, cleanly exactly for the code 1000, and takes it off
    the channels; the same frame received again is dropped. *)
Theorem close_frame_closes_child
    (f : fields) (cid c : Z) (reason : option string) (payload : Uint8Array) :
  0 <= cid < 2 ^ 32 ->
  cid ∈ channels f ->
  0 <= c < 2 ^ 16 ->
  Z.of_nat (length (reason_bytes reason)) < 2 ^ 32 ->
  buildClosePayload c reason = Ok payload ->
  exists frame,
    createBuffer (code CloseChannel) cid (Some payload) = Ok frame
    /\ onMessage td_decode f (ArrayBuffer frame)
       = Ok (unregister f cid,
             [ChildClosed cid c
                (match reason_bytes reason with
                 | [] => ""
                 | bytes => td_decode bytes
                 end) (c =? 1000)])
    /\ (cid ∉ channels (unregister f cid))
    /\ onMessage td_decode (unregister f cid) (ArrayBuffer frame)
       = Ok (unregister f cid, []).
Proof.
  intros Hcid Hin Hc Hlen Hpayload. eexists. split; [apply createBuffer_layout|].
  rewrite to_uint32_small by assumption. change (default [] (Some payload)) with payload.
  assert (Hout : cid ∉ channels (unregister f cid)).
  { cbn [unregister channels]. intros [_ Hne]%elem_of_difference.
    apply Hne. now apply elem_of_singleton. }
  unfold onMessage. rewrite !parse_frame by assumption.
  cbn [mbind result_bind type channelId MuxMessage.payload].
  rewrite (bool_decide_eq_true_2 _ Hin), (bool_decide_eq_false_2 _ Hout).
  cbn. rewrite (parse_built_payload td_decode c reason payload Hc Hlen Hpayload).
  auto.
Qed.

(** X6.  What [send] puts on the socket for a channel two levels below
    an open root is delivered by [onMessage]: the channel that holds the
    parent's id hands the inner frame to the emitter of that child, and
    the child, which holds the sender's id, dispatches the bytes sent
    (for a string, its decoded bytes) as a [message] of that id. *)
Theorem sent_frames_are_delivered
    (sent : list data) (rf f1 f2 R F1 : fields) (d : data) :
  readyState rf = OPEN ->
  0 <= id f1 < 2 ^ 32 ->
  0 <= id f2 < 2 ^ 32 ->
  id f1 ∈ channels R ->
  id f2 ∈ channels F1 ->
  exists frame inner,
    send (ChildChannel (ChildChannel (RootChannel (mkWebSocket OPEN sent) rf) f1) f2) d
    = Ok (ChildChannel
            (ChildChannel (RootChannel (mkWebSocket OPEN (sent ++ [Binary frame])) rf) f1)
            f2)
    /\ onMessage td_decode R (ArrayBuffer frame)
       = Ok (R, [EmitterMessage (id f1) inner])
    /\ onMessage td_decode F1 (ArrayBuffer inner)
       = Ok (F1, [match d with
                  | Binary u8 => MessageBinary (id f2) u8
                  | Text s => MessageText (id f2) (td_decode (utf8 s))
                  end]).
Proof.
  intros Hroot Hid1 Hid2 Hin1 Hin2.
  exists (code Data :: le32 (id f1)
            ++ (match d with
                | Binary _ => code RawBinaryData
                | Text _ => code RawStringData
                end :: le32 (id f2)
                ++ match d with Binary u8 => u8 | Text s => utf8 s end)).
  exists (match d with
          | Binary _ => code RawBinaryData
          | Text _ => code RawStringData
          end :: le32 (id f2)
          ++ match d with Binary u8 => u8 | Text s => utf8 s end).
  split; [|split].
  - cbn [send]. destruct d as [s|u8]; rewrite createBuffer_layout;
      cbn [mbind result_bind sendData]; rewrite createBuffer_layout;
      cbn [mbind result_bind default from_option];
      unfold root_send; rewrite Hroot; cbn;
      rewrite !to_uint32_small by assumption; reflexivity.
  - unfold onMessage. rewrite parse_frame by assumption.
    cbn [mbind result_bind type channelId MuxMessage.payload].
    rewrite (bool_decide_eq_true_2 _ Hin1). reflexivity.
  - unfold onMessage. rewrite parse_frame by assumption.
    cbn [mbind result_bind type channelId MuxMessage.payload].
    rewrite (bool_decide_eq_true_2 _ Hin2). now destruct d.
Qed.

End Close.

(** A browser socket that accepts every [close]. *)
Definition closing_socket (ws : WebSocket) (c : Z) (reason : option string)
  : result WebSocket := Ok (mkWebSocket CLOSING (ws_sent ws)).

Lemma child_close_sends_frame_witness :
  after (close closing_socket
           (ChildChannel (RootChannel (mkWebSocket OPEN []) (mkFields 0 OPEN {[7]} [] 7))
                         (mkFields 7 OPEN ∅ [] 0))
           (Some 1000) None)
  = ChildChannel
      (RootChannel (mkWebSocket OPEN [Binary [8; 7; 0; 0; 0; 232; 3]])
                   (unregister (mkFields 0 OPEN {[7]} [] 7) 7))
      (mkFields 7 CLOSED ∅ [] 0).
Proof.
  destruct (child_close_sends_frame latin1 closing_socket []
              (mkFields 0 OPEN {[7]} [] 7) (mkFields 7 OPEN ∅ [] 0) 1000 None)
    as (payload & Hclose & _ & Hpayload & _).
  - reflexivity.
  - cbn. lia.
  - now left.
  - lia.
  - cbn. lia.
  - cbv zeta in Hclose. rewrite Hclose. cbn [after].
    assert (payload = [232; 3]) as ->; [|reflexivity].
    apply (f_equal after) in Hclose. cbn [after] in Hclose.
    vm_compute in Hclose. now injection Hclose as <-.
Defined.

Lemma child_close_under_closed_root_witness :
  close closing_socket
    (ChildChannel (wrap CLOSED) (mkFields 7 OPEN ∅ [] 0)) None (Some "bye")
  = mkClosed (ChildChannel (wrap CLOSED) (mkFields 7 CLOSED ∅ [] 0)) None
             (Some "Socket is already in CLOSING or CLOSED state").
Proof.
  apply (child_close_under_closed_root closing_socket (mkWebSocket CLOSED [])
           (mkFields 0 CLOSED ∅ [] 0) (mkFields 7 OPEN ∅ [] 0) None (Some "bye")).
  - now right.
  - discriminate.
  - now left.
Defined.

Lemma unregistered_frames_dropped_witness :
  onMessage latin1 (mkFields 0 OPEN {[1]} [] 1) (ArrayBuffer [16; 2; 0; 0; 0; 9; 9])
  = Ok (mkFields 0 OPEN {[1]} [] 1, []).
Proof.
  apply (unregistered_frames_dropped latin1 (mkFields 0 OPEN {[1]} [] 1)
           RawBinaryData 2 [9; 9]).
  - discriminate.
  - lia.
  - cbn. set_solver.
  - reflexivity.
Defined.

Lemma close_frame_closes_child_witness :
  exists frame,
    createBuffer (code CloseChannel) 1 (Some [160; 15]) = Ok frame
    /\ onMessage latin1 (mkFields 0 OPEN {[1]} [] 1) (ArrayBuffer frame)
       = Ok (unregister (mkFields 0 OPEN {[1]} [] 1) 1, [ChildClosed 1 4000 "" false])
    /\ (1 ∉ channels (unregister (mkFields 0 OPEN {[1]} [] 1) 1))
    /\ onMessage latin1 (unregister (mkFields 0 OPEN {[1]} [] 1) 1) (ArrayBuffer frame)
       = Ok (unregister (mkFields 0 OPEN {[1]} [] 1) 1, []).
Proof.
  apply (close_frame_closes_child latin1 (mkFields 0 OPEN {[1]} [] 1) 1 4000 None [160; 15]).
  - lia.
  - cbn. set_solver.
  - lia.
  - cbn. lia.
  - reflexivity.
Defined.

Lemma sent_frames_are_delivered_witness :
  exists frame inner,
    send (ChildChannel (ChildChannel (wrap OPEN) (mkFields 1 OPEN {[2]} [] 2))
                       (mkFields 2 OPEN ∅ [] 0)) (Text "hi")
    = Ok (ChildChannel
            (ChildChannel (RootChannel (mkWebSocket OPEN ([] ++ [Binary frame]))
                                       (mkFields 0 OPEN ∅ [] 0))
                          (mkFields 1 OPEN {[2]} [] 2))
            (mkFields 2 OPEN ∅ [] 0))
    /\ onMessage latin1 (mkFields 0 OPEN {[1]} [] 1) (ArrayBuffer frame)
       = Ok (mkFields 0 OPEN {[1]} [] 1, [EmitterMessage 1 inner])
    /\ onMessage latin1 (mkFields 1 OPEN {[2]} [] 2) (ArrayBuffer inner)
       = Ok (mkFields 1 OPEN {[2]} [] 2, [MessageText 2 "hi"]).
Proof.
  apply (sent_frames_are_delivered latin1 [] (mkFields 0 OPEN ∅ [] 0)
           (mkFields 1 OPEN {[2]} [] 2) (mkFields 2 OPEN ∅ [] 0)
           (mkFields 0 OPEN {[1]} [] 1) (mkFields 1 OPEN {[2]} [] 2) (Text "hi")).
  - reflexivity.
  - cbn. lia.
  - cbn. lia.
  - cbn. set_solver.
  - cbn. set_solver.
Defined.

(** *** Allocation of channel ids *)

(** Every registered id is at most [nextId]: true of a new root, and
    kept by [createChannel], by a peer's announcement and by the removal
    of a channel. *)
Definition ids_bounded (f : fields) : Prop :=
  forall i, i ∈ channels f -> i <= nextId f.

Lemma unregister_bounded (f : fields) (j : Z) :
  ids_bounded f -> ids_bounded (unregister f j).
Proof.
  intros Hb i. cbn [unregister channels nextId].
  intros [Hi _]%elem_of_difference. now apply Hb.
Qed.

(** X7.  On an open root whose registered ids are all at most [nextId],
    [createChannel] returns [nextId + 1], which was not registered,
    registers it, and sends the [CreateChannel] frame with the init data;
    the bound on the ids is kept, also when a channel is closed, so the
    id of a closed channel is not the next one handed out. *)
Theorem createChannel_allocates_above
    (sent : list data) (f : fields) (initData : Uint8Array) :
  readyState f = OPEN ->
  ids_bounded f ->
  0 <= nextId f + 1 < 2 ^ 32 ->
  let n := nextId f + 1 in
  createChannel (RootChannel (mkWebSocket OPEN sent) f) initData
  = Some (Ok (RootChannel
                (mkWebSocket OPEN
                   (sent ++ [Binary (code CreateChannel :: le32 n ++ initData)]))
                (register f n n), n))
  /\ (n ∉ channels f)
  /\ ids_bounded (register f n n)
  /\ forall j, j ∈ channels (register f n n) ->
       ids_bounded (unregister (register f n n) j)
       /\ getNextId (unregister (register f n n) j) = Some (n + 1, Ok (n + 1))
       /\ j < n + 1.
Proof.
  intros Hopen Hb Hn n.
  assert (Hreg : ids_bounded (register f n n)).
  { intros i. cbn [register channels nextId].
    rewrite elem_of_union, elem_of_singleton. intros [->|Hi%Hb]; subst n; lia. }
  split; [|split; [|split]].
  - unfold createChannel. cbn [fields_of]. rewrite Hopen. cbn [orb Z.eqb].
    change ((OPEN =? CLOSING) || (OPEN =? CLOSED)) with false. cbn iota.
    rewrite (getNextId_no_wrap f Hb). cbn [mbind option_bind with_fields].
    rewrite createBuffer_layout. cbn [mbind result_bind sendData].
    unfold root_send. cbn [register readyState]. rewrite Hopen.
    change (OPEN =? OPEN) with true. cbn iota.
    unfold WebSocket_send. cbn [ws_readyState ws_sent].
    change (OPEN =? CONNECTING) with false. change (OPEN =? OPEN) with true.
    cbn iota. cbn [mbind result_bind].
    fold n. rewrite to_uint32_small by assumption.
    reflexivity.
  - intros Hin%Hb. subst n. lia.
  - exact Hreg.
  - intros j Hj. split; [now apply unregister_bounded|]. split.
    + apply (getNextId_no_wrap (unregister (register f n n) j)).
      now apply unregister_bounded.
    + apply Hreg in Hj. cbn [register nextId] in Hj. lia.
Qed.

Lemma createChannel_allocates_above_witness :
  createChannel (wrap OPEN) [7]
  = Some (Ok (RootChannel (mkWebSocket OPEN [Binary [4; 1; 0; 0; 0; 7]])
                          (register (mkFields 0 OPEN ∅ [] 0) 1 1), 1)).
Proof.
  refine (proj1 (createChannel_allocates_above [] (mkFields 0 OPEN ∅ [] 0) [7] _ _ _)).
  - reflexivity.
  - intros i Hi. cbn in Hi. now apply not_elem_of_empty in Hi.
  - cbn. lia.
Defined.

End MuxCloseFacts.

(** ** The scroll, key and text messages *)

Module ControlMessagesFacts.
Import Bytes BytesFacts MuxChannel ByteHelpers Control ControlFacts ControlMessages.

Lemma to_int32_mod (n : Z) : to_int32 n mod 2 ^ 32 = n mod 2 ^ 32.
Proof.
  unfold to_int32. rewrite Zminus_mod_idemp_l. f_equal. lia.
Qed.

Lemma to_int32_small (n : Z) : - 2 ^ 31 <= n < 2 ^ 31 -> to_int32 n = n.
Proof. intros Hn. unfold to_int32. rewrite Z.mod_small; lia. Qed.

(** A byte of the low 32 bits of a number is a byte of the number. *)
Lemma byte_mod32 (a k : Z) :
  0 <= k <= 24 -> (a mod 2 ^ 32 / 2 ^ k) mod 2 ^ 8 = (a / 2 ^ k) mod 2 ^ 8.
Proof.
  intros Hk. rewrite <- !Z.shiftr_div_pow2 by lia.
  rewrite <- !Z.land_ones by lia. apply Z.bits_inj'. intros n Hn.
  rewrite !Z.land_spec, !Z.shiftr_spec by lia.
  destruct (Z.ltb_spec n 8).
  - rewrite Z.land_spec, (Z.ones_spec_low 32) by lia. now rewrite andb_true_r.
  - rewrite !(Z.ones_spec_high 8) by lia. now rewrite !andb_false_r.
Qed.

Lemma be32_mod (a b : Z) : a mod 2 ^ 32 = b mod 2 ^ 32 -> be32 a = be32 b.
Proof.
  intros H. unfold be32.
  assert (B : forall k, 0 <= k <= 24 -> (a / 2 ^ k) mod 2 ^ 8 = (b / 2 ^ k) mod 2 ^ 8).
  { intros k Hk. rewrite <- (byte_mod32 a k), <- (byte_mod32 b k) by lia.
    now rewrite H. }
  rewrite (B 24), (B 16), (B 8) by lia. do 3 f_equal.
  pose proof (B 0 ltac:(lia)) as B0. change (2 ^ 0) with 1 in B0.
  rewrite !Z.div_1_r in B0. now rewrite B0.
Qed.

Lemma scroll_bytes (x y screenW screenH hScroll vScroll : Z) :
  encodeScrollMessage x y screenW screenH hScroll vScroll
  = Ok ([3] ++ be32 (x mod 2 ^ 32) ++ be32 (y mod 2 ^ 32)
        ++ be16 (screenW mod 2 ^ 16) ++ be16 (screenH mod 2 ^ 16)
        ++ be32 (to_int32 hScroll) ++ be32 (to_int32 vScroll)).
Proof.
  unfold encodeScrollMessage, setInt32.
  cbv -[Z.land Z.shiftr to_uint32 to_int32 Z.modulo Z.div Z.pow].
  rewrite ?land_byte, ?land_byte0, ?to_uint32_mod, ?land_uint16 by lia.
  reflexivity.
Qed.

(** X8.  The scroll message is 21 bytes, every one of them in a field:
    the type byte 3, x and y as big-endian [u32], the screen width and
    height as big-endian [u16], and the two scroll amounts as big-endian
    32-bit two's complement; a scroll of -1 is sent as [FF FF FF FF]. *)
Theorem encodeScrollMessage_layout (x y screenW screenH hScroll vScroll : Z) :
  exists buf,
    encodeScrollMessage x y screenW screenH hScroll vScroll = Ok buf
    /\ buf = [3] ++ be32 (x mod 2 ^ 32) ++ be32 (y mod 2 ^ 32)
             ++ be16 (screenW mod 2 ^ 16) ++ be16 (screenH mod 2 ^ 16)
             ++ be32 (hScroll mod 2 ^ 32) ++ be32 (vScroll mod 2 ^ 32)
    /\ length buf = 21%nat
    /\ be32 ((-1) mod 2 ^ 32) = [255; 255; 255; 255].
Proof.
  eexists. split; [apply scroll_bytes|].
  rewrite (be32_mod (to_int32 hScroll) (hScroll mod 2 ^ 32)),
          (be32_mod (to_int32 vScroll) (vScroll mod 2 ^ 32))
    by (rewrite to_int32_mod; now rewrite Z.mod_mod by lia).
  repeat split.
Qed.

Lemma keycode_bytes (action keycode : Z) (repeat meta : option Z) :
  encodeKeycodeMessage action keycode repeat meta
  = Ok ([0] ++ [action mod 2 ^ 8] ++ be32 (keycode mod 2 ^ 32)
        ++ be32 (default 0 repeat mod 2 ^ 32) ++ be32 (default 0 meta mod 2 ^ 32)).
Proof.
  unfold encodeKeycodeMessage.
  cbv -[Z.land Z.shiftr to_uint32 Z.modulo Z.div Z.pow default].
  rewrite ?land_byte, ?land_byte0, ?to_uint32_mod, ?land_uint16 by lia.
  rewrite (Z.mod_mod action) by lia.
  reflexivity.
Qed.

(** X9.  The key message is 14 bytes: the type byte 0, the action
    byte, and the key code, the repeat count and the meta state as
    big-endian [u32]; a repeat count or a meta state left out is sent
    as 0. *)
Theorem encodeKeycodeMessage_layout (action keycode : Z) (repeat meta : option Z) :
  exists buf,
    encodeKeycodeMessage action keycode repeat meta = Ok buf
    /\ buf = [0] ++ [action mod 2 ^ 8] ++ be32 (keycode mod 2 ^ 32)
             ++ be32 (default 0 repeat mod 2 ^ 32)
             ++ be32 (default 0 meta mod 2 ^ 32)
    /\ length buf = 14%nat
    /\ encodeKeycodeMessage action keycode None None
       = encodeKeycodeMessage action keycode (Some 0) (Some 0).
Proof.
  eexists. split; [apply keycode_bytes|]. repeat split.
Qed.

(** X10.  The text message is the type byte 1, the UTF-8 bytes of the
    text and a final zero byte; a missing text gives the two bytes
    [01 00]. *)
Theorem encodeTextMessage_layout (text : option string) :
  encodeTextMessage text = Ok ([1] ++ utf8 (default "" text) ++ [0])
  /\ encodeTextMessage None = Ok [1; 0].
Proof.
  split; [|reflexivity].
  unfold encodeTextMessage. set (bytes := utf8 (default "" text)).
  replace (alloc (1 + length bytes + 1))
    with (alloc 1 ++ alloc (length bytes) ++ alloc 1)
    by (now rewrite <- !alloc_add, Nat.add_assoc).
  change (store (alloc 1 ++ alloc (length bytes) ++ alloc 1) 0
                (ControlMessageType_code TEXT))
    with ([1] ++ alloc (length bytes) ++ alloc 1).
  change (set ?out bytes 1) with (set out bytes (length [1])).
  rewrite (set_app [1] (alloc (length bytes)) bytes (alloc 1))
    by apply length_alloc.
  cbn [mbind result_bind]. f_equal. unfold store.
  rewrite !length_app. cbn [length alloc repeat].
  replace (1 + (length bytes + 1) - 1)%nat with (length ([1] ++ bytes))
    by (rewrite length_app; cbn; lia).
  rewrite app_assoc, insert_app_r_alt by lia.
  rewrite Nat.sub_diag. cbn [insert list_insert]. now rewrite <- app_assoc.
Qed.

End ControlMessagesFacts.

(** ** Pointer ids and device coordinates *)

Module TouchControlsFacts.
Import Number Control MuxChannelFacts TouchControls.

(** The loop ends within the fuel it is given: every pass leaves one
    key fewer at or above [pid]. *)
Lemma first_free_total (fuel : nat) (m : gmap Z Z) (pid : Z) :
  (above (dom m) (pid - 1) < fuel)%nat -> is_Some (first_free fuel m pid).
Proof.
  revert pid. induction fuel as [|fuel IH]; intros pid Hfuel; [lia|].
  cbn [first_free]. destruct (m !! pid) as [b|] eqn:E; [|eauto].
  apply IH. replace (pid + 1 - 1) with (pid - 1 + 1) by lia.
  rewrite (above_step (dom m) (pid - 1)) in Hfuel; [lia|].
  replace (pid - 1 + 1) with pid by lia. apply elem_of_dom. eauto.
Qed.

Lemma first_free_spec (fuel : nat) (m : gmap Z Z) (pid q : Z) :
  first_free fuel m pid = Some q ->
  pid <= q /\ m !! q = None /\ forall j, pid <= j < q -> is_Some (m !! j).
Proof.
  revert pid. induction fuel as [|fuel IH]; intros pid; [discriminate|].
  cbn [first_free]. destruct (m !! pid) as [b|] eqn:E.
  - intros (Hle & Hq & Hbelow)%IH. split; [lia|]. split; [assumption|].
    intros j Hj. destruct (Z.eq_dec j pid) as [->|]; [eauto|]. apply Hbelow. lia.
  - intros [= <-]. split; [lia|]. split; [assumption|]. intros j Hj. lia.
Qed.

(** The two maps are inverse to each other, and no id is negative. *)
Definition consistent (a : Allocator) : Prop :=
  (forall b p, idToPointer a !! b = Some p <-> pointerToId a !! p = Some b)
  /\ forall b p, idToPointer a !! b = Some p -> 0 <= p.

(** The states of an allocator: a new one, and what [alloc] and [free]
    make of a state. *)
Inductive reachable : Allocator -> Prop :=
| reach_new : reachable new_allocator
| reach_alloc (b : Z) (a a' : Allocator) (pid : Z) :
    reachable a -> alloc b a = Some (a', pid) -> reachable a'
| reach_free (b : Z) (a : Allocator) : reachable a -> reachable (free b a).

Lemma alloc_total (b : Z) (a : Allocator) : is_Some (alloc b a).
Proof.
  unfold alloc. destruct (idToPointer a !! b); [eauto|].
  destruct (first_free_total (S (size (pointerToId a))) (pointerToId a) 0) as [pid ->].
  - pose proof (above_le_size (dom (pointerToId a)) (0 - 1)) as H.
    rewrite size_dom in H. lia.
  - cbn. eauto.
Qed.

Lemma alloc_consistent (b : Z) (a a' : Allocator) (pid : Z) :
  consistent a -> alloc b a = Some (a', pid) -> consistent a'.
Proof.
  intros [Hinv Hpos]. unfold alloc. destruct (idToPointer a !! b) as [p|] eqn:Hb.
  { now intros [= <- <-]. }
  destruct (first_free _ _ _) as [q|] eqn:Hq; [|discriminate].
  cbn. intros [= <- <-].
  apply first_free_spec in Hq as (Hq0 & Hfree & _).
  split; cbn [idToPointer pointerToId].
  - intros b' p'. destruct (Z.eq_dec b' b) as [->|Hne].
    + rewrite lookup_insert_eq. destruct (Z.eq_dec p' q) as [->|Hpne].
      * rewrite lookup_insert_eq. tauto.
      * rewrite lookup_insert_ne by congruence. rewrite <- Hinv, Hb.
        split; [intros [= ?]; congruence|discriminate].
    + rewrite lookup_insert_ne by congruence. destruct (Z.eq_dec p' q) as [->|Hpne].
      * rewrite lookup_insert_eq. rewrite Hinv, Hfree.
        split; [discriminate|intros [= ?]; congruence].
      * rewrite lookup_insert_ne by congruence. apply Hinv.
  - intros b' p'. destruct (Z.eq_dec b' b) as [->|Hne].
    + rewrite lookup_insert_eq. intros [= <-]. assumption.
    + rewrite lookup_insert_ne by congruence. apply Hpos.
Qed.

Lemma free_consistent (b : Z) (a : Allocator) : consistent a -> consistent (free b a).
Proof.
  intros [Hinv Hpos]. unfold free. destruct (idToPointer a !! b) as [p|] eqn:Hb.
  2:{ now split. }
  split; cbn [idToPointer pointerToId].
  - intros b' p'. destruct (Z.eq_dec b' b) as [->|Hne].
    + rewrite lookup_delete_eq. split; [discriminate|].
      destruct (Z.eq_dec p' p) as [->|Hpne].
      * now rewrite lookup_delete_eq.
      * rewrite lookup_delete_ne by congruence. rewrite <- Hinv, Hb.
        intros [= ?]. congruence.
    + rewrite lookup_delete_ne by congruence. destruct (Z.eq_dec p' p) as [->|Hpne].
      * rewrite lookup_delete_eq. rewrite Hinv.
        apply Hinv in Hb. rewrite Hb. split; [intros [= ?]; congruence|discriminate].
      * rewrite lookup_delete_ne by congruence. apply Hinv.
  - intros b' p'. destruct (Z.eq_dec b' b) as [->|Hne].
    + now rewrite lookup_delete_eq.
    + rewrite lookup_delete_ne by congruence. apply Hpos.
Qed.

Lemma reachable_consistent (a : Allocator) : reachable a -> consistent a.
Proof.
  induction 1 as [|b a a' pid _ IH Halloc|b a _ IH].
  - split; intros b p; cbn; rewrite ?lookup_empty; [split|]; discriminate.
  - eapply alloc_consistent; eassumption.
  - now apply free_consistent.
Qed.

(** X11.  In every state the allocator can be in, [alloc] gives a
    pointer an id that is not negative and that no other pointer holds;
    for a pointer that has no id yet it is the least id not in use, so
    every smaller one is held by another pointer.  Asking again gives
    the same id and changes nothing, and after [free] the id is in use
    no more. *)
Theorem pointer_ids_distinct (a : Allocator) (b : Z) :
  reachable a ->
  exists a' pid,
    alloc b a = Some (a', pid)
    /\ 0 <= pid
    /\ idToPointer a' !! b = Some pid
    /\ (forall b', idToPointer a' !! b' = Some pid -> b' = b)
    /\ (idToPointer a !! b = None ->
        forall q, 0 <= q < pid ->
          exists b', b' <> b /\ idToPointer a' !! b' = Some q)
    /\ alloc b a' = Some (a', pid)
    /\ idToPointer (free b a') !! b = None
    /\ pointerToId (free b a') !! pid = None.
Proof.
  intros Hreach. pose proof (reachable_consistent a Hreach) as Ha.
  destruct (alloc_total b a) as [[a' pid] Halloc]. exists a', pid.
  pose proof (alloc_consistent b a a' pid Ha Halloc) as [Hinv' Hpos'].
  assert (Hb : idToPointer a' !! b = Some pid).
  { revert Halloc. unfold alloc. destruct (idToPointer a !! b) as [p|] eqn:E.
    - now intros [= <- <-].
    - destruct (first_free _ _ _); [|discriminate]. cbn. intros [= <- <-].
      cbn. apply lookup_insert_eq. }
  split; [assumption|]. split; [now apply (Hpos' b)|]. split; [assumption|].
  split; [|split; [|split; [|split]]].
  - intros b' Hb'. apply Hinv' in Hb, Hb'. congruence.
  - intros Hnone q Hq. revert Halloc. unfold alloc. rewrite Hnone.
    destruct (first_free _ _ _) as [p|] eqn:Hfree; [|discriminate].
    cbn. intros [= <- <-].
    apply first_free_spec in Hfree as (_ & _ & Hbelow).
    destruct (Hbelow q Hq) as [b' Hb'].
    destruct Ha as [Hinv _]. apply Hinv in Hb'.
    exists b'. split; [congruence|].
    cbn. rewrite lookup_insert_ne by congruence. assumption.
  - unfold alloc. now rewrite Hb.
  - unfold free. rewrite Hb. cbn. apply lookup_delete_eq.
  - unfold free. rewrite Hb. cbn. apply lookup_delete_eq.
Qed.

Lemma pointer_ids_distinct_witness :
  exists a' pid,
    alloc 41 new_allocator = Some (a', pid)
    /\ 0 <= pid
    /\ idToPointer a' !! 41 = Some pid
    /\ (forall b', idToPointer a' !! b' = Some pid -> b' = 41)
    /\ (idToPointer new_allocator !! 41 = None ->
        forall q, 0 <= q < pid ->
          exists b', b' <> 41 /\ idToPointer a' !! b' = Some q)
    /\ alloc 41 a' = Some (a', pid)
    /\ idToPointer (free 41 a') !! 41 = None
    /\ pointerToId (free 41 a') !! pid = None.
Proof. apply (pointer_ids_distinct new_allocator 41). constructor. Defined.

Lemma Math_round_exponent (r : number) :
  match Math_round r with
  | Finite _ e => 0 <= e
  | _ => True
  end.
Proof.
  destruct r as [m e| | |]; cbn [Math_round]; try exact I.
  destruct (Z.leb_spec 0 e); lia.
Qed.

Lemma truncate_of_Z (z : Z) : truncate (of_Z z) = z.
Proof.
  unfold truncate, of_Z. change (0 <=? 0) with true. cbn iota.
  change (2 ^ 0) with 1. apply Z.mul_1_r.
Qed.

(** A rounded number clamped to [0, w] is an integer of that range;
    [NaN] is left as it is, and counts as 0 where an integer is made
    of it. *)
Lemma clamp_rounded (r : number) (w : Z) :
  1 <= w ->
  0 <= truncate (clamp (Math_round r) (of_Z 0) (of_Z w)) <= w.
Proof.
  intros Hw. pose proof (Math_round_exponent r) as He. unfold clamp.
  destruct (Math_round r) as [m e| | |].
  - cbn [lt gt of_Z].
    rewrite (Z.min_r e 0), (Z.min_l 0 e) by lia.
    rewrite !Z.sub_0_r. change (2 ^ 0) with 1.
    rewrite !Z.mul_1_r.
    destruct (Z.ltb_spec (m * 2 ^ e) 0).
    + rewrite truncate_of_Z. lia.
    + destruct (Z.ltb_spec w (m * 2 ^ e)).
      * rewrite truncate_of_Z. lia.
      * cbn [truncate]. rewrite (proj2 (Z.leb_le 0 e)) by lia. lia.
  - change (lt PosInf (of_Z 0)) with false. change (gt PosInf (of_Z w)) with true.
    cbn iota. rewrite truncate_of_Z. lia.
  - change (lt NegInf (of_Z 0)) with true.
    cbn iota. rewrite truncate_of_Z. lia.
  - change (lt NaN (of_Z 0)) with false. change (gt NaN (of_Z w)) with false.
    cbn. lia.
Qed.

(** X12.  The device coordinates made of a position on the canvas lie
    on the screen, whatever the position is, a position outside the
    canvas, an infinite one or [NaN] included: the integer the touch
    message takes of each coordinate is between 0 and the width (or the
    height) sent with it, which is at least 1. *)
Theorem device_xy_in_screen (width height : Z) (x01 y01 : number) :
  0 <= width < 2 ^ 32 ->
  0 <= height < 2 ^ 32 ->
  let r := mapNormToDeviceXY width height x01 y01 in
  0 <= truncate (dev_x r) <= dev_w r
  /\ 0 <= truncate (dev_y r) <= dev_h r
  /\ 1 <= dev_w r /\ 1 <= dev_h r
  /\ Bytes.to_uint32 (truncate (dev_x r)) = truncate (dev_x r)
  /\ Bytes.to_uint32 (truncate (dev_y r)) = truncate (dev_y r).
Proof.
  intros Hw Hh r.
  assert (Hw1 : 1 <= dev_w r /\ dev_w r < 2 ^ 32).
  { subst r. cbn [mapNormToDeviceXY dev_w]. destruct (Z.eqb_spec width 0); lia. }
  assert (Hh1 : 1 <= dev_h r /\ dev_h r < 2 ^ 32).
  { subst r. cbn [mapNormToDeviceXY dev_h]. destruct (Z.eqb_spec height 0); lia. }
  assert (Hx : 0 <= truncate (dev_x r) <= dev_w r).
  { subst r. cbn [mapNormToDeviceXY dev_x dev_w] in *. now apply clamp_rounded. }
  assert (Hy : 0 <= truncate (dev_y r) <= dev_h r).
  { subst r. cbn [mapNormToDeviceXY dev_y dev_h] in *. now apply clamp_rounded. }
  repeat split; try lia; apply BytesFacts.to_uint32_small; lia.
Qed.

Lemma device_xy_in_screen_witness :
  let r := mapNormToDeviceXY 1080 0 (Finite 3 (-1)) NaN in
  0 <= truncate (dev_x r) <= dev_w r
  /\ 0 <= truncate (dev_y r) <= dev_h r
  /\ 1 <= dev_w r /\ 1 <= dev_h r
  /\ Bytes.to_uint32 (truncate (dev_x r)) = truncate (dev_x r)
  /\ Bytes.to_uint32 (truncate (dev_y r)) = truncate (dev_y r).
Proof. apply (device_xy_in_screen 1080 0 (Finite 3 (-1)) NaN); lia. Defined.

(** The example of the witness: a position at one and a half widths is
    clamped to the width, and [NaN] on a canvas without height is sent
    as 0 of the height 1. *)
Example device_xy_clamped :
  mapNormToDeviceXY 1080 0 (Finite 3 (-1)) NaN = mkDeviceXY (of_Z 1080) NaN 1080 1.
Proof. reflexivity. Qed.

End TouchControlsFacts.

(** ** Recording ids, and the recordings on disk *)

Module RepositoryFacts.
Import Js ActionRecorder PersistFacts RecordingRepository.

Lemma forallb_string_app (p : ascii -> bool) (s t : string) :
  forallb_string p (s +:+ t) = forallb_string p s && forallb_string p t.
Proof.
  induction s as [|c s IH]; [reflexivity|].
  change (String c s +:+ t) with (String c (s +:+ t)). cbn [forallb_string].
  now rewrite IH, andb_assoc.
Qed.

Lemma forallb_string_impl (p q : ascii -> bool) (s : string) :
  (forall c, p c = true -> q c = true) ->
  forallb_string p s = true -> forallb_string q s = true.
Proof.
  intros Hpq. induction s as [|c s IH]; cbn; [reflexivity|].
  intros [Hc Hs]%andb_true_iff. now rewrite (Hpq c Hc), IH.
Qed.

Lemma pretty_N_char_safe (x : N) : is_id_safe (pretty_N_char x) = true.
Proof.
  unfold pretty_N_char. destruct x as [|p]; [reflexivity|].
  repeat (try reflexivity; destruct p as [p|p|]).
Qed.

Lemma pretty_N_go_safe (x : N) (s : string) :
  forallb_string is_id_safe s = true ->
  forallb_string is_id_safe (pretty_N_go x s) = true.
Proof.
  revert s. induction (N.lt_wf_0 x) as [x _ IH]. intros s Hs.
  destruct (N.eq_dec x 0%N) as [->|Hx].
  - now rewrite pretty_N_go_0.
  - rewrite pretty_N_go_step by lia. apply IH.
    + apply N.div_lt; lia.
    + cbn [forallb_string]. now rewrite pretty_N_char_safe, Hs.
Qed.

Lemma pretty_N_safe (x : N) : forallb_string is_id_safe (pretty x) = true.
Proof.
  unfold pretty, pretty_N. destruct (decide (x = 0%N)); [reflexivity|].
  now apply pretty_N_go_safe.
Qed.

Lemma pretty_Z_safe (z : Z) : forallb_string is_id_safe (pretty z) = true.
Proof.
  destruct z as [|p|p]; [reflexivity|apply pretty_N_safe|].
  change (pretty (Z.neg p)) with ("-" +:+ pretty (N.pos p)).
  rewrite forallb_string_app. now rewrite pretty_N_safe.
Qed.

Lemma createId_safe (now : Z) : forallb_string is_id_safe (createId now) = true.
Proof.
  unfold createId. rewrite forallb_string_app. now rewrite pretty_Z_safe.
Qed.

(** A character [replace] has left in place is the character of the
    text, unless it is the underscore. *)
Lemma replaced_char (c d : ascii) :
  (if is_id_safe c then c else "_"%char) = d -> d <> "_"%char -> c = d.
Proof. destruct (is_id_safe c); congruence. Qed.

Lemma replace_unsafe_true (t : string) : replace_unsafe t = "true" -> t = "true".
Proof.
  destruct t as [|c1 [|c2 [|c3 [|c4 [|c5 t]]]]]; try discriminate.
  cbn [replace_unsafe]. intros [= H1 H2 H3 H4].
  apply replaced_char in H1, H2, H3, H4; try discriminate. now subst.
Qed.

Lemma replace_unsafe_one (t : string) : replace_unsafe t = "1" -> t = "1".
Proof.
  destruct t as [|c1 [|c2 t]]; try discriminate.
  cbn [replace_unsafe]. intros [= H1].
  apply replaced_char in H1; try discriminate. now subst.
Qed.

Lemma replace_unsafe_nonempty (t : string) : t <> "" -> replace_unsafe t <> "".
Proof. now destruct t. Qed.

(** No path separator and no dot is among the characters of an id. *)
Definition no_path_char (c : ascii) : bool :=
  negb (Ascii.eqb c "/") && negb (Ascii.eqb c "\") && negb (Ascii.eqb c ".").

Lemma safe_no_path_char (c : ascii) : is_id_safe c = true -> no_path_char c = true.
Proof.
  unfold is_id_safe, no_path_char.
  destruct c as [[] [] [] [] [] [] [] []]; vm_compute; congruence.
Qed.

(** An id of safe characters other than [true] and [1] is left as it
    is by [normalizeId]. *)
Lemma safe_id_fixed (id : string) (now : Z) :
  id <> "" -> forallb_string is_id_safe id = true -> id <> "true" -> id <> "1" ->
  normalizeId now (Some id) = Some id.
Proof.
  intros Hne Hsafe Htrue Hone. unfold normalizeId. rewrite (trim_safe id Hsafe).
  assert (Ht : truthy_string id = true) by (destruct id; [congruence|reflexivity]).
  rewrite Ht. cbn [negb].
  rewrite (proj2 (String.eqb_neq _ _) Htrue), (proj2 (String.eqb_neq _ _) Hone).
  cbn [orb]. now rewrite (replace_unsafe_id id Hsafe).
Qed.

(** What holds of an id that [normalizeId] has returned. *)
Lemma normalizeId_result (now : Z) (raw : option string) (id : string) :
  normalizeId now raw = Some id ->
  id <> "" /\ forallb_string is_id_safe id = true /\ id <> "true" /\ id <> "1".
Proof.
  unfold normalizeId. destruct raw as [raw|]; [|discriminate].
  destruct (truthy_string (trim raw)) eqn:Htruthy; [|discriminate]. cbn [negb].
  destruct (String.eqb (trim raw) "true" || String.eqb (trim raw) "1") eqn:Hnew.
  - intros [= <-]. split; [discriminate|]. split; [apply createId_safe|].
    split; discriminate.
  - intros [= <-]. apply orb_false_iff in Hnew as [Htrue%String.eqb_neq Hone%String.eqb_neq].
    split; [apply replace_unsafe_nonempty; now destruct (trim raw)|].
    split; [apply replace_unsafe_safe|].
    split; [intros H%replace_unsafe_true|intros H%replace_unsafe_one]; congruence.
Qed.


(** X13.  An id that [normalizeId] returns is not empty and is made of
    letters, digits, [-] and [_] only, so that it holds no path
    separator and no dot; and [normalizeId] returns it unchanged when it
    is given it, at any time. *)
Theorem normalizeId_safe (now : Z) (raw : option string) (id : string) :
  normalizeId now raw = Some id ->
  id <> ""
  /\ forallb_string is_id_safe id = true
  /\ forallb_string no_path_char id = true
  /\ forall now', normalizeId now' (Some id) = Some id.
Proof.
  intros (Hne & Hsafe & Htrue & Hone)%normalizeId_result.
  split; [assumption|]. split; [assumption|].
  split; [now apply (forallb_string_impl is_id_safe), Hsafe; apply safe_no_path_char|].
  intros now'. now apply safe_id_fixed.
Qed.

Lemma normalizeId_safe_witness :
  "___etc_passwd" <> ""
  /\ forallb_string is_id_safe "___etc_passwd" = true
  /\ forallb_string no_path_char "___etc_passwd" = true
  /\ forall now', normalizeId now' (Some "___etc_passwd") = Some "___etc_passwd".
Proof. apply (normalizeId_safe 0 (Some " ../etc/passwd ") "___etc_passwd"). reflexivity. Defined.

(** An id other than [true] and [1] is normalized alike at any time. *)
Lemma normalizeId_timeless (now now' : Z) (raw : string) :
  trim raw <> "true" -> trim raw <> "1" ->
  normalizeId now (Some raw) = normalizeId now' (Some raw).
Proof.
  intros Htrue Hone. unfold normalizeId.
  now rewrite (proj2 (String.eqb_neq _ _) Htrue), (proj2 (String.eqb_neq _ _) Hone).
Qed.

Lemma prop_lookup_set_eq (props : list (string * json)) (key : string) (v : json) :
  prop_lookup (prop_set props key v) key = Some v.
Proof.
  induction props as [|[k old] props IH]; cbn [prop_set prop_lookup].
  - now rewrite String.eqb_refl.
  - destruct (String.eqb k key) eqn:E; cbn [prop_lookup]; now rewrite E.
Qed.

Lemma prop_lookup_set_ne (props : list (string * json)) (key key' : string) (v : json) :
  key <> key' ->
  prop_lookup (prop_set props key v) key' = prop_lookup props key'.
Proof.
  intros Hne. induction props as [|[k old] props IH]; cbn [prop_set prop_lookup].
  - now rewrite (proj2 (String.eqb_neq _ _) Hne).
  - destruct (String.eqb k key) eqn:E; cbn [prop_lookup].
    + apply String.eqb_eq in E as ->.
      now rewrite (proj2 (String.eqb_neq _ _) Hne).
    + now rewrite IH.
Qed.

Section Runtime.
Variable Number_of_other : json -> Z.
Variable String_of_other : json -> string.

#[local] Abbreviation load := (ActionRecorder.load Number_of_other String_of_other).

(** What a successful [load] has read. *)
Lemma load_inv (now : Z) (id : string) (files : gmap string json) (file : RecordingFile) :
  load now id files = Ok file ->
  exists safeId props items mapped,
    normalizeId now (Some id) = Some safeId
    /\ files !! file_path safeId = Some (JObj props)
    /\ prop_lookup props "messages" = Some (JArr items)
    /\ messages_of Number_of_other String_of_other items = Ok mapped
    /\ file = mkFile (id_or (prop_lookup props "id") safeId) (prop_lookup props "remote")
                     (prop_lookup props "createdAt") (prop_lookup props "meta")
                     (sort_by_at mapped).
Proof.
  unfold ActionRecorder.load.
  destruct (normalizeId now (Some id)) as [safeId|] eqn:Hid; [|discriminate].
  destruct (files !! file_path safeId) as [parsed|] eqn:Hfile; [|discriminate].
  destruct parsed as [| | | | |props]; try discriminate. cbn [get].
  destruct (prop_lookup props "messages") as [[| | | |items|]|] eqn:Hmsgs;
    try discriminate.
  destruct (messages_of _ _ items) as [mapped|] eqn:Hm; [|discriminate].
  cbn [mbind result_bind]. intros [= <-]. now exists safeId, props, items, mapped.
Qed.

(** X14.  Renaming a recording that [load] can read leaves what [load]
    returns as it was, puts the new name in the [name] property of its
    file, and touches no other file. *)
Theorem updateName_keeps_recording
    (now1 now2 now3 : Z) (recordId name : string)
    (files : gmap string json) (file : RecordingFile) :
  trim recordId <> "true" -> trim recordId <> "1" ->
  load now1 recordId files = Ok file ->
  exists files' safeId parsed,
    updateName now2 recordId name files = Ok files'
    /\ load now3 recordId files' = Ok file
    /\ normalizeId now1 (Some recordId) = Some safeId
    /\ files' !! file_path safeId = Some parsed
    /\ get parsed "name" = Some (JStr name)
    /\ forall path, path <> file_path safeId -> files' !! path = files !! path.
Proof.
  intros Htrue Hone Hload.
  destruct (load_inv _ _ _ _ Hload) as (safeId & props & items & mapped
                                        & Hid & Hfile & Hmsgs & Hmapped & ->).
  exists (<[file_path safeId := JObj (prop_set props "name" (JStr name))]> files),
         safeId, (JObj (prop_set props "name" (JStr name))).
  split; [|split; [|split; [assumption|split; [|split]]]].
  - unfold updateName, resolvePath.
    rewrite (normalizeId_timeless now2 now1 recordId Htrue Hone), Hid, Hfile.
    cbn [mbind result_bind]. now rewrite Hfile.
  - unfold ActionRecorder.load.
    rewrite (normalizeId_timeless now3 now1 recordId Htrue Hone), Hid.
    rewrite lookup_insert_eq. cbn [get].
    rewrite !prop_lookup_set_ne by discriminate.
    rewrite Hmsgs, Hmapped. reflexivity.
  - apply lookup_insert_eq.
  - cbn [get]. apply prop_lookup_set_eq.
  - intros path Hpath. now apply lookup_insert_ne.
Qed.

(** X15.  Deleting a recording that is on disk removes its file and no
    other: [load] of it then fails for the missing file, and a second
    delete, or a rename, reports that the recording is not found. *)
Theorem delete_removes_recording
    (now1 now2 now3 : Z) (recordId name path : string) (files : gmap string json) :
  trim recordId <> "true" -> trim recordId <> "1" ->
  resolvePath now1 recordId files = Ok path ->
  exists files',
    delete now1 recordId files = Ok files'
    /\ files' !! path = None
    /\ load now2 recordId files' = Throw "ENOENT: no such file or directory"
    /\ delete now3 recordId files' = Throw "Recording not found"
    /\ updateName now3 recordId name files' = Throw "Recording not found"
    /\ forall p, p <> path -> files' !! p = files !! p.
Proof.
  intros Htrue Hone Hpath. exists (base.delete path files).
  assert (Hid : exists safeId, normalizeId now1 (Some recordId) = Some safeId
                               /\ path = file_path safeId).
  { revert Hpath. unfold resolvePath.
    destruct (normalizeId now1 (Some recordId)) as [safeId|]; [|discriminate].
    destruct (files !! file_path safeId); [|discriminate].
    intros [= <-]. eauto. }
  destruct Hid as (safeId & Hid & ->).
  split; [|split; [|split; [|split; [|split]]]].
  - unfold delete. now rewrite Hpath.
  - apply lookup_delete_eq.
  - unfold ActionRecorder.load.
    rewrite (normalizeId_timeless now2 now1 recordId Htrue Hone), Hid.
    now rewrite lookup_delete_eq.
  - unfold delete, resolvePath.
    rewrite (normalizeId_timeless now3 now1 recordId Htrue Hone), Hid.
    now rewrite lookup_delete_eq.
  - unfold updateName, resolvePath.
    rewrite (normalizeId_timeless now3 now1 recordId Htrue Hone), Hid.
    now rewrite lookup_delete_eq.
  - intros p Hp. now apply lookup_delete_ne.
Qed.

(** X16.  Whatever the order of the entries in the file, [load]
    returns them all, each one once, in the order of their [at]; a file
    whose entries are in that order already is returned in the order of
    the file, entries of equal [at] included. *)
Theorem load_orders_messages
    (now : Z) (id : string) (files : gmap string json) (file : RecordingFile) :
  load now id files = Ok file ->
  exists safeId parsed items mapped,
    normalizeId now (Some id) = Some safeId
    /\ files !! file_path safeId = Some parsed
    /\ get parsed "messages" = Some (JArr items)
    /\ messages_of Number_of_other String_of_other items = Ok mapped
    /\ Sorted at_le (file_messages file)
    /\ file_messages file ≡ₚ mapped
    /\ (Sorted at_le mapped -> file_messages file = mapped).
Proof.
  intros Hload.
  destruct (load_inv _ _ _ _ Hload) as (safeId & props & items & mapped
                                        & Hid & Hfile & Hmsgs & Hmapped & ->).
  exists safeId, (JObj props), items, mapped. cbn [file_messages get].
  destruct (sort_by_at_spec mapped) as [Hsorted Hperm].
  repeat split; try assumption. apply sort_by_at_sorted_id.
Qed.


End Runtime.

(** A recording on disk whose entries are not in the order of their
    time. *)
Definition shuffled_files : gmap string json :=
  {[ "recordings/demo.json" :=
       JObj [("id", JStr "demo");
             ("messages",
              JArr [JObj [("at", JNum 300); ("data", JStr "b"); ("binary", JBool false)];
                    JObj [("at", JNum 100); ("data", JStr "a"); ("binary", JBool false)]])] ]}.

Definition shuffled_file : RecordingFile :=
  mkFile (Some (JStr "demo")) None None None
         [mkMessage 100 "a" false; mkMessage 300 "b" false].

Lemma shuffled_load :
  ActionRecorder.load (fun _ => 0) (fun _ => "") 0 "demo" shuffled_files = Ok shuffled_file.
Proof. reflexivity. Qed.

Lemma updateName_keeps_recording_witness :
  exists files' safeId parsed,
    updateName 5 "demo" "First run" shuffled_files = Ok files'
    /\ ActionRecorder.load (fun _ => 0) (fun _ => "") 9 "demo" files' = Ok shuffled_file
    /\ normalizeId 0 (Some "demo") = Some safeId
    /\ files' !! file_path safeId = Some parsed
    /\ get parsed "name" = Some (JStr "First run")
    /\ forall path, path <> file_path safeId -> files' !! path = shuffled_files !! path.
Proof.
  apply (updateName_keeps_recording (fun _ => 0) (fun _ => "") 0 5 9 "demo" "First run"
           shuffled_files shuffled_file).
  - discriminate.
  - discriminate.
  - exact shuffled_load.
Defined.

Lemma delete_removes_recording_witness :
  exists files',
    delete 0 "demo" shuffled_files = Ok files'
    /\ files' !! "recordings/demo.json" = None
    /\ ActionRecorder.load (fun _ => 0) (fun _ => "") 5 "demo" files'
       = Throw "ENOENT: no such file or directory"
    /\ delete 9 "demo" files' = Throw "Recording not found"
    /\ updateName 9 "demo" "x" files' = Throw "Recording not found"
    /\ forall p, p <> "recordings/demo.json" -> files' !! p = shuffled_files !! p.
Proof.
  apply (delete_removes_recording (fun _ => 0) (fun _ => "") 0 5 9 "demo" "x"
           "recordings/demo.json" shuffled_files).
  - discriminate.
  - discriminate.
  - reflexivity.
Defined.

Lemma load_orders_messages_witness :
  exists safeId parsed items mapped,
    normalizeId 0 (Some "demo") = Some safeId
    /\ shuffled_files !! file_path safeId = Some parsed
    /\ get parsed "messages" = Some (JArr items)
    /\ messages_of (fun _ => 0) (fun _ => "") items = Ok mapped
    /\ Sorted at_le (file_messages shuffled_file)
    /\ file_messages shuffled_file ≡ₚ mapped
    /\ (Sorted at_le mapped -> file_messages shuffled_file = mapped).
Proof.
  apply (load_orders_messages (fun _ => 0) (fun _ => "") 0 "demo" shuffled_files
           shuffled_file).
  exact shuffled_load.
Defined.


End RepositoryFacts.

(** ** The proxy: queueing, recording and replay *)

Module ProxyControlFacts.
Import Js ActionRecorder WebsocketProxy ProxyControl.
Import PersistFacts RepositoryFacts RecorderFacts WebsocketProxyFacts.

(** The frames a client sends, each with the time it arrives at. *)
Definition receive_all (frames : list (Z * WsData)) (p : WebsocketProxy) : WebsocketProxy :=
  fold_left (fun p f => receive (fst f) (snd f) p) frames p.

Lemma Socket_send_all (rs : Socket) (ds : list WsData) :
  readyState rs = OPEN ->
  fold_left (fun rs d => Socket_send d rs) ds rs
  = mkSocket OPEN (sent rs ++ ds) (closes rs).
Proof.
  revert rs. induction ds as [|d ds IH]; intros [s sn cl]; cbn [readyState]; intros ->.
  - cbn. now rewrite app_nil_r.
  - cbn [fold_left]. unfold Socket_send at 2. cbn [readyState sent closes].
    change (OPEN =? OPEN) with true. cbn iota.
    rewrite IH by reflexivity. cbn [sent closes]. now rewrite <- app_assoc.
Qed.

(** What links a proxy to its upstream: the socket, the queue and the
    release flag.  The bookkeeping of a recording or a playback leaves
    them alone. *)
Definition same_link (p q : WebsocketProxy) : Prop :=
  remoteSocket q = remoteSocket p /\ storage q = storage p /\ released q = released p.

Lemma updateStatus_link now state rid fp off p st :
  same_link p (fst (updateStatus now state rid fp off (p, st))).
Proof.
  unfold updateStatus.
  change (session_of (set_currentState state p)) with (session_of p).
  destruct (session_of p); [|now split].
  destruct state; try (now split).
  change (playback (set_currentState StateRun p)) with (playback p).
  destruct (playback p); [|now split].
  now destruct (0 <? _).
Qed.

Lemma stopPlayback_link (b : bool) (p : WebsocketProxy) : same_link p (stopPlayback b p).
Proof. unfold stopPlayback. now destruct b. Qed.

Lemma same_link_trans (p q r : WebsocketProxy) :
  same_link p q -> same_link q r -> same_link p r.
Proof. intros (? & ? & ?) (? & ? & ?). repeat split; congruence. Qed.

Lemma schedulePlayback_link now pb off p st :
  same_link p (fst (schedulePlayback now pb off (p, st))).
Proof.
  unfold schedulePlayback.
  destruct (updateStatus now StateRun (file_id pb) None off
              (set_playbackStart (Some now) (set_playback (Some pb) (stopPlayback true p)), st))
    as [p1 st1] eqn:E.
  pose proof (updateStatus_link now StateRun (file_id pb) None off
                (set_playbackStart (Some now) (set_playback (Some pb) (stopPlayback true p))) st)
    as Hl.
  rewrite E in Hl. cbn [fst] in *.
  apply (same_link_trans p (stopPlayback true p)); [apply stopPlayback_link|].
  destruct Hl as (H1 & H2 & H3). repeat split; cbn; assumption.
Qed.

Lemma startPlayback_link now arg p st :
  same_link p (fst (startPlayback now arg (p, st))).
Proof.
  unfold startPlayback.
  destruct (match arg with Some pb => Some pb | None => playback p end) as [pb|];
    [|now split].
  destruct (remote_open p); [|now split].
  apply (same_link_trans p
           (set_playback (Some pb) (set_playbackPaused false (set_playbackElapsed 0 p))));
    [now split|apply schedulePlayback_link].
Qed.

Lemma receive_all_stored (frames : list (Z * WsData)) (p : WebsocketProxy) :
  remoteSocket p = None ->
  remoteSocket (receive_all frames p) = None
  /\ storage (receive_all frames p) = storage p ++ map snd frames
  /\ released (receive_all frames p) = released p.
Proof.
  revert p. induction frames as [|[t d] frames IH]; intros p Hnone.
  - cbn. now rewrite app_nil_r.
  - cbn [receive_all fold_left fst snd map].
    assert (Hstep : remoteSocket (receive t d p) = None
                    /\ storage (receive t d p) = storage p ++ [d]
                    /\ released (receive t d p) = released p).
    { unfold receive. destruct (recordingPaused p); cbn; rewrite Hnone; now cbn. }
    destruct Hstep as (H1 & H2 & H3).
    destruct (IH (receive t d p) H1) as (I1 & I2 & I3).
    unfold receive_all in *. rewrite I1, I2, I3, H2, H3, <- app_assoc. now cbn.
Qed.

Lemma receive_all_sent (frames : list (Z * WsData)) (p : WebsocketProxy) (rs : Socket) :
  remoteSocket p = Some rs -> readyState rs = OPEN ->
  remoteSocket (receive_all frames p)
  = Some (mkSocket OPEN (sent rs ++ map snd frames) (closes rs))
  /\ storage (receive_all frames p) = storage p.
Proof.
  revert p rs. induction frames as [|[t d] frames IH]; intros p rs Hrs Hopen.
  - cbn. rewrite app_nil_r, Hrs. destruct rs; cbn in *; now subst.
  - cbn [receive_all fold_left fst snd map].
    assert (Hstep : remoteSocket (receive t d p)
                    = Some (mkSocket OPEN (sent rs ++ [d]) (closes rs))
                    /\ storage (receive t d p) = storage p).
    { unfold receive. destruct (recordingPaused p); cbn; rewrite Hrs; cbn;
        unfold Socket_send; rewrite Hopen; now cbn. }
    destruct Hstep as (H1 & H2).
    destruct (IH (receive t d p) _ H1 eq_refl) as (I1 & I2).
    unfold receive_all in *. rewrite I1, I2, H2. cbn [sent closes].
    now rewrite <- app_assoc.
Qed.

(** X18.  The frames a client sends before the upstream socket is
    open are kept, and go upstream when it opens, in the order they came
    in and ahead of every frame that comes in later: nothing is lost and
    nothing is sent twice. *)
Theorem frames_reach_upstream_in_order
    (p : WebsocketProxy) (st : gmap string Status) (rs : Socket) (now : Z)
    (before later : list (Z * WsData)) :
  remoteSocket p = None ->
  released p = false ->
  readyState rs = OPEN ->
  let p1 := receive_all before p in
  let p2 := fst (remote_onopen now rs (p1, st)) in
  let p3 := receive_all later p2 in
  storage p1 = storage p ++ map snd before
  /\ remoteSocket p2
     = Some (mkSocket OPEN (sent rs ++ storage p ++ map snd before) (closes rs))
  /\ storage p2 = []
  /\ remoteSocket p3
     = Some (mkSocket OPEN
               (sent rs ++ storage p ++ map snd before ++ map snd later) (closes rs))
  /\ storage p3 = [].
Proof.
  intros Hnone Hrel Hopen p1 p2 p3.
  destruct (receive_all_stored before p Hnone) as (H1 & H2 & H3).
  fold p1 in H1, H2, H3.
  assert (Hflush : remoteSocket (flush (set_remoteSocket (Some rs) p1))
                   = Some (mkSocket OPEN (sent rs ++ storage p ++ map snd before) (closes rs))
                   /\ storage (flush (set_remoteSocket (Some rs) p1)) = []).
  { unfold flush. cbn [remoteSocket set_remoteSocket storage released set_storage].
    rewrite H3, Hrel, H2. now rewrite Socket_send_all by assumption. }
  destruct Hflush as [F1 F2].
  pose proof (startPlayback_link now None (flush (set_remoteSocket (Some rs) p1)) st)
    as (L1 & L2 & _).
  assert (Hp2 : p2 = fst (startPlayback now None
                            (flush (set_remoteSocket (Some rs) p1), st)))
    by reflexivity.
  rewrite <- Hp2 in L1, L2. rewrite F1 in L1. rewrite F2 in L2.
  split; [assumption|]. split; [assumption|]. split; [assumption|].
  destruct (receive_all_sent later p2 _ L1 eq_refl) as (S1 & S2).
  fold p3 in S1, S2. cbn [sent closes] in S1.
  rewrite S1, S2, L2. now rewrite <- !app_assoc.
Qed.

Lemma frames_reach_upstream_in_order_witness :
  let p := fresh_proxy OPEN (Some "A") in
  let rs := mkSocket OPEN [] [] in
  let before := [(10, WsString "a"); (20, WsString "b")] in
  let later := [(30, WsString "c")] in
  let p1 := receive_all before p in
  let p2 := fst (remote_onopen 25 rs (p1, ∅)) in
  let p3 := receive_all later p2 in
  storage p1 = storage p ++ map snd before
  /\ remoteSocket p2
     = Some (mkSocket OPEN (sent rs ++ storage p ++ map snd before) (closes rs))
  /\ storage p2 = []
  /\ remoteSocket p3
     = Some (mkSocket OPEN
               (sent rs ++ storage p ++ map snd before ++ map snd later) (closes rs))
  /\ storage p3 = [].
Proof.
  apply (frames_reach_upstream_in_order (fresh_proxy OPEN (Some "A")) ∅
           (mkSocket OPEN [] []) 25
           [(10, WsString "a"); (20, WsString "b")] [(30, WsString "c")]);
    reflexivity.
Defined.

(** [updateStatus] changes the state and the finish timer of the proxy
    and nothing else of it, and writes the status of its session. *)
Lemma updateStatus_shape now state rid fp off p st :
  (exists t, fst (updateStatus now state rid fp off (p, st))
             = set_playbackFinishTimer t (set_currentState state p))
  /\ snd (updateStatus now state rid fp off (p, st))
     = match session_of p with
       | Some sid => setStatus now sid state rid fp (remoteUrl p) st
       | None => st
       end.
Proof.
  unfold updateStatus.
  change (session_of (set_currentState state p)) with (session_of p).
  destruct (session_of p) as [sid|].
  2:{ split; [now exists (playbackFinishTimer p)|reflexivity]. }
  change (remoteUrl (set_currentState state p)) with (remoteUrl p).
  destruct state; try (split; [now exists (playbackFinishTimer p)|reflexivity]).
  change (playback (set_currentState StateRun p)) with (playback p).
  destruct (playback p) as [pb|]; [|split; [now exists (playbackFinishTimer p)|reflexivity]].
  destruct (0 <? _); (split; [eexists; reflexivity|reflexivity]).
Qed.

Lemma setStatus_lookup now sid state rid fp remote st :
  setStatus now sid state rid fp remote st !! sid
  = Some (mkStatus sid state rid fp remote now).
Proof. apply lookup_insert_eq. Qed.

(** X19.  A proxy that records can be paused once: the second pause
    is refused as [Already paused].  The resume puts it back to
    recording, and a resume of a proxy that is not paused is refused.
    The status kept for its session follows: [pause], then [record]. *)
Theorem recording_pause_resume
    (p : WebsocketProxy) (st : gmap string Status) (r : ActionRecorder.t)
    (now1 now2 now3 now4 : Z) :
  currentState p = StateRecord ->
  recorder p = Some r ->
  recordingPaused p = false ->
  exists p1 st1 p2 st2,
    pause now1 p st = Ok (p1, st1, ModeRecord)
    /\ currentState p1 = StatePause
    /\ recordingPaused p1 = true
    /\ pause now2 p1 st1 = Throw "Already paused"
    /\ resume now3 p1 st1 = Ok (p2, st2, ModeRecord)
    /\ currentState p2 = StateRecord
    /\ recordingPaused p2 = false
    /\ resume now4 p2 st2 = Throw "Cannot resume when not paused"
    /\ forall sid, session_of p = Some sid ->
         status <$> st1 !! sid = Some StatePause
         /\ status <$> st2 !! sid = Some StateRecord.
Proof.
  intros Hstate Hrec Hpaused.
  set (q1 := set_recorder (Some (ActionRecorder.pause now1 r)) (set_recordingPaused true p)).
  destruct (updateStatus_shape now1 StatePause (JStr <$> activeRecordId q1) None 0 q1 st)
    as [[t1 Hp1] Hst1].
  destruct (updateStatus now1 StatePause (JStr <$> activeRecordId q1) None 0 (q1, st))
    as [p1 st1] eqn:E1.
  cbn [fst snd] in Hp1, Hst1.
  set (q2 := set_recorder (Some (ActionRecorder.resume now3 (ActionRecorder.pause now1 r)))
               (set_recordingPaused false p1)).
  destruct (updateStatus_shape now3 StateRecord (JStr <$> activeRecordId q2) None 0 q2 st1)
    as [[t2 Hp2] Hst2].
  destruct (updateStatus now3 StateRecord (JStr <$> activeRecordId q2) None 0 (q2, st1))
    as [p2 st2] eqn:E2.
  cbn [fst snd] in Hp2, Hst2.
  exists p1, st1, p2, st2.
  assert (Hpause : pause now1 p st = Ok (p1, st1, ModeRecord)).
  { unfold pause. rewrite Hstate, Hrec, Hpaused. fold q1. now rewrite E1. }
  assert (Hs1 : currentState p1 = StatePause) by now subst p1.
  assert (Hr1 : recorder p1 = Some (ActionRecorder.pause now1 r)) by now subst p1.
  assert (Hf1 : recordingPaused p1 = true) by now subst p1.
  assert (Hresume : resume now3 p1 st1 = Ok (p2, st2, ModeRecord)).
  { unfold resume. rewrite Hs1, Hr1, Hf1. fold q2. now rewrite E2. }
  assert (Hs2 : currentState p2 = StateRecord) by now subst p2.
  split; [assumption|]. split; [assumption|]. split; [assumption|].
  split; [unfold pause; now rewrite Hs1|].
  split; [assumption|]. split; [assumption|].
  split; [now subst p2|].
  split; [unfold resume; now rewrite Hs2|].
  intros sid Hsid.
  assert (Hsid1 : session_of q1 = Some sid) by exact Hsid.
  assert (Hsid2 : session_of q2 = Some sid).
  { subst q2 p1. exact Hsid. }
  rewrite Hsid1 in Hst1. rewrite Hsid2 in Hst2. subst st1 st2.
  now rewrite !setStatus_lookup.
Qed.

(** A proxy in the middle of a recording. *)
Definition recording_proxy : WebsocketProxy :=
  set_currentState StateRecord
    (set_recorder (Some (create 0 "demo" "ws://127.0.0.1:8886" None))
       (fresh_proxy OPEN (Some "A"))).

Lemma recording_pause_resume_witness :
  exists p1 st1 p2 st2,
    pause 10 recording_proxy ∅ = Ok (p1, st1, ModeRecord)
    /\ currentState p1 = StatePause
    /\ recordingPaused p1 = true
    /\ pause 20 p1 st1 = Throw "Already paused"
    /\ resume 30 p1 st1 = Ok (p2, st2, ModeRecord)
    /\ currentState p2 = StateRecord
    /\ recordingPaused p2 = false
    /\ resume 40 p2 st2 = Throw "Cannot resume when not paused"
    /\ forall sid, session_of recording_proxy = Some sid ->
         status <$> st1 !! sid = Some StatePause
         /\ status <$> st2 !! sid = Some StateRecord.
Proof.
  apply (recording_pause_resume recording_proxy ∅
           (create 0 "demo" "ws://127.0.0.1:8886" None) 10 20 30 40); reflexivity.
Defined.





Section Runtime.
Variable toISOString : Z -> string.
Variable Number_of_other : json -> Z.
Variable String_of_other : json -> string.



End Runtime.


(** *** The schedule of a playback *)

(** The timers [schedulePlayback] sets for the entries from [off] on. *)
Definition timers_from (off : Z) (msgs : list RecordedMessage) : list Timer :=
  omap (fun m => if at_ms m <? off then None
                 else Some (mkTimer (Z.max 0 (at_ms m - off)) m)) msgs.

Lemma timers_from_messages (off : Z) (msgs : list RecordedMessage) :
  map message (timers_from off msgs)
  = List.filter (fun m => off <=? at_ms m) msgs.
Proof.
  unfold timers_from. induction msgs as [|m msgs IH]; [reflexivity|].
  cbn [omap list_omap List.filter].
  destruct (Z.ltb_spec (at_ms m) off).
  - rewrite (proj2 (Z.leb_gt _ _)) by lia. exact IH.
  - rewrite (proj2 (Z.leb_le _ _)) by lia. cbn [map message]. now rewrite IH.
Qed.

Lemma timers_from_delays (off : Z) (msgs : list RecordedMessage) :
  Forall (fun t => delay t = at_ms (message t) - off /\ 0 <= delay t)
         (timers_from off msgs).
Proof.
  unfold timers_from. induction msgs as [|m msgs IH]; [constructor|].
  cbn [omap list_omap].
  destruct (Z.ltb_spec (at_ms m) off); [exact IH|].
  constructor; [|exact IH]. cbn. lia.
Qed.

Lemma timers_from_sorted (off : Z) (msgs : list RecordedMessage) :
  Sorted at_le msgs -> Sorted Z.le (map delay (timers_from off msgs)).
Proof.
  intros Hs. apply Sorted_StronglySorted in Hs; [|apply at_le_trans].
  apply StronglySorted_Sorted.
  induction Hs as [|m msgs Hs IH Hall]; [constructor|].
  change (timers_from off (m :: msgs))
    with (match (if at_ms m <? off then None
                 else Some (mkTimer (Z.max 0 (at_ms m - off)) m)) with
          | Some t => t :: timers_from off msgs
          | None => timers_from off msgs
          end).
  destruct (Z.ltb_spec (at_ms m) off); [exact IH|].
  cbn [map delay]. constructor; [exact IH|].
  apply List.Forall_forall. intros d Hd.
  apply in_map_iff in Hd as (t & <- & Ht).
  pose proof (timers_from_delays off msgs) as Hdel.
  rewrite List.Forall_forall in Hdel. destruct (Hdel t Ht) as [-> _].
  assert (Hin : In (message t) msgs).
  { apply (in_map message) in Ht. rewrite timers_from_messages in Ht.
    now apply filter_In in Ht as [Ht _]. }
  rewrite List.Forall_forall in Hall. specialize (Hall _ Hin). unfold at_le in Hall. lia.
Qed.

Lemma schedulePlayback_timers now pb off p st :
  let p' := fst (schedulePlayback now pb off (p, st)) in
  playbackTimers p' = timers_from off (file_messages pb)
  /\ playback p' = Some pb
  /\ playbackStart p' = Some now
  /\ playbackElapsed p' = 0
  /\ playbackPaused p' = false
  /\ currentState p' = StateRun
  /\ recorder p' = recorder p.
Proof.
  unfold schedulePlayback.
  set (q := set_playbackStart (Some now) (set_playback (Some pb) (stopPlayback true p))).
  destruct (updateStatus_shape now StateRun (file_id pb) None off q st) as [[t Hp] _].
  destruct (updateStatus now StateRun (file_id pb) None off (q, st)) as [p1 st1].
  cbn [fst] in *. subst p1 q. now cbn.
Qed.

(** X21.  A playback scheduled from the offset [off] sets one timer
    for every entry whose time is [off] or later, in the order of the
    file and with the delay [at - off]; the timers set before are
    cancelled.  For a recording in the order of its times, which is what
    [load] returns, the delays never go down along the timers, so the
    frames are replayed in the order they were recorded. *)
Theorem playback_schedule
    (now : Z) (pb : RecordingFile) (off : Z) (p : WebsocketProxy)
    (st : gmap string Status) :
  let p' := fst (schedulePlayback now pb off (p, st)) in
  map message (playbackTimers p')
  = List.filter (fun m => off <=? at_ms m) (file_messages pb)
  /\ Forall (fun t => delay t = at_ms (message t) - off /\ 0 <= delay t)
            (playbackTimers p')
  /\ (Sorted at_le (file_messages pb) -> Sorted Z.le (map delay (playbackTimers p')))
  /\ (length (playbackTimers p') <= length (file_messages pb))%nat.
Proof.
  intros p'. destruct (schedulePlayback_timers now pb off p st) as (Ht & _).
  fold p' in Ht. rewrite Ht.
  split; [apply timers_from_messages|]. split; [apply timers_from_delays|].
  split; [apply timers_from_sorted|].
  rewrite <- (length_map message), timers_from_messages. apply filter_length_le.
Qed.

Lemma remote_open_link (p q : WebsocketProxy) :
  remoteSocket q = remoteSocket p -> remote_open q = remote_open p.
Proof. unfold remote_open. now intros ->. Qed.

(** What a pause of a running playback leaves. *)
Lemma pause_run (now : Z) (p : WebsocketProxy) (st : gmap string Status)
    (pb : RecordingFile) :
  currentState p = StateRun ->
  recorder p = None ->
  playback p = Some pb ->
  playbackPaused p = false ->
  exists p1 st1,
    pause now p st = Ok (p1, st1, ModeRun)
    /\ currentState p1 = StatePause
    /\ recorder p1 = None
    /\ playback p1 = Some pb
    /\ playbackPaused p1 = true
    /\ playbackTimers p1 = []
    /\ playbackElapsed p1
       = match playbackStart p with
         | Some t0 => if t0 =? 0 then playbackElapsed p
                      else playbackElapsed p + (now - t0)
         | None => playbackElapsed p
         end
    /\ remoteSocket p1 = remoteSocket p.
Proof.
  intros Hstate Hrec Hpb Hpaused.
  set (q := set_playbackPaused true
              (stopPlayback false
                 match playbackStart p with
                 | Some t0 => if t0 =? 0 then p
                              else set_playbackElapsed (playbackElapsed p + (now - t0)) p
                 | None => p
                 end)).
  destruct (updateStatus_shape now StatePause (file_id pb) None 0 q st) as [[t Hp] _].
  destruct (updateStatus now StatePause (file_id pb) None 0 (q, st)) as [p1 st1] eqn:E.
  cbn [fst] in Hp. exists p1, st1.
  split.
  { unfold pause. rewrite Hstate, Hrec, Hpb, Hpaused.
    unfold pausePlayback. rewrite Hpb, Hpaused. fold q. now rewrite E. }
  subst p1 q. destruct (playbackStart p) as [t0|]; [destruct (t0 =? 0)|];
    cbn; repeat split; assumption.
Qed.

(** What a resume of a paused playback leaves. *)
Lemma resume_run (now : Z) (p : WebsocketProxy) (st : gmap string Status)
    (pb : RecordingFile) :
  currentState p = StatePause ->
  recorder p = None ->
  playback p = Some pb ->
  playbackPaused p = true ->
  remote_open p = true ->
  exists p2 st2,
    resume now p st = Ok (p2, st2, ModeRun)
    /\ currentState p2 = StateRun
    /\ recorder p2 = None
    /\ playback p2 = Some pb
    /\ playbackPaused p2 = false
    /\ playbackTimers p2 = timers_from (playbackElapsed p) (file_messages pb)
    /\ playbackStart p2 = Some now
    /\ playbackElapsed p2 = 0
    /\ remoteSocket p2 = remoteSocket p.
Proof.
  intros Hstate Hrec Hpb Hpaused Hopen.
  destruct (schedulePlayback_timers now pb (playbackElapsed p) (set_playbackPaused false p) st)
    as (T1 & T2 & T3 & T4 & T5 & T6 & T7).
  destruct (schedulePlayback_link now pb (playbackElapsed p) (set_playbackPaused false p) st)
    as (L1 & _).
  destruct (schedulePlayback now pb (playbackElapsed p) (set_playbackPaused false p, st))
    as [p2 st2] eqn:E.
  cbn [fst] in *. exists p2, st2. split.
  { unfold resume. rewrite Hstate, Hrec, Hpb, Hpaused.
    unfold resumePlayback. rewrite Hpb, Hpaused, Hopen. cbn [andb]. now rewrite E. }
  repeat split; try assumption. now rewrite T7.
Qed.

(** X22.  A paused playback resumes from the time played so far: the
    entries due before the pause get no timer again.  The resume sets
    the time played back to 0, so after a second pause the time played
    counts from the first resume only, and the second resume schedules
    every entry from that time on. *)
Theorem playback_pause_resume
    (p : WebsocketProxy) (st : gmap string Status) (pb : RecordingFile)
    (t0 now1 now2 now3 now4 : Z) :
  currentState p = StateRun ->
  recorder p = None ->
  playback p = Some pb ->
  playbackPaused p = false ->
  playbackStart p = Some t0 ->
  t0 <> 0 ->
  now2 <> 0 ->
  remote_open p = true ->
  exists p1 st1 p2 st2 p3 st3 p4 st4,
    pause now1 p st = Ok (p1, st1, ModeRun)
    /\ playbackTimers p1 = []
    /\ playbackElapsed p1 = playbackElapsed p + (now1 - t0)
    /\ resume now2 p1 st1 = Ok (p2, st2, ModeRun)
    /\ playbackTimers p2
       = timers_from (playbackElapsed p + (now1 - t0)) (file_messages pb)
    /\ playbackElapsed p2 = 0
    /\ pause now3 p2 st2 = Ok (p3, st3, ModeRun)
    /\ playbackElapsed p3 = now3 - now2
    /\ resume now4 p3 st3 = Ok (p4, st4, ModeRun)
    /\ playbackTimers p4 = timers_from (now3 - now2) (file_messages pb).
Proof.
  intros Hstate Hrec Hpb Hpaused Hstart Ht0 Hnow2 Hopen.
  destruct (pause_run now1 p st pb Hstate Hrec Hpb Hpaused)
    as (p1 & st1 & P1 & A1 & A2 & A3 & A4 & A5 & A6 & A7).
  rewrite Hstart, (proj2 (Z.eqb_neq t0 0) Ht0) in A6.
  destruct (resume_run now2 p1 st1 pb A1 A2 A3 A4)
    as (p2 & st2 & P2 & B1 & B2 & B3 & B4 & B5 & B6 & B7 & B8).
  { now rewrite (remote_open_link p p1 A7). }
  rewrite A6 in B5.
  destruct (pause_run now3 p2 st2 pb B1 B2 B3 B4)
    as (p3 & st3 & P3 & C1 & C2 & C3 & C4 & C5 & C6 & C7).
  rewrite B6, (proj2 (Z.eqb_neq now2 0) Hnow2), B7 in C6.
  destruct (resume_run now4 p3 st3 pb C1 C2 C3 C4)
    as (p4 & st4 & P4 & D1 & D2 & D3 & D4 & D5 & D6 & D7 & D8).
  { rewrite (remote_open_link p2 p3 C7), (remote_open_link p1 p2 B8).
    now rewrite (remote_open_link p p1 A7). }
  rewrite Z.add_0_l in C6. rewrite C6 in D5.
  exists p1, st1, p2, st2, p3, st3, p4, st4.
  repeat split; assumption.
Qed.

(** A proxy in the middle of a playback started at the time 1000, with
    the upstream socket open. *)
Definition replayed : RecordingFile :=
  mkFile (Some (JStr "demo")) None None None
         [mkMessage 100 "a" false; mkMessage 300 "b" false; mkMessage 500 "c" false].

Definition playing_proxy : WebsocketProxy :=
  fst (schedulePlayback 1000 replayed 0
         (set_remoteSocket (Some (mkSocket OPEN [] [])) (fresh_proxy OPEN (Some "A")), ∅)).

Lemma playback_pause_resume_witness :
  exists p1 st1 p2 st2 p3 st3 p4 st4,
    pause 1200 playing_proxy ∅ = Ok (p1, st1, ModeRun)
    /\ playbackTimers p1 = []
    /\ playbackElapsed p1 = playbackElapsed playing_proxy + (1200 - 1000)
    /\ resume 2000 p1 st1 = Ok (p2, st2, ModeRun)
    /\ playbackTimers p2
       = timers_from (playbackElapsed playing_proxy + (1200 - 1000))
                     (file_messages replayed)
    /\ playbackElapsed p2 = 0
    /\ pause 2150 p2 st2 = Ok (p3, st3, ModeRun)
    /\ playbackElapsed p3 = 2150 - 2000
    /\ resume 3000 p3 st3 = Ok (p4, st4, ModeRun)
    /\ playbackTimers p4 = timers_from (2150 - 2000) (file_messages replayed).
Proof.
  apply (playback_pause_resume playing_proxy ∅ replayed 1000 1200 2000 2150 3000);
    (reflexivity || discriminate).
Defined.

(** In the example the entry of the time 300 has a timer after the
    first resume, and after the second resume it has one again. *)
Example second_resume_repeats :
  map (fun t => at_ms (message t)) (timers_from (0 + (1200 - 1000)) (file_messages replayed))
  = [300; 500]
  /\ map (fun t => at_ms (message t)) (timers_from (2150 - 2000) (file_messages replayed))
     = [300; 500].
Proof. split; reflexivity. Qed.

(** *** Release *)

Section Release.
Variable Mw_release : Socket -> Socket.
Variable toISOString : Z -> string.

Lemma clearDevice_lookup (sid : string) (st : gmap string Status) :
  clearDevice sid st !! sid = None.
Proof.
  unfold clearDevice. destruct (st !! sid) eqn:E; [apply lookup_delete_eq|assumption].
Qed.

(** The fields of the world after the release of a proxy that was not
    released. *)
Lemma release_fields (self : nat) (w : World) (p : WebsocketProxy) :
  heap w !! self = Some p ->
  released p = false ->
  let q := stopPlayback true (set_released true (set_ws (Mw_release (ws p)) p)) in
  let w' := release Mw_release toISOString self w in
  heap w' = <[self := flush q]> (heap w)
  /\ files w' = persistRecording toISOString q (files w)
  /\ forall sid, session_of p = Some sid ->
       sessions w' = base.delete sid (sessions w)
       /\ statuses w' = clearDevice sid (statuses w).
Proof.
  intros Hp Hrel q w'. subst w'. unfold release. rewrite Hp, Hrel. cbv zeta.
  rewrite flush_session_of, stopPlayback_session_of.
  replace (session_of (set_released true (set_ws (Mw_release (ws p)) p)))
    with (session_of p) by reflexivity.
  destruct (session_of p) as [sid|];
    cbn [heap files sessions statuses sync
         set_sync set_statuses set_sessions set_files set_heap].
  - split; [reflexivity|]. split; [reflexivity|].
    intros sid' [= <-]. split; reflexivity.
  - split; [reflexivity|]. split; [reflexivity|]. discriminate.
Qed.

(** X23.  The release of a proxy marks it released, cancels its
    playback timers and empties its queue: with an open upstream socket
    the queued frames are sent and the socket is closed, without one they
    are dropped.  A recording in progress is written to its file, the
    session and its status are taken off the registries, and a second
    release changes nothing. *)
Theorem release_unregisters (self : nat) (w : World) (p : WebsocketProxy) :
  heap w !! self = Some p ->
  released p = false ->
  let w' := release Mw_release toISOString self w in
  (exists p',
      heap w' !! self = Some p'
      /\ released p' = true
      /\ storage p' = []
      /\ playbackTimers p' = []
      /\ ws p' = Mw_release (ws p)
      /\ forall rs, remoteSocket p = Some rs -> readyState rs = OPEN ->
           remoteSocket p'
           = Some (mkSocket CLOSING (sent rs ++ storage p) (closes rs ++ [(None, None)])))
  /\ (forall sid, session_of p = Some sid ->
        sessions w' !! sid = None /\ statuses w' !! sid = None)
  /\ (forall r, recorder p = Some r ->
        files w' !! file_path (ActionRecorder.id r) = Some (recording_json toISOString r))
  /\ release Mw_release toISOString self w' = w'.
Proof.
  intros Hp Hrel w'.
  destruct (release_fields self w p Hp Hrel) as (Hheap & Hfiles & Hsession).
  fold w' in Hheap, Hfiles, Hsession.
  set (q := stopPlayback true (set_released true (set_ws (Mw_release (ws p)) p)))
    in Hheap, Hfiles.
  assert (Hq : heap w' !! self = Some (flush q)).
  { rewrite Hheap. apply lookup_insert_eq. }
  assert (Hreleased : released (flush q) = true).
  { unfold flush. now destruct (remoteSocket q). }
  split; [|split; [|split]].
  - exists (flush q). split; [assumption|]. split; [assumption|].
    split; [unfold flush; now destruct (remoteSocket q)|].
    split; [unfold flush; now destruct (remoteSocket q)|].
    split; [unfold flush; now destruct (remoteSocket q)|].
    intros rs Hrs Hopen. unfold flush.
    change (remoteSocket q) with (remoteSocket p). rewrite Hrs.
    change (storage q) with (storage p). change (released q) with true.
    cbn [remoteSocket set_storage set_remoteSocket].
    rewrite Socket_send_all by assumption. reflexivity.
  - intros sid Hsid. destruct (Hsession sid Hsid) as [-> ->].
    split; [apply lookup_delete_eq|apply clearDevice_lookup].
  - intros r Hr. rewrite Hfiles. unfold persistRecording.
    change (recorder q) with (recorder p). rewrite Hr.
    unfold persist. cbn [fst]. apply lookup_insert_eq.
  - unfold release. now rewrite Hq, Hreleased.
Qed.

End Release.

Lemma release_unregisters_witness :
  let w' := release (Socket_close None None) (fun _ => "") 0 three_sessions in
  (exists p',
      heap w' !! 0%nat = Some p'
      /\ released p' = true
      /\ storage p' = []
      /\ playbackTimers p' = []
      /\ ws p' = Socket_close None None (ws (fresh_proxy OPEN (Some "A")))
      /\ forall rs, remoteSocket (fresh_proxy OPEN (Some "A")) = Some rs ->
           readyState rs = OPEN ->
           remoteSocket p'
           = Some (mkSocket CLOSING (sent rs ++ storage (fresh_proxy OPEN (Some "A")))
                            (closes rs ++ [(None, None)])))
  /\ (forall sid, session_of (fresh_proxy OPEN (Some "A")) = Some sid ->
        sessions w' !! sid = None /\ statuses w' !! sid = None)
  /\ (forall r, recorder (fresh_proxy OPEN (Some "A")) = Some r ->
        files w' !! file_path (ActionRecorder.id r)
        = Some (recording_json (fun _ => "") r))
  /\ release (Socket_close None None) (fun _ => "") 0 w' = w'.
Proof.
  apply (release_unregisters (Socket_close None None) (fun _ => "") 0 three_sessions
           (fresh_proxy OPEN (Some "A"))); reflexivity.
Defined.

(** *** Mirroring *)

(** What a mirrored frame leaves of a proxy it is forwarded to. *)
Definition bystander (q q' : WebsocketProxy) : Prop :=
  recorder q' = recorder q /\ ws q' = ws q /\ sessionId q' = sessionId q
  /\ currentState q' = currentState q /\ playbackTimers q' = playbackTimers q.

Lemma bystander_refl (q : WebsocketProxy) : bystander q q.
Proof. now repeat split. Qed.

Lemma bystander_trans (q q' q'' : WebsocketProxy) :
  bystander q q' -> bystander q' q'' -> bystander q q''.
Proof. intros (? & ? & ? & ? & ?) (? & ? & ? & ? & ?). repeat split; congruence. Qed.

Lemma forwardFromSync_bystander (d : WsData) (q : WebsocketProxy) :
  bystander q (forwardFromSync d q).
Proof. unfold forwardFromSync. destruct (remoteSocket q); now repeat split. Qed.

(** The loop of [mirror] over the followers. *)
Definition forward_to (d : WsData) (followers : list string) (w : World) : World :=
  fold_left
    (fun w dev =>
       match sessions w !! dev with
       | Some obj => set_heap (alter (forwardFromSync d) obj (heap w)) w
       | None => w
       end)
    followers w.

Lemma forward_to_cons (d : WsData) (dev : string) (followers : list string) (w : World) :
  forward_to d (dev :: followers) w
  = forward_to d followers
      match sessions w !! dev with
      | Some obj => set_heap (alter (forwardFromSync d) obj (heap w)) w
      | None => w
      end.
Proof. reflexivity. Qed.

Lemma forward_to_rest (d : WsData) (followers : list string) (w : World) :
  sessions (forward_to d followers w) = sessions w
  /\ sync (forward_to d followers w) = sync w
  /\ statuses (forward_to d followers w) = statuses w
  /\ files (forward_to d followers w) = files w.
Proof.
  revert w. induction followers as [|dev followers IH]; intros w; [now repeat split|].
  rewrite forward_to_cons.
  destruct (sessions w !! dev) as [obj|]; [|apply IH].
  destruct (IH (set_heap (alter (forwardFromSync d) obj (heap w)) w)) as (? & ? & ? & ?).
  now repeat split.
Qed.

Lemma forward_to_bystander (d : WsData) (followers : list string) (w : World)
    (o : nat) (q : WebsocketProxy) :
  heap w !! o = Some q ->
  exists q', heap (forward_to d followers w) !! o = Some q' /\ bystander q q'.
Proof.
  revert w q. induction followers as [|dev followers IH]; intros w q Hq.
  - exists q. split; [assumption|apply bystander_refl].
  - rewrite forward_to_cons.
    destruct (sessions w !! dev) as [obj|]; [|now apply IH].
    destruct (decide (obj = o)) as [->|Hne].
    + destruct (IH (set_heap (alter (forwardFromSync d) o (heap w)) w) (forwardFromSync d q))
        as (q' & Hq' & Hb).
      { cbn. now rewrite lookup_alter_eq, Hq. }
      exists q'. split; [assumption|].
      eapply bystander_trans; [apply forwardFromSync_bystander|eassumption].
    + apply IH. cbn. now rewrite lookup_alter_ne.
Qed.

(** A proxy no follower is registered to is not reached. *)
Lemma forward_to_none (d : WsData) (followers : list string) (w : World) (o : nat) :
  (forall dev, dev ∈ followers -> sessions w !! dev <> Some o) ->
  heap (forward_to d followers w) !! o = heap w !! o.
Proof.
  revert w. induction followers as [|dev followers IH]; intros w Hnone; [reflexivity|].
  rewrite forward_to_cons.
  destruct (sessions w !! dev) as [obj|] eqn:E.
  - rewrite IH.
    + cbn. apply lookup_alter_ne. intros ->. apply (Hnone dev); [left|assumption].
    + intros dev' Hdev'. cbn. apply Hnone. now right.
  - apply IH. intros dev' Hdev'. apply Hnone. now right.
Qed.

(** The proxy of a follower is reached once. *)
Lemma forward_to_one (d : WsData) (followers : list string) (w : World)
    (dev : string) (o : nat) :
  NoDup followers ->
  dev ∈ followers ->
  sessions w !! dev = Some o ->
  (forall dev', dev' ∈ followers -> sessions w !! dev' = Some o -> dev' = dev) ->
  heap (forward_to d followers w) !! o = forwardFromSync d <$> heap w !! o.
Proof.
  revert w. induction followers as [|x followers IH]; intros w Hnd Hin Hdev Honly.
  { now apply elem_of_nil in Hin. }
  apply NoDup_cons in Hnd as [Hx Hnd].
  rewrite forward_to_cons.
  destruct (decide (x = dev)) as [->|Hne].
  - rewrite Hdev. rewrite forward_to_none.
    + cbn. apply lookup_alter_eq.
    + intros dev' Hdev' Ho. cbn in Ho.
      assert (dev' = dev) by (apply Honly; [now right|assumption]). congruence.
  - apply elem_of_cons in Hin as [->|Hin]; [congruence|].
    destruct (sessions w !! x) as [obj|] eqn:E.
    + rewrite IH; try assumption.
      * cbn. rewrite lookup_alter_ne; [reflexivity|].
        intros ->. apply Hne, Honly; [left|assumption].
      * intros dev' Hdev' Ho. apply Honly; [now right|assumption].
    + apply IH; try assumption.
      intros dev' Hdev' Ho. apply Honly; [now right|assumption].
Qed.

Lemma mirror_forward_to (source : string) (d : WsData) (w : World) :
  mirror source d w
  = match SyncService.Map_get source (sync w) with
    | Some followers => forward_to d followers w
    | None => w
    end.
Proof. reflexivity. Qed.

(** X24.  A frame that comes in on one proxy is recorded by that proxy
    alone: whatever the sync mapping is, every other proxy keeps its
    recorder, its downstream socket, its session, its state and its
    timers, and the registries, the mapping and the files are as
    before. *)
Theorem mirror_never_records
    (self : nat) (now : Z) (d : WsData) (w : World) (o : nat) (q : WebsocketProxy) :
  o <> self ->
  heap w !! o = Some q ->
  let w' := onSocketMessage self now d w in
  (exists q', heap w' !! o = Some q' /\ bystander q q')
  /\ sessions w' = sessions w /\ sync w' = sync w
  /\ statuses w' = statuses w /\ files w' = files w.
Proof.
  intros Hne Hq w'. subst w'. unfold onSocketMessage.
  destruct (heap w !! self) as [p|] eqn:Hp.
  2:{ split; [exists q; split; [assumption|apply bystander_refl]|now repeat split]. }
  set (w1 := set_heap (<[self := receive now d p]> (heap w)) w).
  assert (Hq1 : heap w1 !! o = Some q).
  { subst w1. cbn. now rewrite lookup_insert_ne. }
  destruct (session_of (receive now d p)) as [sid|].
  2:{ split; [exists q; split; [assumption|apply bystander_refl]|now repeat split]. }
  rewrite mirror_forward_to.
  destruct (SyncService.Map_get sid (sync w1)) as [followers|].
  2:{ split; [exists q; split; [assumption|apply bystander_refl]|now repeat split]. }
  split; [now apply forward_to_bystander|].
  destruct (forward_to_rest d followers w1) as (-> & -> & -> & ->). now repeat split.
Qed.

(** X25.  A frame that comes in on the proxy of a session goes to the
    proxy of every follower of that session that is registered: such a
    proxy forwards it once to its upstream socket, or queues it when it
    has none yet. *)
Theorem mirror_delivers
    (self : nat) (now : Z) (d : WsData) (w : World) (p : WebsocketProxy)
    (sid dev : string) (followers : list string) (o : nat) (q : WebsocketProxy) :
  heap w !! self = Some p ->
  session_of p = Some sid ->
  SyncService.Map_get sid (sync w) = Some followers ->
  NoDup followers ->
  dev ∈ followers ->
  sessions w !! dev = Some o ->
  (forall dev', dev' ∈ followers -> sessions w !! dev' = Some o -> dev' = dev) ->
  o <> self ->
  heap w !! o = Some q ->
  heap (onSocketMessage self now d w) !! o = Some (forwardFromSync d q)
  /\ (forall rs, remoteSocket q = Some rs -> readyState rs = OPEN ->
        remoteSocket (forwardFromSync d q)
        = Some (mkSocket OPEN (sent rs ++ [d]) (closes rs)))
  /\ (remoteSocket q = None -> storage (forwardFromSync d q) = storage q ++ [d]).
Proof.
  intros Hp Hsid Hmap Hnd Hin Hdev Honly Hne Hq.
  split; [|split].
  - unfold onSocketMessage. rewrite Hp.
    assert (Hs : session_of (receive now d p) = Some sid).
    { unfold receive. destruct (recordingPaused p); cbn;
        destruct (remoteSocket _); exact Hsid. }
    rewrite Hs, mirror_forward_to. cbn [sync set_heap]. rewrite Hmap.
    rewrite (forward_to_one d followers _ dev o Hnd Hin); try assumption.
    cbn. now rewrite lookup_insert_ne, Hq.
  - intros rs Hrs Hopen. unfold forwardFromSync. rewrite Hrs. cbn.
    unfold Socket_send. rewrite Hopen. now cbn.
  - intros Hnone. unfold forwardFromSync. now rewrite Hnone.
Qed.

(** Session A is followed by session B. *)
Definition followed : World :=
  mkWorld {[ 0%nat := fresh_proxy OPEN (Some "A"); 1%nat := fresh_proxy OPEN (Some "B") ]}
          {[ "A" := 0%nat; "B" := 1%nat ]} ∅ [("A", ["B"])] ∅.

Lemma mirror_never_records_witness :
  let w' := onSocketMessage 0 5 (WsString "tap") followed in
  (exists q', heap w' !! 1%nat = Some q' /\ bystander (fresh_proxy OPEN (Some "B")) q')
  /\ sessions w' = sessions followed /\ sync w' = sync followed
  /\ statuses w' = statuses followed /\ files w' = files followed.
Proof.
  apply (mirror_never_records 0 5 (WsString "tap") followed 1 (fresh_proxy OPEN (Some "B")));
    [discriminate|reflexivity].
Defined.

Lemma mirror_delivers_witness :
  heap (onSocketMessage 0 5 (WsString "tap") followed) !! 1%nat
  = Some (forwardFromSync (WsString "tap") (fresh_proxy OPEN (Some "B")))
  /\ (forall rs, remoteSocket (fresh_proxy OPEN (Some "B")) = Some rs ->
        readyState rs = OPEN ->
        remoteSocket (forwardFromSync (WsString "tap") (fresh_proxy OPEN (Some "B")))
        = Some (mkSocket OPEN (sent rs ++ [WsString "tap"]) (closes rs)))
  /\ (remoteSocket (fresh_proxy OPEN (Some "B")) = None ->
        storage (forwardFromSync (WsString "tap") (fresh_proxy OPEN (Some "B")))
        = storage (fresh_proxy OPEN (Some "B")) ++ [WsString "tap"]).
Proof.
  apply (mirror_delivers 0 5 (WsString "tap") followed (fresh_proxy OPEN (Some "A"))
           "A" "B" ["B"] 1 (fresh_proxy OPEN (Some "B"))).
  - reflexivity.
  - reflexivity.
  - reflexivity.
  - repeat constructor. intros H. now apply elem_of_nil in H.
  - now left.
  - reflexivity.
  - intros dev' Hdev' _. now apply list_elem_of_singleton in Hdev'.
  - discriminate.
  - reflexivity.
Defined.

End ProxyControlFacts.

(** ** The outcome of the switch to Wi-Fi *)

Module WifiOutcomeFacts.
Import Js WifiSwitch WifiSwitchFacts.

Section Environment.
Variable adb : nat -> list string -> Z * ExecResult.
Variable getSerial : string -> option string.
Variable getDeviceIp : string -> option string.
Variable timeout_wins_tie : bool.

Lemma or_else_nonempty (msg fallback : string) :
  fallback <> "" -> or_else (Some msg) fallback <> "".
Proof. intros Hf. unfold or_else. now destruct msg. Qed.

Ltac outcome :=
  cbn [fst snd device connect success error trace or_else truthy_string];
  repeat match goal with
         | |- _ /\ _ => split
         | |- _ -> _ => intro
         | H : _ \/ _ |- _ => destruct H
         end;
  try discriminate; try congruence; try reflexivity.

(** X26.  The switch of a device to Wi-Fi records the preference
    [wifi] for its serial when it succeeds, and only then: a failed
    switch leaves the preferences as they were and reports an error that
    is not empty.  When the serial of a [host:port] device, or the
    address of a device named by its serial, cannot be resolved, the
    switch fails before its [tcpip] and [connect] commands: none of
    them is run. *)
Theorem wifi_switch_outcome
    (deviceStr : string) (portRaw : option Z) (prefs : gmap string ConnectType) :
  deviceStr <> "" ->
  let done := processItem_wifi adb getSerial getDeviceIp timeout_wins_tie
                               deviceStr portRaw prefs in
  let res := fst (fst done) in
  let run := snd (fst done) in
  let prefs' := snd done in
  device res = deviceStr
  /\ connect res = wifi
  /\ (success res = true ->
        error res = None
        /\ exists uuid,
             uuid <> ""
             /\ prefs' = <[uuid := wifi]> prefs
             /\ if includes deviceStr ":" then getSerial deviceStr = Some uuid
                else uuid = deviceStr)
  /\ (success res = false ->
        prefs' = prefs /\ exists msg, msg <> "" /\ error res = Some msg)
  /\ (includes deviceStr ":" = true ->
      getSerial deviceStr = None \/ getSerial deviceStr = Some "" ->
        trace run = [] /\ success res = false
        /\ error res = Some "Unable to resolve device uuid")
  /\ (includes deviceStr ":" = false ->
      getDeviceIp deviceStr = None \/ getDeviceIp deviceStr = Some "" ->
        trace run = [] /\ success res = false
        /\ error res = Some "Unable to resolve device ip").
Proof.
  intros Hne. cbv zeta. unfold processItem_wifi.
  destruct (includes deviceStr ":") eqn:Hcolon; cbn [andb].
  - (* a device named host:port *)
    destruct (getSerial deviceStr) as [[|c serial]|] eqn:Hserial;
      cbn [is_empty truthy_string negb].
    + outcome. exists "Unable to resolve device uuid". now split.
    + match goal with
      | |- context [match ?t with Some _ => _ | None => _ end] =>
          destruct t as [target|] eqn:Htarget
      end.
      * match goal with
        | |- context [race _ ?r] =>
            destruct (race timeout_wins_tie r) as [[]|msg] eqn:Hrace
        end.
        -- outcome. exists (String c serial). now repeat split.
        -- outcome. eexists. split; [|reflexivity].
           now apply or_else_nonempty.
      * outcome. exists "Unable to resolve device ip". now split.
    + outcome. exists "Unable to resolve device uuid". now split.
  - (* a device named by its serial *)
    unfold is_empty. rewrite (truthy_nonempty deviceStr Hne).
    cbn [negb truthy_string].
    destruct (getDeviceIp deviceStr) as [[|c ip]|] eqn:Hip; cbn [truthy_string].
    + outcome. exists "Unable to resolve device ip". now split.
    + match goal with
      | |- context [race _ ?r] =>
          destruct (race timeout_wins_tie r) as [[]|msg] eqn:Hrace
      end.
      * outcome. exists deviceStr. now repeat split.
      * outcome. eexists. split; [|reflexivity].
        now apply or_else_nonempty.
    + outcome. exists "Unable to resolve device ip". now split.
Qed.

End Environment.

Lemma wifi_switch_outcome_witness :
  let done := processItem_wifi adb_second_attempt (fun _ => None)
                (fun _ => Some "192.168.1.7") true "SER" None ∅ in
  let res := fst (fst done) in
  let run := snd (fst done) in
  let prefs' := snd done in
  device res = "SER"
  /\ connect res = wifi
  /\ (success res = true ->
        error res = None
        /\ exists uuid,
             uuid <> ""
             /\ prefs' = <[uuid := wifi]> ∅
             /\ if includes "SER" ":" then (fun _ : string => @None string) "SER" = Some uuid
                else uuid = "SER")
  /\ (success res = false ->
        prefs' = ∅ /\ exists msg, msg <> "" /\ error res = Some msg)
  /\ (includes "SER" ":" = true ->
      (fun _ : string => @None string) "SER" = None
      \/ (fun _ : string => @None string) "SER" = Some "" ->
        trace run = [] /\ success res = false
        /\ error res = Some "Unable to resolve device uuid")
  /\ (includes "SER" ":" = false ->
      (fun _ : string => Some "192.168.1.7") "SER" = None
      \/ (fun _ : string => Some "192.168.1.7") "SER" = Some "" ->
        trace run = [] /\ success res = false
        /\ error res = Some "Unable to resolve device ip").
Proof.
  apply (wifi_switch_outcome adb_second_attempt (fun _ => None)
           (fun _ => Some "192.168.1.7") true "SER" None ∅).
  discriminate.
Defined.

(** In the example the switch succeeds and the preference of the serial
    is [wifi]. *)
Example wifi_switch_recorded :
  let done := processItem_wifi adb_second_attempt (fun _ => None)
                (fun _ => Some "192.168.1.7") true "SER" None ∅ in
  success (fst (fst done)) = true /\ snd done !! "SER" = Some wifi.
Proof. split; reflexivity. Qed.

End WifiOutcomeFacts.
